(** * Echo Query language server: analysis engine

    A shallow embedding of [EchoQueryServer] and the properties of its
    validator, completion, hover, symbol and formatting handlers.  The
    repository keeps two variants of the class: the one that debounces
    validation with a 500 ms timeout (src/unnamed/part_003) and the one that
    validates at once (src/unnamed/part_001).  Of what is modelled here they
    differ in [validate] and in [doValidate]; the request handlers are the
    same.

    Text model.  A JavaScript string is a sequence of code units; documents
    are modelled as [list ascii], that is as texts whose code units are
    below 256.  On that alphabet [\s] and [String.prototype.trim] agree on
    the seven code units TAB, LF, VT, FF, CR, SPACE and NO-BREAK SPACE (160),
    [\w] is [[A-Za-z0-9_]], and [toUpperCase] maps the letters [a]-[z] and
    the code units 224 to 254 but 247 to the code unit 32 below and turns
    the code unit 223 into the two code units [SS].  Numbers (columns, line
    indices, [indexOf] results) are [Z]. *)

From Stdlib Require Import ZArith Lia Bool List Ascii String.
From stdpp Require Import base option gmap strings.
Import ListNotations.

Open Scope Z_scope.
Open Scope list_scope.

(** ** Characters *)

Definition code (c : ascii) : N := N_of_ascii c.

Definition in_range (lo hi : N) (c : ascii) : bool :=
  ((lo <=? code c) && (code c <=? hi))%N.

(** [\s], which is also the set removed by [trim]: TAB, LF, VT, FF, CR,
    SPACE and NO-BREAK SPACE. *)
Definition is_space (c : ascii) : bool :=
  in_range 9 13 c || (code c =? 32)%N || (code c =? 160)%N.

Definition is_lower (c : ascii) : bool := in_range 97 122 c.
Definition is_upper (c : ascii) : bool := in_range 65 90 c.
Definition is_digit (c : ascii) : bool := in_range 48 57 c.

(** [\w] *)
Definition is_word (c : ascii) : bool :=
  is_lower c || is_upper c || is_digit c || (code c =? 95)%N.

(** The upper case of a code unit that has one of the same width: the
    letters [a]-[z] and the code units 224 to 254 but 247.  The upper cases
    of the code units 181 and 255 are U+039C and U+0178, which are no code
    units of this alphabet; the two stay in place, and nothing else is
    mapped to them. *)
Definition upper_char (c : ascii) : ascii :=
  if is_lower c || (in_range 224 254 c && negb (code c =? 247)%N)
  then ascii_of_N (code c - 32) else c.

(** ** Strings *)

Abbreviation jsstring := (list ascii).

Definition str (s : string) : jsstring := list_ascii_of_string s.

(** [s.toUpperCase()]: code unit by code unit, but that the code unit 223
    (sharp s) becomes the two code units [SS]. *)
Definition upper_units (c : ascii) : jsstring :=
  if (code c =? 223)%N then ["S"%char; "S"%char] else [upper_char c].

Definition toUpperCase (s : jsstring) : jsstring := flat_map upper_units s.

Definition len (s : jsstring) : Z := Z.of_nat (length s).

Definition char_eqb (a b : ascii) : bool := Ascii.eqb a b.

Fixpoint str_eqb (a b : jsstring) : bool :=
  match a, b with
  | [], [] => true
  | x :: a', y :: b' => char_eqb x y && str_eqb a' b'
  | _, _ => false
  end.

(** [s.startsWith(p)] *)
Fixpoint startsWith (p s : jsstring) : bool :=
  match p, s with
  | [], _ => true
  | x :: p', y :: s' => char_eqb x y && startsWith p' s'
  | _ :: _, [] => false
  end.

(** [s.includes(p)] *)
Fixpoint includes (p s : jsstring) : bool :=
  startsWith p s ||
  match s with
  | [] => false
  | _ :: s' => includes p s'
  end.

(** [s.indexOf(p)], [-1] when [p] does not occur. *)
Fixpoint indexOf_from (i : Z) (p s : jsstring) : Z :=
  if startsWith p s then i
  else match s with
       | [] => -1
       | _ :: s' => indexOf_from (i + 1) p s'
       end.

Definition indexOf (s p : jsstring) : Z := indexOf_from 0 p s.

(** [arr.includes(x)] on an array of strings. *)
Definition arr_includes (arr : list jsstring) (x : jsstring) : bool :=
  existsb (str_eqb x) arr.

Fixpoint trimStart (s : jsstring) : jsstring :=
  match s with
  | c :: s' => if is_space c then trimStart s' else s
  | [] => []
  end.

Fixpoint trimEnd (s : jsstring) : jsstring :=
  match s with
  | [] => []
  | c :: s' =>
      match trimEnd s' with
      | [] => if is_space c then [] else [c]
      | r => c :: r
      end
  end.

(** [s.trim()] *)
Definition trim (s : jsstring) : jsstring := trimEnd (trimStart s).

(** [s.split(sep)] for a one-character separator: never empty, and the
    empty string splits into one empty piece. *)
Fixpoint split (sep : ascii) (s : jsstring) : list jsstring :=
  match s with
  | [] => [[]]
  | c :: s' =>
      if char_eqb c sep then [] :: split sep s'
      else match split sep s' with
           | piece :: rest => (c :: piece) :: rest
           | [] => [[c]]
           end
  end.

(** [s.split(/\s+/)]: pieces between maximal runs of white space.  [insp]
    records that the previous character belonged to a separator. *)
Fixpoint split_ws_from (insp : bool) (s : jsstring) : list jsstring :=
  match s with
  | [] => [[]]
  | c :: s' =>
      if is_space c then
        if insp then split_ws_from true s' else [] :: split_ws_from true s'
      else match split_ws_from false s' with
           | piece :: rest => (c :: piece) :: rest
           | [] => [[c]]
           end
  end.

Definition split_ws (s : jsstring) : list jsstring := split_ws_from false s.

(** [arr.join(sep)] *)
Fixpoint join (sep : jsstring) (arr : list jsstring) : jsstring :=
  match arr with
  | [] => []
  | [x] => x
  | x :: rest => x ++ sep ++ join sep rest
  end.

(** [arr[0]] of a string array, [undefined] being out of reach for the
    arrays produced by [split]. *)
Definition first_piece (arr : list jsstring) : jsstring := hd [] arr.

(** Number of occurrences of a character: the length of the array that a
    global single-character [match] returns, [0] when it returns [null]. *)
Definition count_char (c : ascii) (s : jsstring) : nat :=
  length (List.filter (char_eqb c) s).

Definition LF : ascii := ascii_of_N 10.
Definition TAB : ascii := ascii_of_N 9.

(** ** Protocol data *)

Record Position := { line : Z; character : Z }.

Record Range := { start : Position; end_ : Position }.

Record Diagnostic := {
  severity : Z;
  range : Range;
  message : jsstring;
  source : jsstring
}.

Record TextDocument := { uri : string; getText : jsstring }.

(** A [textDocument/publishDiagnostics] notification. *)
Record PublishDiagnostics := {
  pd_uri : string;
  pd_diagnostics : list Diagnostic
}.

Definition Error : Z := 1.
Definition Warning : Z := 2.

Definition line_range (lineIndex endCharacter : Z) : Range :=
  {| start := {| line := lineIndex; character := 0 |};
     end_ := {| line := lineIndex; character := endCharacter |} |}.

(** [arr.forEach((x, i) => ...)] where the callback pushes onto one output
    array: the pushed items, in order. *)
Fixpoint forEach_from {A B : Type} (i : Z) (f : A -> Z -> list B) (arr : list A)
  : list B :=
  match arr with
  | [] => []
  | x :: rest => f x i ++ forEach_from (i + 1) f rest
  end.

Definition forEach {A B : Type} (f : A -> Z -> list B) (arr : list A) : list B :=
  forEach_from 0 f arr.

Definition arr_length {A : Type} (arr : list A) : Z := Z.of_nat (length arr).

Definition validStartKeywords : list jsstring :=
  map str ["INDEX"; "FILTER"; "MAP"; "AS"; "SQL"; "JOIN"]%string.

Definition msg_unknown_keyword : jsstring :=
  str "Line must start with one of: " ++ join (str ", ") validStartKeywords.
Definition msg_index_arity : jsstring :=
  str "INDEX statement must be followed by an index name".
Definition msg_filter_condition : jsstring :=
  str "FILTER must include a comparison operator (>, <, =, !=)".
Definition msg_map_shape : jsstring :=
  str "MAP statement should typically include field paths (using dots) or AS keyword".
Definition msg_unmatched_quotes : jsstring := str "Unmatched quotes in line".
Definition src_echo_query : jsstring := str "Echo Query".

Definition hasCondition (trimmedLine : jsstring) : bool :=
  includes (str ">") trimmedLine || includes (str "<") trimmedLine
  || includes (str "=") trimmedLine || includes (str "!=") trimmedLine.

Definition quoteCount (trimmedLine : jsstring) : nat :=
  count_char (ascii_of_N 34) trimmedLine.

Definition skipped (trimmedLine : jsstring) : bool :=
  str_eqb trimmedLine [] || startsWith (str "//") trimmedLine.

(** ** The validator of the debouncing variant (src/unnamed/part_003) *)

Module Debounced.

(** The body of the [lines.forEach] callback of [doValidate]. *)
Definition checkLine (line : jsstring) (lineIndex : Z) : list Diagnostic :=
  let trimmedLine := trim line in
  if skipped trimmedLine then []
  else
    let firstWord := toUpperCase (first_piece (split " " trimmedLine)) in
    (if negb (arr_includes validStartKeywords firstWord) then
       [{| severity := 1;
           range := line_range lineIndex (len firstWord);
           message := msg_unknown_keyword;
           source := src_echo_query |}]
     else [])
    ++ (if str_eqb firstWord (str "INDEX") then
          let parts := split " " trimmedLine in
          if arr_length parts <? 2 then
            [{| severity := 1;
                range := line_range lineIndex (len line);
                message := msg_index_arity;
                source := src_echo_query |}]
          else []
        else [])
    ++ (if str_eqb firstWord (str "FILTER") then
          if negb (hasCondition trimmedLine) then
            [{| severity := 1;
                range := line_range lineIndex (len line);
                message := msg_filter_condition;
                source := src_echo_query |}]
          else []
        else [])
    ++ (if str_eqb firstWord (str "MAP") then
          if negb (includes (str "AS") trimmedLine)
             && negb (includes (str ".") trimmedLine) then
            [{| severity := 2;
                range := line_range lineIndex (len line);
                message := msg_map_shape;
                source := src_echo_query |}]
          else []
        else [])
    ++ (if negb (Nat.eqb (quoteCount trimmedLine mod 2) 0) then
          [{| severity := 1;
              range := line_range lineIndex (len line);
              message := msg_unmatched_quotes;
              source := src_echo_query |}]
        else []).

(** [doValidate] up to the notification it sends. *)
Definition diagnosticsOf (text : jsstring) : list Diagnostic :=
  forEach checkLine (split LF text).

End Debounced.

(** ** The validator of the immediate variant (src/unnamed/part_001) *)

Module Immediate.

Definition checkLine (line : jsstring) (lineIndex : Z) : list Diagnostic :=
  let trimmedLine := trim line in
  if skipped trimmedLine then []
  else
    let firstWord := toUpperCase (first_piece (split_ws trimmedLine)) in
    (if negb (arr_includes validStartKeywords firstWord) then
       [{| severity := 1;
           range := line_range lineIndex (len firstWord);
           message := msg_unknown_keyword;
           source := src_echo_query |}]
     else [])
    ++ (if str_eqb firstWord (str "INDEX") then
          let parts :=
            List.filter (fun part => 0 <? len part) (split_ws trimmedLine) in
          if (arr_length parts <? 2)
             || match nth_error parts 1 with
                | Some part => str_eqb (trim part) []
                | None => true
                end then
            [{| severity := 1;
                range := line_range lineIndex
                           (if len trimmedLine =? 0 then 5 else len trimmedLine);
                message := msg_index_arity;
                source := src_echo_query |}]
          else []
        else [])
    ++ (if str_eqb firstWord (str "FILTER") then
          if negb (hasCondition trimmedLine) then
            [{| severity := 1;
                range := line_range lineIndex (len trimmedLine);
                message := msg_filter_condition;
                source := src_echo_query |}]
          else []
        else [])
    ++ (if str_eqb firstWord (str "MAP") then
          if negb (includes (str "AS") trimmedLine)
             && negb (includes (str ".") trimmedLine) then
            [{| severity := 2;
                range := line_range lineIndex (len trimmedLine);
                message := msg_map_shape;
                source := src_echo_query |}]
          else []
        else [])
    ++ (if negb (Nat.eqb (quoteCount trimmedLine mod 2) 0) then
          [{| severity := 1;
              range := line_range lineIndex (len trimmedLine);
              message := msg_unmatched_quotes;
              source := src_echo_query |}]
        else []).

Definition diagnosticsOf (text : jsstring) : list Diagnostic :=
  forEach checkLine (split LF text).

End Immediate.

(** ** Regular expressions

    A pattern is embedded as a [matcher]: given the character before the
    current position ([None] at the start of the string) and the rest of the
    string, the length of the match that starts here, if any.  None of the
    patterns of the server matches the empty string. *)

Definition matcher := option ascii -> jsstring -> option nat.

Definition is_word_opt (c : option ascii) : bool :=
  match c with Some c => is_word c | None => false end.

(** [\b] between [prev] and the first character of [rest]. *)
Definition word_boundary (prev : option ascii) (rest : jsstring) : bool :=
  xorb (is_word_opt prev) (is_word_opt (hd_error rest)).

(** The character before the position reached after [consumed]. *)
Definition prev_after (prev : option ascii) (consumed : jsstring) : option ascii :=
  match last consumed with
  | Some c => Some c
  | None => prev
  end.

(** A literal, compared under the [i] flag when [ci] is set. *)
Fixpoint literal (ci : bool) (pat s : jsstring) : bool :=
  match pat, s with
  | [], _ => true
  | p :: pat', c :: s' =>
      (if ci then char_eqb (upper_char p) (upper_char c) else char_eqb p c)
      && literal ci pat' s'
  | _ :: _, [] => false
  end.

(** One alternative of [\b(a1|...|an)\b], with the closing [\b]. *)
Definition try_alternative (ci : bool) (prev : option ascii) (s alt : jsstring)
  : option nat :=
  let n := length alt in
  if literal ci alt s && word_boundary (prev_after prev (firstn n s)) (skipn n s)
  then Some n else None.

(** Alternatives are tried in order, the next one when the closing [\b]
    fails. *)
Fixpoint first_alternative (ci : bool) (prev : option ascii) (s : jsstring)
  (alts : list jsstring) : option nat :=
  match alts with
  | [] => None
  | alt :: rest =>
      match try_alternative ci prev s alt with
      | Some n => Some n
      | None => first_alternative ci prev s rest
      end
  end.

(** [/\b(a1|...|an)\b/] *)
Definition bounded_alternation (ci : bool) (alts : list jsstring) : matcher :=
  fun prev s =>
    if word_boundary prev s then first_alternative ci prev s alts else None.

(** Length of the run of [\w] characters at the head of [s]. *)
Fixpoint word_run (s : jsstring) : nat :=
  match s with
  | c :: s' => if is_word c then S (word_run s') else O
  | [] => O
  end.

(** Greedy [\w+] followed by [\b]: the longest run first, giving back one
    character at a time. *)
Fixpoint longest_bounded (prev : option ascii) (s : jsstring) (n : nat)
  : option nat :=
  match n with
  | O => None
  | S k =>
      if word_boundary (prev_after prev (firstn n s)) (skipn n s) then Some n
      else longest_bounded prev s k
  end.

(** [/\b\w+\b/] *)
Definition bounded_word : matcher :=
  fun prev s =>
    if word_boundary prev s then longest_bounded prev s (word_run s) else None.

(** The successive results of [re.exec(s)] for a global pattern, as pairs of
    [match.index] and [match[0]].  [skip] counts the characters of the last
    match that are still to be passed. *)
Fixpoint execAll_from (m : matcher) (pos : Z) (prev : option ascii) (skip : nat)
  (s : jsstring) : list (Z * jsstring) :=
  match s with
  | [] => []
  | c :: s' =>
      match skip with
      | S k => execAll_from m (pos + 1) (Some c) k s'
      | O =>
          match m prev s with
          | Some (S n) =>
              (pos, firstn (S n) s) :: execAll_from m (pos + 1) (Some c) n s'
          | _ => execAll_from m (pos + 1) (Some c) O s'
          end
      end
  end.

Definition execAll (m : matcher) (s : jsstring) : list (Z * jsstring) :=
  execAll_from m 0 None O s.

(** [s.match(re)] for a global pattern, [null] read as the empty array. *)
Definition matchAll (m : matcher) (s : jsstring) : list jsstring :=
  map snd (execAll m s).

(** [s.replace(re, f)] for a global pattern and a replacement function. *)
Fixpoint replace_from (m : matcher) (f : jsstring -> jsstring)
  (prev : option ascii) (skip : nat) (s : jsstring) : jsstring :=
  match s with
  | [] => []
  | c :: s' =>
      match skip with
      | S k => replace_from m f (Some c) k s'
      | O =>
          match m prev s with
          | Some (S n) => f (firstn (S n) s) ++ replace_from m f (Some c) n s'
          | _ => c :: replace_from m f (Some c) O s'
          end
      end
  end.

Definition replace (m : matcher) (f : jsstring -> jsstring) (s : jsstring)
  : jsstring :=
  replace_from m f None O s.

Definition keywords : list jsstring :=
  map str ["INDEX"; "FILTER"; "MAP"; "AS"; "SQL"; "JOIN"; "NOT"]%string.

Definition fieldPaths : list jsstring :=
  map str ["winlog.event_id"; "winlog.event_data.ProcessName";
           "host.hostname"; "process.executable"]%string.

(** [/\b(INDEX|FILTER|MAP|AS|SQL|JOIN|NOT)\b/gi] *)
Definition keywordPattern : matcher := bounded_alternation true keywords.

(** The field-path pattern of [findDocumentSymbols], without the [i] flag. *)
Definition fieldPattern : matcher := bounded_alternation false fieldPaths.

(** ** Request handlers (the same in both variants) *)

Inductive CompletionItemKind := Keyword | Field.

Record CompletionItem := {
  label : jsstring;
  kind : CompletionItemKind;
  detail : jsstring;
  documentation : jsstring
}.

Record CompletionList := { isIncomplete : bool; items : list CompletionItem }.

Definition keywordItems : list CompletionItem :=
  [ {| label := str "INDEX"; kind := Keyword; detail := str "INDEX statement";
       documentation := str "Specify the index to query from" |};
    {| label := str "FILTER"; kind := Keyword; detail := str "FILTER operation";
       documentation := str "Filter and transform the results" |};
    {| label := str "MAP"; kind := Keyword; detail := str "MAP function";
       documentation := str "Transform data using a mapping expression" |};
    {| label := str "AS"; kind := Keyword; detail := str "AS clause";
       documentation := str "Assign an alias to the result set" |};
    {| label := str "SQL"; kind := Keyword; detail := str "SQL operation";
       documentation := str "Perform SQL operations on the data" |};
    {| label := str "JOIN"; kind := Keyword; detail := str "JOIN function";
       documentation := str "Join two result sets based on conditions" |};
    {| label := str "NOT"; kind := Keyword; detail := str "NOT operator";
       documentation := str "Negate a condition" |} ].

Definition fieldItems : list CompletionItem :=
  map (fun field =>
         {| label := field; kind := Field; detail := str "Field";
            documentation := str "Field path: " ++ field |})
      fieldPaths.

Definition completion (documents : gmap string TextDocument) (uri : string)
  (position : Position) : CompletionList :=
  match documents !! uri with
  | None => {| isIncomplete := false; items := [] |}
  | Some document =>
      {| isIncomplete := false; items := keywordItems ++ fieldItems |}
  end.

(** [Hover.contents] *)
Definition Hover := list jsstring.

Definition getWordAtOffset (text : jsstring) (offset : Z) : option jsstring :=
  match find (fun m => let start := fst m in
                       let end' := start + len (snd m) in
                       (start <=? offset) && (offset <=? end'))
             (execAll bounded_word text) with
  | Some m => Some (snd m)
  | None => None
  end.

(** The [switch] of [hover]; [None] when no [case] applies. *)
Definition keywordHover (upper : jsstring) : option Hover :=
  if str_eqb upper (str "INDEX") then
    Some [str "INDEX statement"; str "Specifies the index to query from"]
  else if str_eqb upper (str "FILTER") then
    Some [str "FILTER operation"; str "Filters and transforms the result set"]
  else if str_eqb upper (str "MAP") then
    Some [str "MAP function"; str "Transforms data using a mapping expression"]
  else if str_eqb upper (str "AS") then
    Some [str "AS clause"; str "Assigns an alias to the result set"]
  else if str_eqb upper (str "SQL") then
    Some [str "SQL operation"; str "Performs SQL operations on the data"]
  else if str_eqb upper (str "JOIN") then
    Some [str "JOIN function"; str "Joins two result sets based on conditions"]
  else if str_eqb upper (str "NOT") then
    Some [str "NOT operator"; str "Negates a condition"]
  else None.

Definition fallbackHover : Hover := [str "Echo Query Language"].

Record SymbolInformation := {
  name : jsstring;
  symbolKind : Z;
  location_uri : string;
  location_range : Range
}.

(** The field [kind] of a [SymbolInformation] is a [SymbolKind] of the
    language-server protocol: one of the 26 numeric constants that
    vscode-languageserver-types, the library the server imports
    [SymbolInformation] from, declares under these names. *)
Definition SymbolKind : list (string * Z) :=
  [("File", 1); ("Module", 2); ("Namespace", 3); ("Package", 4);
   ("Class", 5); ("Method", 6); ("Property", 7); ("Field", 8);
   ("Constructor", 9); ("Enum", 10); ("Interface", 11); ("Function", 12);
   ("Variable", 13); ("Constant", 14); ("String", 15); ("Number", 16);
   ("Boolean", 17); ("Array", 18); ("Object", 19); ("Key", 20);
   ("Null", 21); ("EnumMember", 22); ("Struct", 23); ("Event", 24);
   ("Operator", 25); ("TypeParameter", 26)]%string.

(** The constant declared under a name, and the name of a constant. *)
Definition kind_named (n : string) : option Z :=
  option_map snd (List.find (fun e => String.eqb (fst e) n) SymbolKind).

Definition kind_name (k : Z) : option string :=
  option_map fst (List.find (fun e => snd e =? k) SymbolKind).

Record TextEdit := { edit_range : Range; newText : jsstring }.

(** The [line.replace(...).replace(...).replace(...).trim()] chain of
    [format], pass by pass. *)
Definition uppercaseKeywords (line : jsstring) : jsstring :=
  replace keywordPattern toUpperCase line.

Definition is_bracket (c : ascii) : bool :=
  existsb (char_eqb c) (str ",(){}").

(** [.replace(/([,(){}])/g, '$1 ')] *)
Fixpoint spaceAfterBrackets (line : jsstring) : jsstring :=
  match line with
  | [] => []
  | c :: rest =>
      if is_bracket c then c :: " "%char :: spaceAfterBrackets rest
      else c :: spaceAfterBrackets rest
  end.

(** [.replace(/\s+/g, ' ')]; [insp] records that the previous character
    belonged to the run being replaced. *)
Fixpoint collapse_from (insp : bool) (line : jsstring) : jsstring :=
  match line with
  | [] => []
  | c :: rest =>
      if is_space c then
        if insp then collapse_from true rest
        else " "%char :: collapse_from true rest
      else c :: collapse_from false rest
  end.

Definition collapseSpaces (line : jsstring) : jsstring := collapse_from false line.

Definition formatLine (line : jsstring) : jsstring :=
  trim (collapseSpaces (spaceAfterBrackets (uppercaseKeywords line))).

Definition formatText (text : jsstring) : jsstring :=
  join [LF] (map formatLine (split LF text)).

Section Handlers.

(** [TextDocument.offsetAt] and [TextDocument.getText(range)] belong to the
    text-document library. *)
Variable offsetAt : TextDocument -> Position -> Z.
Variable getTextIn : TextDocument -> Range -> jsstring.

Definition hover (documents : gmap string TextDocument) (uri : string)
  (position : Position) : option Hover :=
  match documents !! uri with
  | None => None
  | Some document =>
      let offset := offsetAt document position in
      let text := getText document in
      let word := getWordAtOffset text offset in
      let found :=
        match word with
        | Some w =>
            if negb (str_eqb w []) then keywordHover (toUpperCase w) else None
        | None => None
        end in
      match found with
      | Some contents => Some contents
      | None => Some fallbackHover
      end
  end.

Definition format (documents : gmap string TextDocument) (uri : string)
  (range : Range) : list TextEdit :=
  match documents !! uri with
  | None => []
  | Some document =>
      let text := getTextIn document range in
      [{| edit_range := range; newText := formatText text |}]
  end.

End Handlers.

Definition keywordSymbol (docUri : string) (line : jsstring) (i : Z)
  (keyword : jsstring) : SymbolInformation :=
  {| name := keyword;
     symbolKind := 14;
     location_uri := docUri;
     location_range :=
       {| start := {| line := i; character := indexOf line keyword |};
          end_ := {| line := i;
                     character := indexOf line keyword + len keyword |} |} |}.

Definition fieldSymbol (docUri : string) (line : jsstring) (i : Z)
  (field : jsstring) : SymbolInformation :=
  {| name := field;
     symbolKind := 7;
     location_uri := docUri;
     location_range :=
       {| start := {| line := i; character := indexOf line field |};
          end_ := {| line := i;
                     character := indexOf line field + len field |} |} |}.

(** The body of the [lines.forEach] callback of [findDocumentSymbols]. *)
Definition lineSymbols (docUri : string) (line : jsstring) (i : Z)
  : list SymbolInformation :=
  map (keywordSymbol docUri line i) (matchAll keywordPattern line)
  ++ map (fieldSymbol docUri line i) (matchAll fieldPattern line).

Definition findDocumentSymbols (documents : gmap string TextDocument)
  (docUri : string) : list SymbolInformation :=
  match documents !! docUri with
  | None => []
  | Some document =>
      forEach (lineSymbols (uri document)) (split LF (getText document))
  end.

(** ** The document session

    The server object with the part of the runtime it talks to: the table of
    armed timeouts, a clock in milliseconds and the notifications sent so
    far.  [validated] is a trace of the calls of [doValidate]. *)

Record Timer := {
  timer_id : nat;
  due : Z;
  timer_doc : TextDocument   (* the document captured by the callback *)
}.

Record Server := {
  documents : gmap string TextDocument;
  pendingValidationRequests : gmap string nat;
  timers : list Timer;
  next_timer : nat;
  now : Z;
  sent : list PublishDiagnostics;
  validated : list TextDocument
}.

Definition initial : Server :=
  {| documents := ∅; pendingValidationRequests := ∅; timers := [];
     next_timer := O; now := 0; sent := []; validated := [] |}.

Definition clearTimeout (request : nat) (s : Server) : Server :=
  {| documents := documents s;
     pendingValidationRequests := pendingValidationRequests s;
     timers := List.filter (fun t => negb (Nat.eqb (timer_id t) request)) (timers s);
     next_timer := next_timer s; now := now s; sent := sent s;
     validated := validated s |}.

(** [setTimeout(callback, delay)]: arms a timeout and returns its handle. *)
Definition setTimeout (doc : TextDocument) (delay : Z) (s : Server)
  : nat * Server :=
  (next_timer s,
   {| documents := documents s;
      pendingValidationRequests := pendingValidationRequests s;
      timers := timers s ++ [{| timer_id := next_timer s;
                                due := now s + delay;
                                timer_doc := doc |}];
      next_timer := S (next_timer s); now := now s; sent := sent s;
      validated := validated s |}).

Definition set_pending (m : gmap string nat) (s : Server) : Server :=
  {| documents := documents s; pendingValidationRequests := m;
     timers := timers s; next_timer := next_timer s; now := now s;
     sent := sent s; validated := validated s |}.

Definition set_documents (d : gmap string TextDocument) (s : Server) : Server :=
  {| documents := d; pendingValidationRequests := pendingValidationRequests s;
     timers := timers s; next_timer := next_timer s; now := now s;
     sent := sent s; validated := validated s |}.

Definition sendNotification (n : PublishDiagnostics) (s : Server) : Server :=
  {| documents := documents s;
     pendingValidationRequests := pendingValidationRequests s;
     timers := timers s; next_timer := next_timer s; now := now s;
     sent := sent s ++ [n]; validated := validated s |}.

Definition trace_validation (doc : TextDocument) (s : Server) : Server :=
  {| documents := documents s;
     pendingValidationRequests := pendingValidationRequests s;
     timers := timers s; next_timer := next_timer s; now := now s;
     sent := sent s; validated := validated s ++ [doc] |}.

Definition cleanPendingValidation (textDocument : TextDocument) (s : Server)
  : Server :=
  match pendingValidationRequests s !! uri textDocument with
  | Some request =>
      let s' := clearTimeout request s in
      set_pending (delete (uri textDocument) (pendingValidationRequests s')) s'
  | None => s
  end.

Definition cleanDiagnostics (textDocument : TextDocument) (s : Server) : Server :=
  sendNotification {| pd_uri := uri textDocument; pd_diagnostics := [] |} s.

(** Session events: a call of one of the two listeners registered in the
    constructor, or the passing of [ms] milliseconds. *)
Inductive Event :=
| DidChangeContent (document : TextDocument)
| DidClose (document : TextDocument)
| Elapse (ms : nat).

Section Session.

(** The variant-specific parts: the diagnostics [doValidate] computes and
    the way [validate] schedules it. *)
Variable diagnosticsOf : jsstring -> list Diagnostic.

Definition doValidate (textDocument : TextDocument) (s : Server) : Server :=
  sendNotification
    {| pd_uri := uri textDocument;
       pd_diagnostics := diagnosticsOf (getText textDocument) |}
    (trace_validation textDocument s).

(** The callback handed to [setTimeout] by the debouncing [validate]. *)
Definition timeoutCallback (textDocument : TextDocument) (s : Server) : Server :=
  doValidate textDocument
    (set_pending (delete (uri textDocument) (pendingValidationRequests s)) s).

Definition is_due (t : Z) (tm : Timer) : bool := due tm <=? t.

(** The event loop at the current instant: expired timeouts leave the table
    and their callbacks run, oldest first. *)
Definition run_due (s : Server) : Server :=
  fold_left (fun s' tm => timeoutCallback (timer_doc tm) s')
    (List.filter (is_due (now s)) (timers s))
    {| documents := documents s;
       pendingValidationRequests := pendingValidationRequests s;
       timers := List.filter (fun tm => negb (is_due (now s) tm)) (timers s);
       next_timer := next_timer s; now := now s; sent := sent s;
       validated := validated s |}.

Definition tick (s : Server) : Server :=
  run_due
    {| documents := documents s;
       pendingValidationRequests := pendingValidationRequests s;
       timers := timers s; next_timer := next_timer s; now := now s + 1;
       sent := sent s; validated := validated s |}.

Fixpoint elapse (ms : nat) (s : Server) : Server :=
  match ms with
  | O => s
  | S k => elapse k (tick s)
  end.

Variable validate : TextDocument -> Server -> Server.

(** The listener of [documents.onDidChangeContent]: the document manager
    holds the new content when it calls the listener. *)
Definition onDidChangeContent (document : TextDocument) (s : Server) : Server :=
  validate document
    (set_documents (<[uri document := document]> (documents s)) s).

(** The listener of [documents.onDidClose]: the manager has dropped the
    document. *)
Definition onDidClose (document : TextDocument) (s : Server) : Server :=
  cleanDiagnostics document
    (cleanPendingValidation document
       (set_documents (delete (uri document) (documents s)) s)).

Definition step (s : Server) (e : Event) : Server :=
  match e with
  | DidChangeContent document => onDidChangeContent document s
  | DidClose document => onDidClose document s
  | Elapse ms => elapse ms s
  end.

Definition run (s : Server) (events : list Event) : Server :=
  fold_left step events s.

End Session.

Module DebouncedSession.

Definition doValidate := doValidate Debounced.diagnosticsOf.

(** [validate] of src/unnamed/part_003. *)
Definition validate (textDocument : TextDocument) (s : Server) : Server :=
  let s1 := cleanPendingValidation textDocument s in
  let '(request, s2) := setTimeout textDocument 500 s1 in
  set_pending (<[uri textDocument := request]> (pendingValidationRequests s2)) s2.

Definition step := step Debounced.diagnosticsOf validate.
Definition run := run Debounced.diagnosticsOf validate.
Definition elapse := elapse Debounced.diagnosticsOf.
Definition onDidChangeContent := onDidChangeContent validate.

End DebouncedSession.

Module ImmediateSession.

Definition doValidate := doValidate Immediate.diagnosticsOf.

(** [validate] of src/unnamed/part_001. *)
Definition validate (textDocument : TextDocument) (s : Server) : Server :=
  doValidate textDocument (cleanPendingValidation textDocument s).

Definition step := step Immediate.diagnosticsOf validate.
Definition run := run Immediate.diagnosticsOf validate.
Definition elapse := elapse Immediate.diagnosticsOf.
Definition onDidChangeContent := onDidChangeContent validate.

End ImmediateSession.

(** The armed timeouts whose callback validates a document of [u]. *)
Definition timers_for (u : string) (s : Server) : list Timer :=
  List.filter (fun tm => String.eqb (uri (timer_doc tm)) u) (timers s).

Definition validated_for (u : string) (s : Server) : list TextDocument :=
  List.filter (fun d => String.eqb (uri d) u) (validated s).

Definition sent_for (u : string) (s : Server) : list PublishDiagnostics :=
  List.filter (fun n => String.eqb (pd_uri n) u) (sent s).

(** ** Vocabulary of the specification *)

Definition cons_head (c : ascii) (pieces : list jsstring) : list jsstring :=
  match pieces with
  | piece :: rest => (c :: piece) :: rest
  | [] => [[c]]
  end.

(** The white-space delimited tokens of a line: its maximal runs of
    characters other than white space. *)
Fixpoint tokens (s : jsstring) : list jsstring :=
  match s with
  | [] => []
  | c :: s' =>
      if is_space c then tokens s'
      else match s' with
           | [] => [[c]]
           | d :: _ => if is_space d then [c] :: tokens s'
                       else cons_head c (tokens s')
           end
  end.

(** The statement keyword: the first white-space delimited token, in upper
    case. *)
Definition statementKeyword (l : jsstring) : jsstring :=
  toUpperCase (hd [] (tokens l)).

Definition blank (l : jsstring) : bool := forallb is_space l.

Definition comment (l : jsstring) : bool := startsWith (str "//") (trim l).

Definition diag (sev lineIndex endCharacter : Z) (msg : jsstring) : Diagnostic :=
  {| severity := sev; range := line_range lineIndex endCharacter;
     message := msg; source := src_echo_query |}.

(** Selects the diagnostics of line [i] that carry the message [msg]. *)
Definition reports (msg : jsstring) (i : Z) (d : Diagnostic) : bool :=
  str_eqb (message d) msg && (line (start (range d)) =? i).

(** The shape every diagnostic of line [j] has. *)
Definition well_formed (j : Z) (d : Diagnostic) : Prop :=
  line (start (range d)) = j /\ line (end_ (range d)) = j
  /\ character (start (range d)) = 0
  /\ character (start (range d)) <= character (end_ (range d))
  /\ source d = src_echo_query
  /\ ((severity d = Warning /\ message d = msg_map_shape)
      \/ (severity d = Error /\ message d <> msg_map_shape)).

Definition has_message (msg : jsstring) (d : Diagnostic) : bool :=
  str_eqb (message d) msg.

Definition nonempty (part : jsstring) : bool := 0 <? len part.

Definition space_free (s : jsstring) : bool :=
  forallb (fun c => negb (is_space c)) s.

Definition has_char (sep : ascii) (s : jsstring) : bool :=
  existsb (fun c => char_eqb c sep) s.

(** The condition of the rule, in the vocabulary of the specification. *)
Definition index_without_name (l : jsstring) : bool :=
  str_eqb (statementKeyword l) (str "INDEX") && (length (tokens l) <? 2)%nat.

(** ** Invariants of the session *)

(** The bookkeeping invariant of the debouncing session: every armed
    timeout is the one registered for the URI of its document, handles are
    not reused, and an armed timeout lies in the future. *)
Record consistent (s : Server) : Prop := {
  registered :
    forall tm, In tm (timers s) ->
      pendingValidationRequests s !! uri (timer_doc tm) = Some (timer_id tm);
  handles_distinct : List.NoDup (map timer_id (timers s));
  handles_fresh :
    forall tm, In tm (timers s) -> (timer_id tm < next_timer s)%nat;
  armed_later : forall tm, In tm (timers s) -> now s < due tm
}.

(** The document captured by an armed timeout is the document currently
    held for its URI: a callback that reads the captured object when it
    fires validates the current text. *)
Definition captures_current (s : Server) : Prop :=
  forall tm, In tm (timers s) ->
    documents s !! uri (timer_doc tm) = Some (timer_doc tm).

Definition notification_of (diagnosticsOf : jsstring -> list Diagnostic)
  (d : TextDocument) : PublishDiagnostics :=
  {| pd_uri := uri d; pd_diagnostics := diagnosticsOf (getText d) |}.

(** The registrations left after the callbacks of [fired] have run. *)
Definition forget (m : gmap string nat) (fired : list Timer) : gmap string nat :=
  fold_left (fun m' tm => delete (uri (timer_doc tm)) m') fired m.

(** The timeouts that expire at the next millisecond. *)
Definition due_now (s : Server) : list Timer :=
  List.filter (is_due (now s + 1)) (timers s).

(** ** Words

    [all_word w]: [w] is a run of [\w] characters; [starts_nonword rest]:
    the run cannot be extended into [rest]. *)

Definition all_word (w : jsstring) : bool := forallb is_word w.

Definition starts_nonword (rest : jsstring) : bool :=
  negb (is_word_opt (hd_error rest)).

(** Some [\w] character of [s] starts or ends at [offset], when the first
    character of [s] sits at position [pos]: the cursor is inside a word or
    on one of its two boundaries. *)
Fixpoint touches_word (pos : Z) (s : jsstring) (offset : Z) : bool :=
  match s with
  | [] => false
  | c :: s' =>
      (is_word c && (pos <=? offset) && (offset <=? pos + 1))
      || touches_word (pos + 1) s' offset
  end.

(** The test of the loop of [getWordAtOffset]. *)
Definition covers (offset : Z) (m : Z * jsstring) : bool :=
  (fst m <=? offset) && (offset <=? fst m + len (snd m)).

(** [w] is one of the seven keywords, in any letter case. *)
Definition is_keyword (w : jsstring) : bool :=
  arr_includes keywords (toUpperCase w).

(** What [uppercaseKeywords] does to a maximal run of word characters. *)
Definition upcase_word (w : jsstring) : jsstring :=
  if is_keyword w then toUpperCase w else w.

(** An alternative made of word characters only. *)
Definition word_alt (alt : jsstring) : bool :=
  all_word alt && negb (str_eqb alt []).

(** The scan of [uppercaseKeywords] from an arbitrary scanning state. *)
Abbreviation upcase_from := (replace_from keywordPattern toUpperCase).

(** ** Occurrences

    Every position of [s] at which the pattern matches, in order, with the
    text matched there; [pos] is the position of the first character of
    [s]. *)
Fixpoint occurrences_from (m : matcher) (pos : Z) (prev : option ascii)
  (s : jsstring) : list (Z * jsstring) :=
  match s with
  | [] => []
  | c :: s' =>
      match m prev s with
      | Some (S n) =>
          (pos, firstn (S n) s) :: occurrences_from m (pos + 1) (Some c) s'
      | _ => occurrences_from m (pos + 1) (Some c) s'
      end
  end.

Definition occurrences (m : matcher) (s : jsstring) : list (Z * jsstring) :=
  occurrences_from m 0 None s.

(** The pattern matches at none of the next [k] positions. *)
Fixpoint blocked (m : matcher) (prev : option ascii) (k : nat) (s : jsstring)
  : Prop :=
  match k, s with
  | S k', c :: s' => m prev s = None /\ blocked m (Some c) k' s'
  | _, _ => True
  end.

(** No match of the pattern starts inside another one. *)
Definition non_overlapping (m : matcher) : Prop :=
  forall prev c s' n, m prev (c :: s') = Some (S n) -> blocked m (Some c) n s'.

(** [x] stands in [s] at position [p] as a whole word: it is neither
    preceded nor followed by a word character. *)
Definition whole_word (s : jsstring) (p : Z) (x : jsstring) : Prop :=
  exists pre post,
    s = pre ++ x ++ post /\ len pre = p
    /\ is_word_opt (last pre) = false /\ starts_nonword post = true.

(** The symbols of one line, by occurrences. *)
Definition symbolsByOccurrence (docUri : string) (line : jsstring) (i : Z)
  : list SymbolInformation :=
  map (keywordSymbol docUri line i) (map snd (occurrences keywordPattern line))
  ++ map (fieldSymbol docUri line i) (map snd (occurrences fieldPattern line)).

(** ** Further vocabulary of the validator *)

(** The line a diagnostic is attached to. *)
Definition line_of (d : Diagnostic) : Z := line (start (range d)).

(** The diagnostic [d], [k] lines further down. *)
Definition shift_lines (k : Z) (d : Diagnostic) : Diagnostic :=
  {| severity := severity d;
     range :=
       {| start := {| line := line (start (range d)) + k;
                      character := character (start (range d)) |};
          end_ := {| line := line (end_ (range d)) + k;
                     character := character (end_ (range d)) |} |};
     message := message d;
     source := source d |}.

Fixpoint nondecreasing (zs : list Z) : bool :=
  match zs with
  | a :: (b :: _) as rest => (a <=? b) && nondecreasing rest
  | _ => true
  end.

(** The only white-space character of [s] is the space. *)
Definition spaces_only (s : jsstring) : bool :=
  forallb (fun c => negb (is_space c) || char_eqb c " ") s.

(** None of the characters [>], [<] and [=] occurs in [l]. *)
Definition comparison_free (l : jsstring) : bool :=
  negb (has_char ">" l || has_char "<" l || has_char "=" l).

(** The diagnostics attached to line [i]. *)
Definition on_line (i : Z) (d : Diagnostic) : bool := line_of d =? i.

(** The diagnostics of the rules on the statement: all but the one on
    quotes. *)
Definition statement_rules (d : Diagnostic) : bool :=
  negb (has_message msg_unmatched_quotes d).

(** Neither the substring [AS] nor a dot occurs in [l]. *)
Definition map_shapeless (l : jsstring) : bool :=
  negb (includes (str "AS") l) && negb (has_char "." l).

(** ** Further vocabulary of the session *)

(** The notification that clears the diagnostics of a document. *)
Definition cleared (u : string) : PublishDiagnostics :=
  {| pd_uri := u; pd_diagnostics := [] |}.

Definition is_change (e : Event) : bool :=
  match e with DidChangeContent _ => true | _ => false end.

Definition is_close (e : Event) : bool :=
  match e with DidClose _ => true | _ => false end.

(** The number of calls of the change listener, and of the close listener,
    among the events. *)
Definition changes (events : list Event) : nat :=
  length (List.filter is_change events).

Definition closes (events : list Event) : nat :=
  length (List.filter is_close events).

(** Every registered handle is the handle of a timeout that is armed for
    the URI it is registered for. *)
Definition registered_armed (s : Server) : Prop :=
  forall u r, pendingValidationRequests s !! u = Some r ->
    exists tm, In tm (timers s) /\ timer_id tm = r /\ uri (timer_doc tm) = u.

(** The document a notification from the client is about. *)
Definition event_uri (e : Event) : option string :=
  match e with
  | DidChangeContent document => Some (uri document)
  | DidClose document => Some (uri document)
  | Elapse _ => None
  end.

(** ** The variant without checks (src/unnamed/part_002)

    A third copy of the class debounces like the one of src/unnamed/part_003,
    but its [doValidate] publishes an empty list without reading the text. *)

Module Unchecked.

Definition diagnosticsOf (text : jsstring) : list Diagnostic := [].

End Unchecked.

Module UncheckedSession.

Definition doValidate := doValidate Unchecked.diagnosticsOf.

Definition validate (textDocument : TextDocument) (s : Server) : Server :=
  let s1 := cleanPendingValidation textDocument s in
  let '(request, s2) := setTimeout textDocument 500 s1 in
  set_pending (<[uri textDocument := request]> (pendingValidationRequests s2)) s2.

Definition step := step Unchecked.diagnosticsOf validate.
Definition run := run Unchecked.diagnosticsOf validate.

End UncheckedSession.

(** ** Further vocabulary of the formatter *)

(** The visible characters of a text: all but white space. *)
Definition visible (s : jsstring) : jsstring :=
  List.filter (fun c => negb (is_space c)) s.

(** Every two neighbouring characters of [s] satisfy [ok]. *)
Fixpoint adjacent (ok : ascii -> ascii -> bool) (s : jsstring) : bool :=
  match s with
  | c :: (d :: _) as rest => ok c d && adjacent ok rest
  | _ => true
  end.

(** No two white-space characters in a row. *)
Definition single_spaced (s : jsstring) : bool :=
  adjacent (fun c d => negb (is_space c && is_space d)) s.

(** Each of [, ( ) { }] is followed by a space, unless it ends the line. *)
Definition brackets_spaced (s : jsstring) : bool :=
  adjacent (fun c d => negb (is_bracket c) || char_eqb d " ") s.

(** ** Further vocabulary of the symbols *)

(** [s.substring(from, to)] for [0 <= from <= to <= s.length]. *)
Definition substring (s : jsstring) (from to : Z) : jsstring :=
  firstn (Z.to_nat (to - from)) (skipn (Z.to_nat from) s).

Definition symbol_line (sym : SymbolInformation) : Z :=
  line (start (location_range sym)).

(** ** Resolving a completion item

    The item of a [completionItem/resolve] request is an item of an earlier
    completion list as the client sends it back: a label, and possibly a
    kind, which may be one the server never produces, a detail and a
    documentation. *)

Inductive ItemKind :=
| KindOf (k : CompletionItemKind)
| OtherKind
| NoKind.

Record ResolveItem := {
  item_label : jsstring;
  item_kind : ItemKind;
  item_detail : option jsstring;
  item_documentation : option jsstring
}.

Definition resolveCompletion (item : ResolveItem) : ResolveItem :=
  match item_kind item with
  | KindOf Keyword =>
      {| item_label := item_label item;
         item_kind := item_kind item;
         item_detail := Some (str "Echo Query Keyword");
         item_documentation :=
           Some (str "Echo Query language keyword for query construction") |}
  | KindOf Field =>
      {| item_label := item_label item;
         item_kind := item_kind item;
         item_detail := Some (str "Field Path");
         item_documentation := Some (str "Field path for data access") |}
  | _ => item
  end.

(** An item of the completion list, as it comes back to be resolved. *)
Definition returned (item : CompletionItem) : ResolveItem :=
  {| item_label := label item;
     item_kind := KindOf (kind item);
     item_detail := Some (detail item);
     item_documentation := Some (documentation item) |}.

(** ** The editor client (src/unnamed/part_001, lines 1 to 158)

    The page that hosts the Monaco editor and talks to the server over a
    WebSocket.  The state holds the four module variables of the script and
    the part of the page and of the runtime they interact with: the sockets
    created so far (a socket is named by its rank of creation), the messages
    sent and the socket each was sent on, the armed reconnection timeouts, a
    clock in milliseconds that also answers [Date.now()], the text of the
    editor and the markers of its model.  The handlers installed on every
    socket are the same closures over the module variables. *)

Module Client.

(** [monaco.MarkerSeverity] *)
Inductive MarkerSeverity := Hint | Info | Warning | Error.

Record Marker := {
  marker_severity : MarkerSeverity;
  marker_message : jsstring;
  startLineNumber : Z;
  startColumn : Z;
  endLineNumber : Z;
  endColumn : Z
}.

(** The callback of [diagnostics.map] in the message handler. *)
Definition toMarker (d : Diagnostic) : Marker :=
  {| marker_severity := if severity d =? 1 then Error else Warning;
     marker_message := message d;
     startLineNumber := line (start (range d)) + 1;
     startColumn := character (start (range d)) + 1;
     endLineNumber := line (end_ (range d)) + 1;
     endColumn := character (end_ (range d)) + 1 |}.

(** The messages the client sends. *)
Inductive ClientMessage :=
| InitializeRequest (id : Z)
| InitializedNotification
| DidChangeNotification (docUri : string) (version : Z) (text : jsstring).

(** A message of the server once parsed: its [id] when it is a number, its
    [method], and the [params.diagnostics] of a message whose method is
    [textDocument/publishDiagnostics]. *)
Record ServerMessage := {
  msg_id : option Z;
  msg_method : option jsstring;
  msg_diagnostics : list Diagnostic
}.

Record State := {
  initialized : bool;
  nextRequestId : Z;
  ws : option nat;
  reconnectAttempts : Z;
  sockets : nat;
  reconnects : list Z;          (* when the armed timeouts expire *)
  clock : Z;
  outbox : list (nat * ClientMessage);
  value : jsstring;             (* [editor.getValue()] *)
  markers : option (list Marker)
    (* the markers of owner [echo-query] on the model of the editor *)
}.

Definition MAX_RECONNECT_ATTEMPTS : Z := 5.
Definition RECONNECT_INTERVAL : Z := 1000.

Definition documentUri : string := "file:///workspace/query.echo".

(** The module variables as the script initialises them, before its last
    statement calls [connectToServer]. *)
Definition loaded (t0 : Z) : State :=
  {| initialized := false; nextRequestId := 1; ws := None;
     reconnectAttempts := 0; sockets := O; reconnects := []; clock := t0;
     outbox := [];
     value := str "// Type your Echo Query here" ++ [LF] ++ str "INDEX users"
              ++ [LF] ++ str "FILTER age > 25";
     markers := Some [] |}.

Definition connectToServer (s : State) : State :=
  if MAX_RECONNECT_ATTEMPTS <=? reconnectAttempts s then s
  else
    {| initialized := initialized s; nextRequestId := nextRequestId s;
       ws := Some (sockets s);
       reconnectAttempts := reconnectAttempts s;
       sockets := S (sockets s); reconnects := reconnects s;
       clock := clock s; outbox := outbox s; value := value s;
       markers := markers s |}.

Definition start (t0 : Z) : State := connectToServer (loaded t0).

(** [ws?.send(JSON.stringify(m))] *)
Definition send (m : ClientMessage) (s : State) : State :=
  match ws s with
  | Some socket =>
      {| initialized := initialized s; nextRequestId := nextRequestId s;
         ws := ws s; reconnectAttempts := reconnectAttempts s;
         sockets := sockets s; reconnects := reconnects s; clock := clock s;
         outbox := outbox s ++ [(socket, m)]; value := value s;
         markers := markers s |}
  | None => s
  end.

Definition sendDocumentChange (s : State) : State :=
  if negb (initialized s)
     || match ws s with Some _ => false | None => true end then s
  else send (DidChangeNotification documentUri (clock s) (value s)) s.

Definition onopen (s : State) : State :=
  send (InitializeRequest (nextRequestId s))
    {| initialized := initialized s; nextRequestId := nextRequestId s + 1;
       ws := ws s; reconnectAttempts := 0;
       sockets := sockets s; reconnects := reconnects s; clock := clock s;
       outbox := outbox s; value := value s; markers := markers s |}.

Definition onerror (s : State) : State := s.

Definition onclose (s : State) : State :=
  {| initialized := false; nextRequestId := nextRequestId s;
     ws := None; reconnectAttempts := reconnectAttempts s + 1;
     sockets := sockets s;
     reconnects := reconnects s ++ [clock s + RECONNECT_INTERVAL];
     clock := clock s; outbox := outbox s; value := value s;
     markers := markers s |}.

Definition answers_initialize (message : ServerMessage) : bool :=
  match msg_id message with
  | Some id => id =? 1
  | None => false
  end.

Definition publishes (message : ServerMessage) : bool :=
  match msg_method message with
  | Some method => str_eqb method (str "textDocument/publishDiagnostics")
  | None => false
  end.

Definition setModelMarkers (ms : list Marker) (s : State) : State :=
  {| initialized := initialized s; nextRequestId := nextRequestId s;
     ws := ws s; reconnectAttempts := reconnectAttempts s;
     sockets := sockets s; reconnects := reconnects s; clock := clock s;
     outbox := outbox s; value := value s; markers := Some ms |}.

Definition onmessage (message : ServerMessage) (s : State) : State :=
  let s1 :=
    if negb (initialized s) && answers_initialize message then
      sendDocumentChange
        (send InitializedNotification
           {| initialized := true; nextRequestId := nextRequestId s;
              ws := ws s; reconnectAttempts := reconnectAttempts s;
              sockets := sockets s; reconnects := reconnects s;
              clock := clock s; outbox := outbox s; value := value s;
              markers := markers s |})
    else s in
  if publishes message then
    match markers s1 with
    | Some _ => setModelMarkers (map toMarker (msg_diagnostics message)) s1
    | None => s1
    end
  else s1.

(** The listener of [editor.onDidChangeModelContent]: the editor holds the
    new text when it calls the listener. *)
Definition onDidChangeModelContent (content : jsstring) (s : State) : State :=
  sendDocumentChange
    {| initialized := initialized s; nextRequestId := nextRequestId s;
       ws := ws s; reconnectAttempts := reconnectAttempts s;
       sockets := sockets s; reconnects := reconnects s; clock := clock s;
       outbox := outbox s; value := content; markers := markers s |}.

(** One millisecond passes: the expired timeouts leave the table and each
    runs [connectToServer]. *)
Definition tick (s : State) : State :=
  let t := clock s + 1 in
  fold_left (fun s' _ => connectToServer s')
    (List.filter (fun due => due <=? t) (reconnects s))
    {| initialized := initialized s; nextRequestId := nextRequestId s;
       ws := ws s; reconnectAttempts := reconnectAttempts s;
       sockets := sockets s;
       reconnects := List.filter (fun due => negb (due <=? t)) (reconnects s);
       clock := t; outbox := outbox s; value := value s;
       markers := markers s |}.

Fixpoint wait (ms : nat) (s : State) : State :=
  match ms with
  | O => s
  | S k => wait k (tick s)
  end.

(** What happens to the page: an event of a socket, an edit, or the
    passing of time. *)
Inductive Event :=
| Open
| SocketError
| Close
| Message (message : ServerMessage)
| ContentChanged (content : jsstring)
| Wait (ms : nat).

Definition step (s : State) (e : Event) : State :=
  match e with
  | Open => onopen s
  | SocketError => onerror s
  | Close => onclose s
  | Message message => onmessage message s
  | ContentChanged content => onDidChangeModelContent content s
  | Wait ms => wait ms s
  end.

Definition run (s : State) (events : list Event) : State :=
  fold_left step events s.

(** Vocabulary for the properties of the client. *)

Definition is_open (e : Event) : bool :=
  match e with Open => true | _ => false end.

(** The number of times a socket opened. *)
Definition opens (events : list Event) : nat :=
  length (List.filter is_open events).

(** A message that the client takes for the answer to its first request. *)
Definition taken_for_answer (e : Event) : bool :=
  match e with Message message => answers_initialize message | _ => false end.

Definition is_didChange (m : nat * ClientMessage) : bool :=
  match snd m with DidChangeNotification _ _ _ => true | _ => false end.

Definition didChanges (out : list (nat * ClientMessage))
  : list (nat * ClientMessage) :=
  List.filter is_didChange out.

Fixpoint initialize_ids (out : list (nat * ClientMessage)) : list Z :=
  match out with
  | [] => []
  | (_, InitializeRequest id) :: rest => id :: initialize_ids rest
  | _ :: rest => initialize_ids rest
  end.

Fixpoint increasing (zs : list Z) : bool :=
  match zs with
  | a :: (b :: _) as rest => (a <? b) && increasing rest
  | _ => true
  end.

(** A message that publishes diagnostics. *)
Definition is_publication (e : Event) : bool :=
  match e with Message message => publishes message | _ => false end.

End Client.

(** ** Up-to-date diagnostics *)

(** The event is a call of a listener for the document of URI [u]. *)
Definition concerns (u : string) (e : Event) : bool :=
  match event_uri e with
  | Some v => String.eqb v u
  | None => false
  end.

(** Some listener was called for the URI [u]. *)
Definition concerned (u : string) (events : list Event) : bool :=
  existsb (concerns u) events.

(** The diagnostics of the URI [u] are settled: no validation of [u] is
    pending, and the last notification published for [u] carries the
    diagnostics of the text the server holds for [u].  When the server
    holds no document for [u], the last notification published for [u] is
    the empty list that clears its diagnostics if a listener was ever called
    for [u] ([touched]), and nothing was published for [u] otherwise. *)
Definition settled (diagnosticsOf : jsstring -> list Diagnostic) (u : string)
  (touched : bool) (s : Server) : Prop :=
  timers_for u s = []
  /\ match documents s !! u with
     | Some d => last (sent_for u s) = Some (notification_of diagnosticsOf d)
     | None =>
         if touched then last (sent_for u s) = Some (cleared u)
         else sent_for u s = []
     end.

(** A validation of the text held for [u] is pending, and due within
    500 ms. *)
Definition scheduled (u : string) (s : Server) : Prop :=
  exists tm d,
    timers_for u s = [tm] /\ documents s !! u = Some d /\ timer_doc tm = d
    /\ uri d = u /\ now s < due tm <= now s + 500.

(** The lines on which [diagnostics] reports unmatched quotes, in the order
    of the list. *)
Definition quote_lines (diagnostics : list Diagnostic) : list Z :=
  map line_of (List.filter (has_message msg_unmatched_quotes) diagnostics).

(** * Properties *)

(** ** Characters and strings *)

Ltac ascii_cases c :=
  destruct c as [[] [] [] [] [] [] [] []]; vm_compute; try reflexivity;
  try discriminate; auto.

Lemma word_not_space c : is_word c = true -> is_space c = false.
Proof. ascii_cases c. Qed.

Lemma space_not_word c : is_space c = true -> is_word c = false.
Proof. ascii_cases c. Qed.

Lemma is_word_upper c : is_word (upper_char c) = is_word c.
Proof. ascii_cases c. Qed.

Lemma is_space_upper c : is_space (upper_char c) = is_space c.
Proof. ascii_cases c. Qed.

Lemma upper_char_idem c : upper_char (upper_char c) = upper_char c.
Proof. ascii_cases c. Qed.

Lemma bracket_not_word c : is_bracket c = true -> is_word c = false.
Proof. ascii_cases c. Qed.

Lemma bracket_not_space c : is_bracket c = true -> is_space c = false.
Proof. ascii_cases c. Qed.

Lemma char_eqb_eq a b : char_eqb a b = true <-> a = b.
Proof. unfold char_eqb. apply Ascii.eqb_eq. Qed.

Lemma char_eqb_refl a : char_eqb a a = true.
Proof. apply char_eqb_eq. reflexivity. Qed.

Lemma str_eqb_eq a b : str_eqb a b = true <-> a = b.
Proof.
  revert b. induction a as [|x a IH]; intros [|y b]; simpl; split;
    try congruence; try discriminate.
  - intros H. apply andb_true_iff in H as [H1 H2].
    apply char_eqb_eq in H1. apply IH in H2. congruence.
  - intros H. injection H as -> ->. rewrite char_eqb_refl. simpl.
    apply IH. reflexivity.
Qed.

Lemma str_eqb_refl a : str_eqb a a = true.
Proof. apply str_eqb_eq. reflexivity. Qed.

Lemma str_eqb_neq a b : str_eqb a b = false <-> a <> b.
Proof.
  split.
  - intros H E. apply str_eqb_eq in E. congruence.
  - intros H. destruct (str_eqb a b) eqn:E; [|reflexivity].
    apply str_eqb_eq in E. contradiction.
Qed.

Lemma toUpperCase_cons c s :
  toUpperCase (c :: s) = upper_units c ++ toUpperCase s.
Proof. reflexivity. Qed.

Lemma toUpperCase_app a b : toUpperCase (a ++ b) = toUpperCase a ++ toUpperCase b.
Proof. unfold toUpperCase. apply flat_map_app. Qed.

Lemma upper_units_upper c : toUpperCase (upper_units c) = upper_units c.
Proof. ascii_cases c. Qed.

Lemma toUpperCase_idem w : toUpperCase (toUpperCase w) = toUpperCase w.
Proof.
  induction w as [|c w IH]; [reflexivity|].
  rewrite toUpperCase_cons, toUpperCase_app, upper_units_upper, IH.
  reflexivity.
Qed.

Lemma upper_units_word c : is_word c = true -> upper_units c = [upper_char c].
Proof. ascii_cases c. Qed.

(** On a run of word characters [toUpperCase] works code unit by code
    unit. *)
Lemma toUpperCase_word w :
  forallb is_word w = true -> toUpperCase w = map upper_char w.
Proof.
  induction w as [|c w IH]; [reflexivity|].
  cbn [forallb]. intros H. apply andb_true_iff in H as [Hc Hw].
  rewrite toUpperCase_cons, (upper_units_word c Hc), (IH Hw). reflexivity.
Qed.

Lemma toUpperCase_length w :
  forallb is_word w = true -> length (toUpperCase w) = length w.
Proof. intros H. rewrite (toUpperCase_word w H). apply length_map. Qed.

(** A string in which no [S] follows an [S] is the upper case of strings of
    its length only. *)
Lemma toUpperCase_without_SS t :
  includes (str "SS") (toUpperCase t) = false ->
  toUpperCase t = map upper_char t.
Proof.
  induction t as [|c t IH]; [reflexivity|].
  rewrite toUpperCase_cons. unfold upper_units.
  destruct (code c =? 223)%N; [discriminate|].
  cbn [app includes map]. intros H. apply orb_false_iff in H as [_ H].
  rewrite (IH H). reflexivity.
Qed.

Lemma is_keyword_plain w :
  is_keyword w = true -> toUpperCase w = map upper_char w.
Proof.
  unfold is_keyword, arr_includes. intros H.
  apply existsb_exists in H as (k & Hin & E). apply str_eqb_eq in E.
  apply toUpperCase_without_SS. rewrite E. simpl in Hin.
  destruct Hin as [<- | [<- | [<- | [<- | [<- | [<- | [<- | []]]]]]]];
    reflexivity.
Qed.

(** ** Iteration over the lines *)

Lemma in_forEach_from {A B : Type} (f : A -> Z -> list B) (arr : list A) :
  forall i y,
    In y (forEach_from i f arr) <->
    exists (k : nat) x, nth_error arr k = Some x /\ In y (f x (i + Z.of_nat k)).
Proof.
  induction arr as [|a arr IH]; intros i y; simpl.
  - split; [contradiction|]. intros (k & x & H & _). destruct k; discriminate.
  - rewrite in_app_iff, IH. split.
    + intros [H | (k & x & H1 & H2)].
      * exists O, a. simpl. rewrite Z.add_0_r. auto.
      * exists (S k), x. split; [exact H1|].
        replace (i + Z.of_nat (S k)) with (i + 1 + Z.of_nat k) by lia.
        assumption.
    + intros (k & x & H1 & H2). destruct k as [|k]; simpl in H1.
      * injection H1 as ->. rewrite Z.add_0_r in H2. auto.
      * right. exists k, x. split; [assumption|].
        replace (i + 1 + Z.of_nat k) with (i + Z.of_nat (S k)) by lia.
        assumption.
Qed.

Lemma filter_all_true {A : Type} (p : A -> bool) (l : list A) :
  (forall x, In x l -> p x = true) -> List.filter p l = l.
Proof.
  induction l as [|a l IH]; simpl; intros H; [reflexivity|].
  rewrite (H a) by auto. f_equal. apply IH. auto.
Qed.

Lemma filter_all_false {A : Type} (p : A -> bool) (l : list A) :
  (forall x, In x l -> p x = false) -> List.filter p l = [].
Proof.
  induction l as [|a l IH]; simpl; intros H; [reflexivity|].
  rewrite (H a) by auto. apply IH. auto.
Qed.

(** When every item produced for index [j] is tagged with [j], selecting
    the items of one index selects the output of one callback. *)
Lemma forEach_from_select {A B : Type} (f : A -> Z -> list B) (tag : B -> Z)
  (p : B -> bool) :
  (forall x j y, In y (f x j) -> tag y = j) ->
  forall arr i (k : nat) x,
    nth_error arr k = Some x ->
    List.filter (fun y => p y && (tag y =? i + Z.of_nat k)) (forEach_from i f arr)
    = List.filter p (f x (i + Z.of_nat k)).
Proof.
  intros Htag. induction arr as [|a arr IH]; intros i k x Hk.
  - destruct k; discriminate.
  - simpl. rewrite List.filter_app. destruct k as [|k]; simpl in Hk.
    + injection Hk as ->. rewrite Z.add_0_r.
      rewrite (filter_all_false _ (forEach_from (i + 1) f arr)).
      * rewrite app_nil_r. apply List.filter_ext_in. intros y Hy.
        rewrite (Htag _ _ _ Hy), Z.eqb_refl. apply andb_true_r.
      * intros y Hy. apply in_forEach_from in Hy as (k & x' & _ & Hy).
        rewrite (Htag _ _ _ Hy). apply andb_false_iff. right.
        apply Z.eqb_neq. lia.
    + rewrite (filter_all_false _ (f a i)).
      * simpl. replace (i + Z.of_nat (S k)) with (i + 1 + Z.of_nat k) by lia.
        apply IH. assumption.
      * intros y Hy. rewrite (Htag _ _ _ Hy). apply andb_false_iff. right.
        apply Z.eqb_neq. lia.
Qed.

(** ** Shape of the diagnostics *)

Lemma len_nonneg s : 0 <= len s.
Proof. unfold len. lia. Qed.

Ltac shape_cases H :=
  repeat (apply in_app_or in H as [H | H]);
  repeat match type of H with
         | In _ (if ?b then _ else _) => destruct b
         end;
  simpl in H; try contradiction; destruct H as [<- | []];
  unfold well_formed, Warning, Error; simpl;
  repeat split; try reflexivity; try apply len_nonneg;
  try (right; split; [reflexivity | discriminate]);
  try (left; split; reflexivity).

Lemma debounced_checkLine_shape l j d :
  In d (Debounced.checkLine l j) -> well_formed j d.
Proof.
  unfold Debounced.checkLine. intros H.
  destruct (skipped (trim l)); [contradiction|].
  shape_cases H.
Qed.

Lemma immediate_checkLine_shape l j d :
  In d (Immediate.checkLine l j) -> well_formed j d.
Proof.
  unfold Immediate.checkLine. intros H.
  destruct (skipped (trim l)); [contradiction|].
  shape_cases H.
  destruct (len (trim l) =? 0); [lia | apply len_nonneg].
Qed.

(** ** Trimming *)

Lemma trimStart_blank s : forallb is_space s = true -> trimStart s = [].
Proof.
  induction s as [|c s IH]; simpl; [reflexivity|].
  intros H. apply andb_true_iff in H as [-> H]. auto.
Qed.

Lemma trimStart_head s c r : trimStart s = c :: r -> is_space c = false.
Proof.
  induction s as [|a s IH]; simpl; [discriminate|].
  destruct (is_space a) eqn:E; [assumption|].
  intros H. injection H as <- _. assumption.
Qed.

Lemma trimStart_nil_blank s : trimStart s = [] -> forallb is_space s = true.
Proof.
  induction s as [|a s IH]; simpl; [reflexivity|].
  destruct (is_space a); [assumption | discriminate].
Qed.

Lemma trimEnd_nil_blank s : trimEnd s = [] -> forallb is_space s = true.
Proof.
  induction s as [|a s IH]; simpl; [reflexivity|].
  destruct (trimEnd s); [|discriminate].
  destruct (is_space a); [auto | discriminate].
Qed.

Lemma trimEnd_blank s : forallb is_space s = true -> trimEnd s = [].
Proof.
  induction s as [|a s IH]; simpl; [reflexivity|].
  intros H. apply andb_true_iff in H as [-> H]. rewrite IH; auto.
Qed.

Lemma trim_nil_iff s : trim s = [] <-> blank s = true.
Proof.
  unfold trim, blank. split.
  - intros H. apply trimEnd_nil_blank in H.
    destruct (trimStart s) as [|c r] eqn:E.
    + apply trimStart_nil_blank. assumption.
    + apply trimStart_head in E. simpl in H. rewrite E in H. discriminate.
  - intros H. rewrite trimStart_blank; auto.
Qed.

Lemma skipped_spec l : skipped (trim l) = blank l || comment l.
Proof.
  unfold skipped, comment. f_equal.
  destruct (blank l) eqn:E.
  - apply trim_nil_iff in E. rewrite E. reflexivity.
  - apply str_eqb_neq. intros H. apply trim_nil_iff in H. congruence.
Qed.

(** ** Blank and comment lines *)

Lemma debounced_checkLine_skipped l j :
  blank l || comment l = true -> Debounced.checkLine l j = [].
Proof.
  intros H. unfold Debounced.checkLine. rewrite skipped_spec, H. reflexivity.
Qed.

Lemma immediate_checkLine_skipped l j :
  blank l || comment l = true -> Immediate.checkLine l j = [].
Proof.
  intros H. unfold Immediate.checkLine. rewrite skipped_spec, H. reflexivity.
Qed.

Lemma forEach_from_nil {A B : Type} (f : A -> Z -> list B) (arr : list A) :
  (forall x j, In x arr -> f x j = []) -> forall i, forEach_from i f arr = [].
Proof.
  induction arr as [|a arr IH]; simpl; intros H i; [reflexivity|].
  rewrite (H a i) by auto. simpl. apply IH. auto.
Qed.

(** C9.  A text made only of blank lines and of comment lines (lines whose
    trimmed form starts with [//]) gets no diagnostic, in either variant of
    the validator. *)
Theorem blank_and_comment_lines_are_clean (text : jsstring) :
  (forall l, In l (split LF text) -> blank l = true \/ comment l = true) ->
  Debounced.diagnosticsOf text = [] /\ Immediate.diagnosticsOf text = [].
Proof.
  intros H. unfold Debounced.diagnosticsOf, Immediate.diagnosticsOf, forEach.
  split; apply forEach_from_nil; intros l j Hl;
    [apply debounced_checkLine_skipped | apply immediate_checkLine_skipped];
    apply orb_true_iff; auto.
Qed.

Lemma blank_and_comment_lines_are_clean_witness :
  Debounced.diagnosticsOf (str "// only a comment" ++ [LF] ++ str "   " ++ [LF]) = []
  /\ Immediate.diagnosticsOf (str "// only a comment" ++ [LF] ++ str "   " ++ [LF]) = [].
Proof.
  apply blank_and_comment_lines_are_clean.
  intros l Hl. vm_compute in Hl.
  destruct Hl as [<- | [<- | [<- | []]]]; vm_compute; auto.
Defined.

(** C10.  Every diagnostic of either variant sits on one line, the line it
    was raised for, which is neither blank nor a comment; it starts at
    column 0 and does not end before it starts; its source is
    ['Echo Query']; its severity is Error, except for the diagnostic of the
    MAP-shape rule, which is the only one of severity Warning. *)
Theorem diagnostics_are_well_formed (text : jsstring) (d : Diagnostic) :
  In d (Debounced.diagnosticsOf text) \/ In d (Immediate.diagnosticsOf text) ->
  exists (i : nat) l,
    nth_error (split LF text) i = Some l
    /\ blank l = false /\ comment l = false
    /\ well_formed (Z.of_nat i) d.
Proof.
  unfold Debounced.diagnosticsOf, Immediate.diagnosticsOf, forEach.
  intros [H | H]; apply in_forEach_from in H as (i & l & Hi & H);
    exists i, l; (split; [assumption|]); rewrite Z.add_0_l in H.
  - destruct (blank l || comment l) eqn:E.
    + rewrite debounced_checkLine_skipped in H by assumption. contradiction.
    + apply orb_false_iff in E as [-> ->].
      repeat split; apply (debounced_checkLine_shape _ _ _ H).
  - destruct (blank l || comment l) eqn:E.
    + rewrite immediate_checkLine_skipped in H by assumption. contradiction.
    + apply orb_false_iff in E as [-> ->].
      repeat split; apply (immediate_checkLine_shape _ _ _ H).
Qed.

Lemma diagnostics_are_well_formed_witness :
  exists (i : nat) l,
    nth_error (split LF (str "MAP foo")) i = Some l
    /\ blank l = false /\ comment l = false
    /\ well_formed (Z.of_nat i) (diag Warning 0 7 msg_map_shape).
Proof.
  apply diagnostics_are_well_formed. left. vm_compute. auto.
Defined.

(** ** The diagnostics of one line *)

Lemma debounced_reports text (i : nat) l msg :
  nth_error (split LF text) i = Some l ->
  List.filter (reports msg (Z.of_nat i)) (Debounced.diagnosticsOf text)
  = List.filter (has_message msg) (Debounced.checkLine l (Z.of_nat i)).
Proof.
  intros H. unfold Debounced.diagnosticsOf, forEach.
  rewrite <- (Z.add_0_l (Z.of_nat i)).
  apply (forEach_from_select Debounced.checkLine
           (fun d => line (start (range d))) (has_message msg)
           (fun x j y Hy => proj1 (debounced_checkLine_shape x j y Hy))).
  assumption.
Qed.

Lemma immediate_reports text (i : nat) l msg :
  nth_error (split LF text) i = Some l ->
  List.filter (reports msg (Z.of_nat i)) (Immediate.diagnosticsOf text)
  = List.filter (has_message msg) (Immediate.checkLine l (Z.of_nat i)).
Proof.
  intros H. unfold Immediate.diagnosticsOf, forEach.
  rewrite <- (Z.add_0_l (Z.of_nat i)).
  apply (forEach_from_select Immediate.checkLine
           (fun d => line (start (range d))) (has_message msg)
           (fun x j y Hy => proj1 (immediate_checkLine_shape x j y Hy))).
  assumption.
Qed.

Lemma count_char_trimStart c s :
  is_space c = false -> count_char c (trimStart s) = count_char c s.
Proof.
  intros Hc. unfold count_char. induction s as [|a s IH]; simpl; [reflexivity|].
  destruct (is_space a) eqn:Ea; [|reflexivity].
  destruct (char_eqb c a) eqn:E; [|assumption].
  apply char_eqb_eq in E. congruence.
Qed.

Lemma count_char_trimEnd c s :
  is_space c = false -> count_char c (trimEnd s) = count_char c s.
Proof.
  intros Hc. unfold count_char. induction s as [|a s IH]; simpl; [reflexivity|].
  assert (Ha : is_space a = true -> char_eqb c a = false).
  { intros Ha. destruct (char_eqb c a) eqn:E; [|reflexivity].
    apply char_eqb_eq in E. congruence. }
  destruct (trimEnd s) as [|b r] eqn:Er.
  - simpl in IH. destruct (is_space a) eqn:Ea.
    + rewrite Ha by reflexivity. assumption.
    + simpl. destruct (char_eqb c a); simpl; congruence.
  - simpl. simpl in IH. destruct (char_eqb c a); simpl; congruence.
Qed.

Lemma quoteCount_trim l : quoteCount (trim l) = count_char (ascii_of_N 34) l.
Proof.
  unfold quoteCount, trim.
  rewrite count_char_trimEnd, count_char_trimStart; reflexivity.
Qed.

Lemma odd_mod2 n : negb (Nat.eqb (n mod 2) 0) = Nat.odd n.
Proof.
  pose proof (Nat.div_mod_eq n 2) as D.
  pose proof (Nat.mod_upper_bound n 2 ltac:(lia)) as B.
  destruct (Nat.odd n) eqn:E.
  - apply Nat.odd_spec in E as [m Hm].
    destruct (Nat.eqb_spec (n mod 2) 0); [lia | reflexivity].
  - destruct (Nat.eqb_spec (n mod 2) 0); [reflexivity|].
    assert (Nat.odd n = true); [|congruence].
    apply Nat.odd_spec. exists (n / 2)%nat. lia.
Qed.

Lemma debounced_quotes_of_line l j :
  blank l = false -> comment l = false ->
  List.filter (has_message msg_unmatched_quotes) (Debounced.checkLine l j)
  = if Nat.odd (count_char (ascii_of_N 34) l)
    then [diag Error j (len l) msg_unmatched_quotes] else [].
Proof.
  intros Hb Hc. unfold Debounced.checkLine.
  rewrite skipped_spec, Hb, Hc. simpl orb. cbv iota.
  rewrite odd_mod2, quoteCount_trim.
  repeat rewrite List.filter_app.
  repeat match goal with
         | |- context [if ?b then _ else _] =>
             lazymatch b with
             | Nat.odd _ => fail
             | _ => destruct b
             end
         end;
    destruct (Nat.odd _); reflexivity.
Qed.

(** C5.  On a line that is neither blank nor a comment and holds an odd
    number of double quotes, the debouncing validator reports the Error
    ['Unmatched quotes in line'] over the whole line, exactly once, whatever
    the line starts with and whatever the other rules report; the rules add
    up, so the line made of [BADKEY], a space, one double quote and
    [unterminated] gets the unknown-keyword Error and the unmatched-quote
    Error. *)
Theorem unmatched_quotes_are_reported (text : jsstring) (i : nat) (l : jsstring) :
  nth_error (split LF text) i = Some l ->
  blank l = false -> comment l = false ->
  Nat.odd (count_char (ascii_of_N 34) l) = true ->
  List.filter (reports msg_unmatched_quotes (Z.of_nat i))
    (Debounced.diagnosticsOf text)
  = [diag Error (Z.of_nat i) (len l) msg_unmatched_quotes]
  /\ Debounced.diagnosticsOf (str "BADKEY " ++ [ascii_of_N 34] ++ str "unterminated")
     = [diag Error 0 6 msg_unknown_keyword;
        diag Error 0 20 msg_unmatched_quotes].
Proof.
  intros Hi Hb Hc Hodd. split; [|reflexivity].
  rewrite (debounced_reports _ _ _ _ Hi), debounced_quotes_of_line, Hodd;
    auto.
Qed.

Lemma unmatched_quotes_are_reported_witness :
  List.filter (reports msg_unmatched_quotes 1)
    (Debounced.diagnosticsOf
       (str "INDEX users" ++ [LF] ++ str "FILTER name = " ++ [ascii_of_N 34]
        ++ str "bob"))
  = [diag Error 1 18 msg_unmatched_quotes]
  /\ Debounced.diagnosticsOf (str "BADKEY " ++ [ascii_of_N 34] ++ str "unterminated")
     = [diag Error 0 6 msg_unknown_keyword;
        diag Error 0 20 msg_unmatched_quotes].
Proof.
  apply (unmatched_quotes_are_reported
           (str "INDEX users" ++ [LF] ++ str "FILTER name = " ++ [ascii_of_N 34]
            ++ str "bob") 1
           (str "FILTER name = " ++ [ascii_of_N 34] ++ str "bob"));
    reflexivity.
Defined.

(** ** White-space delimited tokens *)

Lemma split_ws_from_cons insp s : exists p r, split_ws_from insp s = p :: r.
Proof.
  revert insp. induction s as [|c s IH]; intros insp; simpl; eauto.
  destruct (is_space c).
  - destruct insp; eauto.
  - destruct (IH false) as (p & r & ->). eauto.
Qed.

Lemma tokens_of_split_ws insp s :
  List.filter nonempty (split_ws_from insp s) = tokens s.
Proof.
  revert insp. induction s as [|c s IH]; intros insp; [reflexivity|].
  simpl. destruct (is_space c) eqn:Ec.
  - destruct insp; simpl; apply IH.
  - specialize (IH false). destruct s as [|d s']; [reflexivity|].
    rewrite <- IH.
    destruct (split_ws_from_cons false (d :: s')) as (p & r & E).
    rewrite E. simpl in E. destruct (is_space d).
    + injection E as <- _. reflexivity.
    + destruct (split_ws_from false s'); injection E as <- _; reflexivity.
Qed.

Lemma tokens_cons c s :
  tokens (c :: s)
  = if is_space c then tokens s
    else match s with
         | [] => [[c]]
         | d :: _ => if is_space d then [c] :: tokens s
                     else cons_head c (tokens s)
         end.
Proof. reflexivity. Qed.

Lemma tokens_trimStart s : tokens (trimStart s) = tokens s.
Proof.
  induction s as [|c s IH]; [reflexivity|].
  simpl trimStart. destruct (is_space c) eqn:E; [|reflexivity].
  rewrite IH. simpl. rewrite E. reflexivity.
Qed.

Lemma tokens_blank s : forallb is_space s = true -> tokens s = [].
Proof.
  induction s as [|c s IH]; simpl; [reflexivity|].
  intros H. apply andb_true_iff in H as [-> H]. auto.
Qed.

Lemma trimEnd_head s r c : trimEnd s = c :: r -> exists s', s = c :: s'.
Proof.
  destruct s as [|a s]; simpl; [discriminate|].
  destruct (trimEnd s).
  - destruct (is_space a); [discriminate|]. intros H. injection H as <- _. eauto.
  - intros H. injection H as <- _. eauto.
Qed.

Lemma tokens_trimEnd s : tokens (trimEnd s) = tokens s.
Proof.
  induction s as [|c s IH]; [reflexivity|].
  simpl trimEnd. destruct (trimEnd s) as [|b r] eqn:Er.
  - apply trimEnd_nil_blank in Er. pose proof (tokens_blank _ Er) as Ht.
    simpl. destruct (is_space c) eqn:Ec; [simpl; congruence|].
    simpl. rewrite Ec. destruct s as [|d s']; [reflexivity|].
    simpl in Er. apply andb_true_iff in Er as [-> _]. rewrite Ht. reflexivity.
  - destruct (trimEnd_head _ _ _ Er) as (s' & ->).
    rewrite (tokens_cons c (b :: r)), (tokens_cons c (b :: s')), IH.
    reflexivity.
Qed.

Lemma tokens_trim s : tokens (trim s) = tokens s.
Proof. unfold trim. rewrite tokens_trimEnd. apply tokens_trimStart. Qed.

Lemma trim_head l : blank l = false ->
  exists c r, trim l = c :: r /\ is_space c = false.
Proof.
  intros H. destruct (trim l) as [|c r] eqn:E.
  - apply trim_nil_iff in E. congruence.
  - exists c, r. split; [reflexivity|]. unfold trim in E.
    destruct (trimEnd_head _ _ _ E) as (s' & Hs).
    apply (trimStart_head _ _ _ Hs).
Qed.

Lemma first_piece_split_ws l :
  blank l = false ->
  first_piece (split_ws (trim l)) = hd [] (tokens l).
Proof.
  intros H. destruct (trim_head l H) as (c & r & E & Hc).
  rewrite <- (tokens_trim l), <- (tokens_of_split_ws false (trim l)).
  unfold split_ws. rewrite E. simpl. rewrite Hc.
  destruct (split_ws_from false r); reflexivity.
Qed.

Lemma immediate_firstWord l :
  blank l = false ->
  toUpperCase (first_piece (split_ws (trim l))) = statementKeyword l.
Proof. intros H. unfold statementKeyword. rewrite first_piece_split_ws; auto. Qed.

Lemma immediate_unknown_of_line l j :
  blank l = false -> comment l = false ->
  List.filter (has_message msg_unknown_keyword) (Immediate.checkLine l j)
  = if arr_includes validStartKeywords (statementKeyword l) then []
    else [diag Error j (len (statementKeyword l)) msg_unknown_keyword].
Proof.
  intros Hb Hc. unfold Immediate.checkLine.
  rewrite skipped_spec, Hb, Hc. simpl orb. cbv iota.
  rewrite immediate_firstWord by assumption.
  repeat rewrite List.filter_app.
  destruct (arr_includes validStartKeywords (statementKeyword l));
    simpl negb; cbv iota;
    repeat match goal with
           | |- context [if ?b then _ else _] =>
               lazymatch b with context [l] => destruct b end
           end; reflexivity.
Qed.

(** The unknown-keyword rule of the immediate variant, for a line that is
    neither blank nor a comment: no diagnostic when the statement keyword is
    one of the six, and otherwise exactly one Error over the columns of the
    keyword. *)
Lemma immediate_unknown_keyword_rule (text : jsstring) (i : nat) (l : jsstring) :
  nth_error (split LF text) i = Some l ->
  blank l = false -> comment l = false ->
  List.filter (reports msg_unknown_keyword (Z.of_nat i))
    (Immediate.diagnosticsOf text)
  = if arr_includes validStartKeywords (statementKeyword l) then []
    else [diag Error (Z.of_nat i) (len (statementKeyword l)) msg_unknown_keyword].
Proof.
  intros Hi Hb Hc.
  rewrite (immediate_reports _ _ _ _ Hi). apply immediate_unknown_of_line; auto.
Qed.

(** C4.  In the immediate variant, a line that is neither blank nor a
    comment gets no unknown-keyword diagnostic when its statement keyword is
    one of the six, and otherwise exactly one Error, with the message that
    lists the six, over columns 0 to the length of the keyword.  The
    debouncing variant cuts the first word at the first SPACE only: the line
    [INDEX<TAB>users] starts with the statement keyword [INDEX], but that
    variant takes [INDEX<TAB>USERS] for the keyword and reports the
    unknown-keyword Error over columns 0 to 11. *)
Theorem unknown_keyword_rule (text : jsstring) (i : nat) (l : jsstring) :
  nth_error (split LF text) i = Some l ->
  blank l = false -> comment l = false ->
  List.filter (reports msg_unknown_keyword (Z.of_nat i))
    (Immediate.diagnosticsOf text)
  = (if arr_includes validStartKeywords (statementKeyword l) then []
     else [diag Error (Z.of_nat i) (len (statementKeyword l)) msg_unknown_keyword])
  /\ msg_unknown_keyword
     = str "Line must start with one of: INDEX, FILTER, MAP, AS, SQL, JOIN"
  /\ (let tabbed := str "INDEX" ++ [TAB] ++ str "users" in
      statementKeyword tabbed = str "INDEX"
      /\ arr_includes validStartKeywords (statementKeyword tabbed) = true
      /\ Immediate.diagnosticsOf tabbed = []
      /\ Debounced.diagnosticsOf tabbed = [diag Error 0 11 msg_unknown_keyword]).
Proof.
  intros Hi Hb Hc. split; [|repeat split; reflexivity].
  apply immediate_unknown_keyword_rule; assumption.
Qed.

Lemma unknown_keyword_rule_witness :
  List.filter (reports msg_unknown_keyword 1)
    (Immediate.diagnosticsOf (str "index users" ++ [LF] ++ str "SELECT *"))
  = [diag Error 1 6 msg_unknown_keyword]
  /\ List.filter (reports msg_unknown_keyword 0)
       (Immediate.diagnosticsOf (str "index users" ++ [LF] ++ str "SELECT *"))
     = [].
Proof.
  split.
  - exact (proj1 (unknown_keyword_rule
                    (str "index users" ++ [LF] ++ str "SELECT *") 1
                    (str "SELECT *") eq_refl eq_refl eq_refl)).
  - exact (proj1 (unknown_keyword_rule
                    (str "index users" ++ [LF] ++ str "SELECT *") 0
                    (str "index users") eq_refl eq_refl eq_refl)).
Defined.

(** ** The INDEX arity rule *)

Lemma tokens_space_free c s :
  space_free (c :: s) = true -> tokens (c :: s) = [c :: s].
Proof.
  revert c. induction s as [|d s IH]; intros c H.
  - simpl in *. apply andb_true_iff in H as [H _].
    destruct (is_space c); [discriminate | reflexivity].
  - rewrite tokens_cons. pose proof H as H'. simpl in H.
    apply andb_true_iff in H as [Hc H].
    destruct (is_space c); [discriminate|].
    rewrite (IH d H). apply andb_true_iff in H as [Hd _].
    destruct (is_space d); [discriminate | reflexivity].
Qed.

Lemma tokens_head_nonspace s :
  match tokens s with
  | [] => forallb is_space s = true
  | w :: _ => exists c r, w = c :: r /\ is_space c = false
  end.
Proof.
  induction s as [|c s IH]; [reflexivity|].
  rewrite tokens_cons. simpl forallb. destruct (is_space c) eqn:Ec.
  - exact IH.
  - destruct s as [|d s']; [eauto|].
    destruct (is_space d); [eauto|].
    destruct (tokens (d :: s')); simpl; eauto.
Qed.

Lemma trimEnd_cons c s :
  trimEnd (c :: s)
  = match trimEnd s with
    | [] => if is_space c then [] else [c]
    | r => c :: r
    end.
Proof. reflexivity. Qed.

Lemma trimEnd_cons_nonblank c s :
  forallb is_space s = false -> trimEnd (c :: s) = c :: trimEnd s.
Proof.
  intros H. simpl. destruct (trimEnd s) eqn:E; [|reflexivity].
  apply trimEnd_nil_blank in E. congruence.
Qed.

Lemma tokens_single s w : tokens s = [w] -> trim s = w.
Proof.
  revert w. induction s as [|c s IH]; intros w; [discriminate|].
  unfold trim. simpl trimStart.
  destruct s as [|d s'].
  { simpl. destruct (is_space c) eqn:Ec; [discriminate|].
    intros H. injection H as <-. simpl. rewrite Ec. reflexivity. }
  pose proof (tokens_head_nonspace (d :: s')) as Hn.
  rewrite tokens_cons.
  remember (tokens (d :: s')) as td eqn:Etd in *.
  destruct (is_space c) eqn:Ec; [apply IH|].
  destruct (is_space d) eqn:Ed.
  - intros H. injection H as <- Ht. rewrite Ht in Hn.
    rewrite trimEnd_cons, (trimEnd_blank _ Hn), Ec. reflexivity.
  - destruct td as [|w' [|? ?]]; unfold cons_head; try discriminate.
    + simpl in Hn. rewrite Ed in Hn. discriminate.
    + intros H. injection H as <-.
      specialize (IH w' eq_refl). unfold trim in IH. simpl trimStart in IH.
      rewrite Ed in IH.
      rewrite trimEnd_cons_nonblank; [congruence|].
      simpl. rewrite Ed. reflexivity.
Qed.

Lemma upper_index_space_free t :
  toUpperCase t = str "INDEX" -> space_free t = true /\ length t = 5%nat.
Proof.
  intros H.
  assert (P : toUpperCase t = map upper_char t).
  { apply toUpperCase_without_SS. rewrite H. reflexivity. }
  rewrite P in H.
  assert (L : length t = 5%nat).
  { rewrite <- (length_map upper_char t), H. reflexivity. }
  split; [|assumption].
  destruct t as [|c1 [|c2 [|c3 [|c4 [|c5 [|c6 t]]]]]]; try discriminate L.
  simpl in H. injection H as H1 H2 H3 H4 H5.
  unfold space_free. simpl.
  rewrite <- (is_space_upper c1), <- (is_space_upper c2),
    <- (is_space_upper c3), <- (is_space_upper c4), <- (is_space_upper c5).
  rewrite H1, H2, H3, H4, H5. reflexivity.
Qed.

Lemma split_cons sep s : exists p r, split sep s = p :: r.
Proof.
  induction s as [|c s (p & r & IH)]; simpl; eauto.
  destruct (char_eqb c sep); eauto. rewrite IH. eauto.
Qed.

Lemma split_without sep s : has_char sep s = false -> split sep s = [s].
Proof.
  induction s as [|c s IH]; simpl; [reflexivity|].
  intros H. apply orb_false_iff in H as [-> H]. rewrite IH; auto.
Qed.

Lemma split_with sep s :
  has_char sep s = true -> (2 <= length (split sep s))%nat.
Proof.
  induction s as [|c s IH]; simpl; [discriminate|].
  destruct (char_eqb c sep); simpl.
  - intros _. destruct (split_cons sep s) as (p & r & ->). simpl. lia.
  - intros H. specialize (IH H).
    destruct (split sep s); simpl in *; lia.
Qed.

Lemma space_free_has_no_space s :
  space_free s = true -> has_char " " s = false.
Proof.
  induction s as [|c s IH]; simpl; [reflexivity|].
  intros H. apply andb_true_iff in H as [Hc H]. rewrite (IH H).
  destruct (char_eqb c " ") eqn:E; [|reflexivity].
  apply char_eqb_eq in E. subst c. discriminate.
Qed.

Lemma index_without_name_spec l :
  blank l = false ->
  index_without_name l = str_eqb (toUpperCase (trim l)) (str "INDEX").
Proof.
  intros Hb. unfold index_without_name, statementKeyword.
  destruct (trim_head l Hb) as (c & r & Et & Hc).
  pose proof (tokens_head_nonspace l) as Hn.
  destruct (tokens l) as [|w [|w' ws]] eqn:Ht.
  - unfold blank in Hb. congruence.
  - rewrite (tokens_single _ _ Ht). simpl. apply andb_true_r.
  - simpl. rewrite andb_false_r. symmetry. apply str_eqb_neq. intros H.
    apply upper_index_space_free in H as [H _].
    rewrite Et in H. apply tokens_space_free in H.
    rewrite <- Et, tokens_trim, Ht in H. discriminate.
Qed.

Lemma tokens_nonblank s w :
  In w (tokens s) -> exists c r, w = c :: r /\ is_space c = false.
Proof.
  revert w. induction s as [|c s IH]; intros w; [contradiction|].
  rewrite tokens_cons. destruct (is_space c) eqn:Ec; [apply IH|].
  destruct s as [|d s'].
  { intros [<- | []]. eauto. }
  destruct (is_space d).
  - intros [<- | H]; eauto.
  - destruct (tokens (d :: s')) as [|w' ws]; simpl.
    + intros [<- | []]. eauto.
    + intros [<- | H]; eauto. apply IH. right. assumption.
Qed.

Lemma immediate_parts_test l :
  (arr_length (tokens l) <? 2)
  || match nth_error (tokens l) 1 with
     | Some part => str_eqb (trim part) []
     | None => true
     end
  = (length (tokens l) <? 2)%nat.
Proof.
  unfold arr_length.
  destruct (tokens l) as [|w [|w' ws]] eqn:E; try reflexivity.
  assert (H : In w' (tokens l)) by (rewrite E; simpl; auto).
  apply tokens_nonblank in H as (c & r & -> & Hc).
  cbn [nth_error]. replace (str_eqb (trim (c :: r)) []) with false.
  - cbn [length]. destruct (Z.ltb_spec (Z.of_nat (S (S (length ws)))) 2); [lia|].
    reflexivity.
  - symmetry. apply str_eqb_neq. intros H. apply trim_nil_iff in H.
    unfold blank in H. simpl in H. rewrite Hc in H. discriminate.
Qed.

Lemma immediate_arity_of_line l j :
  blank l = false -> comment l = false ->
  List.filter (has_message msg_index_arity) (Immediate.checkLine l j)
  = if index_without_name l
    then [diag Error j (len (trim l)) msg_index_arity] else [].
Proof.
  intros Hb Hc. unfold Immediate.checkLine.
  rewrite skipped_spec, Hb, Hc. simpl orb. cbv iota.
  rewrite immediate_firstWord by assumption.
  change (List.filter (fun part => 0 <? len part) (split_ws (trim l)))
    with (List.filter nonempty (split_ws_from false (trim l))).
  rewrite tokens_of_split_ws, tokens_trim, immediate_parts_test.
  fold (index_without_name l).
  assert (Hlen : (len (trim l) =? 0) = false).
  { destruct (trim_head l Hb) as (c & r & -> & _). reflexivity. }
  rewrite Hlen. unfold index_without_name.
  repeat rewrite List.filter_app.
  destruct (str_eqb (statementKeyword l) (str "INDEX")) eqn:E.
  - apply str_eqb_eq in E. rewrite E. simpl.
    destruct (length (tokens l) <? 2)%nat;
      repeat match goal with
             | |- context [if ?b then _ else _] =>
                 lazymatch b with context [l] => destruct b end
             end; reflexivity.
  - simpl.
    repeat match goal with
           | |- context [if ?b then _ else _] =>
               lazymatch b with context [l] => destruct b end
           end; reflexivity.
Qed.

Lemma debounced_index_test t :
  str_eqb (toUpperCase (first_piece (split " " t))) (str "INDEX")
  && (arr_length (split " " t) <? 2)
  = str_eqb (toUpperCase t) (str "INDEX").
Proof.
  destruct (has_char " " t) eqn:H.
  - pose proof (split_with _ _ H) as L. unfold arr_length.
    destruct (Z.ltb_spec (Z.of_nat (length (split " " t))) 2); [lia|].
    rewrite andb_false_r. symmetry. apply str_eqb_neq. intros E.
    apply upper_index_space_free in E as [E _].
    apply space_free_has_no_space in E. congruence.
  - rewrite (split_without _ _ H). simpl. apply andb_true_r.
Qed.

Lemma debounced_arity_of_line l j :
  blank l = false -> comment l = false ->
  List.filter (has_message msg_index_arity) (Debounced.checkLine l j)
  = if index_without_name l
    then [diag Error j (len l) msg_index_arity] else [].
Proof.
  intros Hb Hc. unfold Debounced.checkLine.
  rewrite skipped_spec, Hb, Hc. simpl orb. cbv iota.
  rewrite index_without_name_spec, <- (debounced_index_test (trim l))
    by assumption.
  repeat rewrite List.filter_app.
  destruct (str_eqb (toUpperCase (first_piece (split " " (trim l))))
              (str "INDEX")) eqn:E.
  - apply str_eqb_eq in E. rewrite E. simpl.
    destruct (arr_length (split " " (trim l)) <? 2);
      repeat match goal with
             | |- context [if ?b then _ else _] =>
                 lazymatch b with context [l] => destruct b end
             end; reflexivity.
  - simpl.
    repeat match goal with
           | |- context [if ?b then _ else _] =>
               lazymatch b with context [l] => destruct b end
           end; reflexivity.
Qed.

Lemma index_without_name_width l :
  blank l = false -> index_without_name l = true -> len (trim l) = 5.
Proof.
  intros Hb H. rewrite index_without_name_spec in H by assumption.
  apply str_eqb_eq, upper_index_space_free in H as [_ H].
  unfold len. rewrite H. reflexivity.
Qed.

(** C6, as the code has it.  On a line that is neither blank nor a comment,
    both variants report ['INDEX statement must be followed by an index
    name'] exactly when the statement keyword is INDEX and the line has
    fewer than two tokens, and report it once.  The immediate variant spans
    the trimmed line, which is then five columns wide, so that its fallback
    width of 5 never differs from the width of the trimmed line; the
    debouncing variant spans the raw line.  [INDEX usersonly] has an
    argument and gets no arity diagnostic. *)
Theorem index_arity_rule (text : jsstring) (i : nat) (l : jsstring) :
  nth_error (split LF text) i = Some l ->
  blank l = false -> comment l = false ->
  List.filter (reports msg_index_arity (Z.of_nat i)) (Immediate.diagnosticsOf text)
  = (if index_without_name l
     then [diag Error (Z.of_nat i) (len (trim l)) msg_index_arity] else [])
  /\ List.filter (reports msg_index_arity (Z.of_nat i)) (Debounced.diagnosticsOf text)
     = (if index_without_name l
        then [diag Error (Z.of_nat i) (len l) msg_index_arity] else [])
  /\ (index_without_name l = true -> len (trim l) = 5)
  /\ index_without_name (str "INDEX usersonly") = false
  /\ index_without_name (str "INDEX") = true.
Proof.
  intros Hi Hb Hc. repeat split.
  - rewrite (immediate_reports _ _ _ _ Hi). apply immediate_arity_of_line; auto.
  - rewrite (debounced_reports _ _ _ _ Hi). apply debounced_arity_of_line; auto.
  - apply index_without_name_width. assumption.
Qed.

Lemma index_arity_rule_witness :
  List.filter (reports msg_index_arity 1)
    (Immediate.diagnosticsOf (str "// query" ++ [LF] ++ str "  index "))
  = [diag Error 1 5 msg_index_arity]
  /\ List.filter (reports msg_index_arity 1)
       (Debounced.diagnosticsOf (str "// query" ++ [LF] ++ str "  index "))
     = [diag Error 1 8 msg_index_arity].
Proof.
  destruct (index_arity_rule (str "// query" ++ [LF] ++ str "  index ") 1
              (str "  index ") eq_refl eq_refl eq_refl) as (H1 & H2 & _).
  split; [exact H1 | exact H2].
Defined.

(** The debouncing variant does not span the trimmed line: on the line
    [  INDEX] its arity Error ends at column 7, the length of the raw
    line. *)
Lemma index_arity_span_counterexample :
  let l := str "  INDEX" in
  statementKeyword l = str "INDEX" /\ length (tokens l) = 1%nat
  /\ len (trim l) = 5
  /\ Debounced.diagnosticsOf l = [diag Error 0 7 msg_index_arity]
  /\ ~ In (diag Error 0 (len (trim l)) msg_index_arity) (Debounced.diagnosticsOf l).
Proof.
  repeat split; try reflexivity.
  vm_compute. intros [H | []]. discriminate H.
Qed.

(** ** Completion *)

(** C7.  For an open document, whatever the position, [completion] returns
    the seven keyword items followed by the four field-path items, eleven in
    all, with [isIncomplete] false; for a URI with no open document it
    returns no item. *)
Theorem completion_is_the_static_list (docs : gmap string TextDocument)
  (u : string) (position : Position) :
  completion docs u position
  = {| isIncomplete := false;
       items := match docs !! u with
                | Some _ => keywordItems ++ fieldItems
                | None => []
                end |}
  /\ map label keywordItems = keywords
  /\ map label fieldItems = fieldPaths
  /\ length keywordItems = 7%nat /\ length fieldItems = 4%nat
  /\ length (keywordItems ++ fieldItems) = 11%nat
  /\ Forall (fun it => kind it = Keyword) keywordItems
  /\ Forall (fun it => kind it = Field) fieldItems.
Proof.
  unfold completion. destruct (docs !! u); repeat split;
    try reflexivity; repeat constructor.
Qed.

(** ** The session: timers and validation passes *)

Section SessionFacts.

Variable diagnosticsOf : jsstring -> list Diagnostic.

Let callback := timeoutCallback diagnosticsOf.

Lemma callbacks_run (fired : list Timer) (s : Server) :
  let s' := fold_left (fun s' tm => callback (timer_doc tm) s') fired s in
  timers s' = timers s /\ next_timer s' = next_timer s /\ now s' = now s
  /\ documents s' = documents s
  /\ validated s' = validated s ++ map timer_doc fired
  /\ sent s' = sent s ++ map (fun tm => notification_of diagnosticsOf (timer_doc tm)) fired
  /\ pendingValidationRequests s' = forget (pendingValidationRequests s) fired.
Proof.
  revert s. induction fired as [|tm fired IH]; intros s; simpl.
  - rewrite !app_nil_r. repeat split; reflexivity.
  - destruct (IH (callback (timer_doc tm) s)) as (H1 & H2 & H3 & H4 & H5 & H6 & H7).
    rewrite H1, H2, H3, H4, H5, H6, H7. unfold callback, timeoutCallback.
    simpl. rewrite <- !app_assoc. repeat split; reflexivity.
Qed.

Lemma forget_other (m : gmap string nat) fired u :
  ~ In u (map (fun tm => uri (timer_doc tm)) fired) ->
  forget m fired !! u = m !! u.
Proof.
  revert m. induction fired as [|tm fired IH]; intros m H; [reflexivity|].
  simpl in *. rewrite IH by tauto. apply lookup_delete_ne. tauto.
Qed.

Lemma tick_fields (s : Server) :
  let s' := tick diagnosticsOf s in
  timers s' = List.filter (fun tm => negb (is_due (now s + 1) tm)) (timers s)
  /\ next_timer s' = next_timer s /\ now s' = now s + 1
  /\ documents s' = documents s
  /\ validated s' = validated s ++ map timer_doc (due_now s)
  /\ sent s' = sent s ++ map (fun tm => notification_of diagnosticsOf (timer_doc tm)) (due_now s)
  /\ pendingValidationRequests s' = forget (pendingValidationRequests s) (due_now s).
Proof.
  unfold tick, run_due. simpl.
  match goal with
  | |- context [fold_left ?f ?l ?s0] =>
      destruct (callbacks_run l s0) as (H1 & H2 & H3 & H4 & H5 & H6 & H7)
  end.
  fold callback. rewrite H1, H2, H3, H4, H5, H6, H7. simpl.
  repeat split; reflexivity.
Qed.

Lemma same_handle_same_timer (l : list Timer) a b :
  List.NoDup (map timer_id l) -> In a l -> In b l -> timer_id a = timer_id b -> a = b.
Proof.
  induction l as [|x l IH]; simpl; [contradiction|].
  intros N Ha Hb E. inversion N as [|? ? Hx N']; subst.
  destruct Ha as [-> | Ha], Hb as [-> | Hb]; auto.
  - exfalso. apply Hx. rewrite E. apply in_map. assumption.
  - exfalso. apply Hx. rewrite <- E. apply in_map. assumption.
Qed.

Lemma NoDup_map_filter {A B : Type} (f : A -> B) (p : A -> bool) (l : list A) :
  List.NoDup (map f l) -> List.NoDup (map f (List.filter p l)).
Proof.
  induction l as [|x l IH]; simpl; intros N; [constructor|].
  inversion N as [|? ? Hx N']; subst. destruct (p x); simpl; auto.
  constructor; auto. intros H. apply Hx.
  apply in_map_iff in H as (y & <- & Hy). apply filter_In in Hy as [Hy _].
  apply in_map. assumption.
Qed.

Lemma tick_consistent (s : Server) :
  consistent s -> consistent (tick diagnosticsOf s).
Proof.
  intros [Hreg Hnd Hfresh Hlater].
  destruct (tick_fields s) as (H1 & H2 & H3 & H4 & H5 & H6 & H7).
  constructor.
  - rewrite H1, H7. intros tm Htm. apply filter_In in Htm as [Htm Hdue].
    rewrite forget_other; [auto|].
    intros Hin. apply in_map_iff in Hin as (tm' & Hu & Htm').
    unfold due_now in Htm'. apply filter_In in Htm' as [Htm' Hdue'].
    assert (tm' = tm).
    { apply (same_handle_same_timer (timers s)); auto.
      pose proof (Hreg _ Htm) as R. pose proof (Hreg _ Htm') as R'.
      rewrite Hu in R'. congruence. }
    subst tm'. rewrite Hdue' in Hdue. discriminate.
  - rewrite H1. apply NoDup_map_filter. assumption.
  - rewrite H1, H2. intros tm Htm. apply filter_In in Htm as [Htm _]. auto.
  - rewrite H1, H3. intros tm Htm. apply filter_In in Htm as [Htm Hdue].
    unfold is_due in Hdue. apply negb_true_iff, Z.leb_gt in Hdue. assumption.
Qed.

Lemma elapse_consistent (n : nat) (s : Server) :
  consistent s -> consistent (elapse diagnosticsOf n s).
Proof.
  revert s. induction n as [|n IH]; intros s H; simpl; auto using tick_consistent.
Qed.

End SessionFacts.

Lemma filter_map_comm {A B : Type} (f : A -> B) (p : B -> bool) (l : list A) :
  List.filter p (map f l) = map f (List.filter (fun x => p (f x)) l).
Proof.
  induction l as [|x l IH]; simpl; [reflexivity|].
  destruct (p (f x)); simpl; congruence.
Qed.

Lemma filter_filter_comm {A : Type} (p q : A -> bool) (l : list A) :
  List.filter p (List.filter q l) = List.filter q (List.filter p l).
Proof.
  induction l as [|x l IH]; simpl; [reflexivity|].
  destruct (p x) eqn:P, (q x) eqn:Q; simpl; rewrite ?P, ?Q; congruence.
Qed.

Section ElapseFacts.

Variable diagnosticsOf : jsstring -> list Diagnostic.
Variable u : string.

Let notify (tm : Timer) := notification_of diagnosticsOf (timer_doc tm).

Lemma tick_for_uri (s : Server) :
  let s' := tick diagnosticsOf s in
  let fired := List.filter (is_due (now s + 1)) (timers_for u s) in
  timers_for u s'
  = List.filter (fun tm => negb (is_due (now s + 1) tm)) (timers_for u s)
  /\ validated_for u s' = validated_for u s ++ map timer_doc fired
  /\ sent_for u s' = sent_for u s ++ map notify fired
  /\ now s' = now s + 1.
Proof.
  destruct (tick_fields diagnosticsOf s) as (H1 & _ & H3 & _ & H5 & H6 & _).
  unfold timers_for, validated_for, sent_for, due_now in *. cbv zeta.
  rewrite H1, H3, H5, H6, !List.filter_app, !filter_map_comm.
  split; [apply filter_filter_comm|].
  split; [f_equal; f_equal; apply filter_filter_comm|].
  split; [|reflexivity].
  f_equal. unfold notify. f_equal. apply filter_filter_comm.
Qed.

Lemma elapse_quiet (n : nat) (s : Server) :
  timers_for u s = [] ->
  let s' := elapse diagnosticsOf n s in
  timers_for u s' = [] /\ validated_for u s' = validated_for u s
  /\ sent_for u s' = sent_for u s /\ now s' = now s + Z.of_nat n.
Proof.
  revert s. induction n as [|n IH]; intros s H; cbv zeta.
  - simpl. rewrite Z.add_0_r. auto.
  - cbn [elapse]. destruct (tick_for_uri s) as (T & V & S' & N).
    rewrite H in T, V, S'. simpl in T, V, S'. rewrite app_nil_r in V, S'.
    destruct (IH _ T) as (T' & V' & S'' & N').
    rewrite T', V', S'', N', V, S', N. repeat split; try reflexivity. lia.
Qed.

Lemma elapse_waiting (n : nat) (s : Server) (tm : Timer) :
  timers_for u s = [tm] -> now s + Z.of_nat n < due tm ->
  let s' := elapse diagnosticsOf n s in
  timers_for u s' = [tm] /\ validated_for u s' = validated_for u s
  /\ sent_for u s' = sent_for u s /\ now s' = now s + Z.of_nat n.
Proof.
  revert s. induction n as [|n IH]; intros s H Hdue; cbv zeta.
  - simpl. rewrite Z.add_0_r. auto.
  - cbn [elapse]. destruct (tick_for_uri s) as (T & V & S' & N).
    rewrite H in T, V, S'. simpl in T, V, S'.
    assert (D : is_due (now s + 1) tm = false).
    { unfold is_due. apply Z.leb_gt. lia. }
    rewrite D in T, V, S'. simpl in T, V, S'. rewrite app_nil_r in V, S'.
    destruct (IH _ T) as (T' & V' & S'' & N'); [lia|].
    rewrite T', V', S'', N', V, S', N. repeat split; try reflexivity. lia.
Qed.

Lemma elapse_fires (n : nat) (s : Server) (tm : Timer) :
  timers_for u s = [tm] -> now s < due tm -> due tm <= now s + Z.of_nat n ->
  let s' := elapse diagnosticsOf n s in
  timers_for u s' = []
  /\ validated_for u s' = validated_for u s ++ [timer_doc tm]
  /\ sent_for u s' = sent_for u s ++ [notify tm].
Proof.
  revert s. induction n as [|n IH]; intros s H Hlater Hdue; cbv zeta.
  - lia.
  - cbn [elapse]. destruct (tick_for_uri s) as (T & V & S' & N).
    rewrite H in T, V, S'. simpl in T, V, S'.
    destruct (is_due (now s + 1) tm) eqn:D; simpl in T, V, S'.
    + destruct (elapse_quiet n _ T) as (T' & V' & S'' & _).
      rewrite T', V', S'', V, S'. auto.
    + rewrite app_nil_r in V, S'. unfold is_due in D. apply Z.leb_gt in D.
      destruct (IH _ T) as (T' & V' & S''); [lia | lia |].
      rewrite T', V', S'', V, S'. auto.
Qed.

End ElapseFacts.

Lemma filter_nil_if {A : Type} (p : A -> bool) (l : list A) :
  (forall x, In x l -> p x = true -> False) -> List.filter p l = [].
Proof.
  intros H. apply filter_all_false. intros x Hx.
  destruct (p x) eqn:E; [exfalso; eauto | reflexivity].
Qed.

Lemma set_documents_consistent docs s :
  consistent s -> consistent (set_documents docs s).
Proof. intros [? ? ? ?]. constructor; assumption. Qed.

Lemma clean_pending (d : TextDocument) (s : Server) :
  consistent s ->
  let s' := cleanPendingValidation d s in
  timers_for (uri d) s' = [] /\ consistent s'
  /\ pendingValidationRequests s' !! uri d = None
  /\ validated s' = validated s /\ sent s' = sent s /\ now s' = now s.
Proof.
  intros C. pose proof C as [Hreg Hnd Hfresh Hlater].
  unfold cleanPendingValidation, timers_for.
  destruct (pendingValidationRequests s !! uri d) as [r|] eqn:E; cbv zeta.
  - simpl. repeat split; try reflexivity.
    + apply filter_nil_if. intros tm Htm Hu.
      apply filter_In in Htm as [Htm Hr]. apply String.eqb_eq in Hu.
      specialize (Hreg _ Htm). rewrite Hu, E in Hreg. injection Hreg as ->.
      rewrite Nat.eqb_refl in Hr. discriminate.
    + simpl. intros tm Htm. apply filter_In in Htm as [Htm Hr].
      rewrite lookup_delete_ne; [auto|].
      intros Hu. specialize (Hreg _ Htm). rewrite <- Hu, E in Hreg.
      injection Hreg as ->. rewrite Nat.eqb_refl in Hr. discriminate.
    + simpl. apply NoDup_map_filter. assumption.
    + simpl. intros tm Htm. apply filter_In in Htm as [Htm _]. auto.
    + simpl. intros tm Htm. apply filter_In in Htm as [Htm _]. auto.
    + apply lookup_delete_eq.
  - repeat split; try assumption; try reflexivity.
    apply filter_nil_if. intros tm Htm Hu. apply String.eqb_eq in Hu.
    specialize (Hreg _ Htm). rewrite Hu, E in Hreg. discriminate.
Qed.

Lemma debounced_validate (d : TextDocument) (s : Server) :
  consistent s ->
  let s' := DebouncedSession.validate d s in
  timers_for (uri d) s'
  = [{| timer_id := next_timer s; due := now s + 500; timer_doc := d |}]
  /\ consistent s'
  /\ validated s' = validated s /\ sent s' = sent s /\ now s' = now s.
Proof.
  intros C. unfold DebouncedSession.validate.
  destruct (clean_pending d s C) as (T & [Hreg Hnd Hfresh Hlater] & P & V & S' & N).
  set (s1 := cleanPendingValidation d s) in *.
  assert (Hnext : next_timer s1 = next_timer s).
  { unfold s1, cleanPendingValidation.
    destruct (pendingValidationRequests s !! uri d); reflexivity. }
  cbv zeta. unfold setTimeout, set_pending, timers_for in *. simpl.
  rewrite List.filter_app, T. simpl. rewrite String.eqb_refl, Hnext, N.
  repeat split; try assumption; simpl.
  - intros tm Htm. apply in_app_or in Htm as [Htm | [<- | []]].
    + rewrite lookup_insert_ne; [auto|].
      intros Hu. specialize (Hreg _ Htm). rewrite <- Hu, P in Hreg. discriminate.
    + simpl. apply lookup_insert_eq.
  - rewrite map_app. simpl. apply List.NoDup_app.
    + assumption.
    + repeat constructor. simpl. tauto.
    + intros x Hx [<- | []]. apply in_map_iff in Hx as (tm & E & Htm).
      specialize (Hfresh _ Htm). lia.
  - intros tm Htm. apply in_app_or in Htm as [Htm | [<- | []]].
    + specialize (Hfresh _ Htm). lia.
    + simpl. lia.
  - intros tm Htm. apply in_app_or in Htm as [Htm | [<- | []]].
    + rewrite <- N. auto.
    + simpl. lia.
Qed.

Lemma initial_consistent : consistent initial.
Proof. constructor; simpl; try contradiction. constructor. Qed.

Lemma debounced_step_consistent (s : Server) (e : Event) :
  consistent s -> consistent (DebouncedSession.step s e).
Proof.
  intros C. destruct e as [d | d | n]; simpl.
  - apply debounced_validate, set_documents_consistent, C.
  - destruct (clean_pending d _ (set_documents_consistent
                                   (delete (uri d) (documents s)) s C))
      as (_ & [? ? ? ?] & _).
    constructor; assumption.
  - apply elapse_consistent, C.
Qed.

Lemma debounced_run_consistent (events : list Event) (s : Server) :
  consistent s -> consistent (DebouncedSession.run s events).
Proof.
  revert s. induction events as [|e events IH]; intros s C; [exact C|].
  apply IH, debounced_step_consistent, C.
Qed.

Lemma one_timer_per_uri (u : string) (s : Server) :
  consistent s -> (length (timers_for u s) <= 1)%nat.
Proof.
  intros [Hreg Hnd _ _]. unfold timers_for.
  destruct (List.filter _ (timers s)) as [|a [|b l]] eqn:E; simpl; try lia.
  exfalso.
  assert (Ha : In a (List.filter (fun tm => String.eqb (uri (timer_doc tm)) u) (timers s)))
    by (rewrite E; simpl; auto).
  assert (Hb : In b (List.filter (fun tm => String.eqb (uri (timer_doc tm)) u) (timers s)))
    by (rewrite E; simpl; auto).
  apply filter_In in Ha as [Ha Ua], Hb as [Hb Ub].
  apply String.eqb_eq in Ua, Ub.
  pose proof (Hreg _ Ha) as Ra. pose proof (Hreg _ Hb) as Rb.
  rewrite Ua in Ra. rewrite Ub, Ra in Rb. injection Rb as Rb.
  pose proof (NoDup_map_filter timer_id
                (fun tm => String.eqb (uri (timer_doc tm)) u) _ Hnd) as N.
  rewrite E in N. simpl in N. inversion N as [|? ? Hx _]; subst.
  apply Hx. rewrite Rb. simpl. auto.
Qed.

Lemma debounced_run_cons s e es :
  DebouncedSession.run s (e :: es)
  = DebouncedSession.run (DebouncedSession.step s e) es.
Proof. reflexivity. Qed.

Lemma debounced_run_nil s : DebouncedSession.run s [] = s.
Proof. reflexivity. Qed.

Lemma debounced_step_change s d :
  DebouncedSession.step s (DidChangeContent d)
  = DebouncedSession.validate d
      (set_documents (<[uri d := d]> (documents s)) s).
Proof. reflexivity. Qed.

Lemma debounced_step_close s d :
  DebouncedSession.step s (DidClose d)
  = cleanDiagnostics d
      (cleanPendingValidation d
         (set_documents (delete (uri d) (documents s)) s)).
Proof. reflexivity. Qed.

Lemma debounced_step_elapse s n :
  DebouncedSession.step s (Elapse n) = elapse Debounced.diagnosticsOf n s.
Proof. reflexivity. Qed.

Lemma immediate_run_cons s e es :
  ImmediateSession.run s (e :: es)
  = ImmediateSession.run (ImmediateSession.step s e) es.
Proof. reflexivity. Qed.

Lemma immediate_run_nil s : ImmediateSession.run s [] = s.
Proof. reflexivity. Qed.

Lemma immediate_step_change s d :
  ImmediateSession.step s (DidChangeContent d)
  = ImmediateSession.validate d
      (set_documents (<[uri d := d]> (documents s)) s).
Proof. reflexivity. Qed.

Lemma immediate_step_elapse s n :
  ImmediateSession.step s (Elapse n) = elapse Immediate.diagnosticsOf n s.
Proof. reflexivity. Qed.

(** Two changes of one document less than 500 ms apart, then at least
    500 ms of rest, in the debouncing session: one validation pass and one
    published set, both for the second text. *)
Lemma debounced_two_changes (s : Server) (d1 d2 : TextDocument) (gap wait : nat) :
  consistent s -> uri d1 = uri d2 -> (gap < 500)%nat -> (500 <= wait)%nat ->
  let s' := DebouncedSession.run s
              [DidChangeContent d1; Elapse gap; DidChangeContent d2; Elapse wait] in
  validated_for (uri d2) s' = validated_for (uri d2) s ++ [d2]
  /\ sent_for (uri d2) s'
     = sent_for (uri d2) s ++ [notification_of Debounced.diagnosticsOf d2]
  /\ timers_for (uri d2) s' = [].
Proof.
  intros C U Hgap Hwait. cbv zeta.
  rewrite !debounced_run_cons, debounced_run_nil, !debounced_step_change,
    !debounced_step_elapse.
  set (s0 := set_documents _ s).
  assert (C0 : consistent s0) by (apply set_documents_consistent, C).
  destruct (debounced_validate d1 s0 C0) as (T1 & C1 & V1 & S1 & N1).
  set (s1 := DebouncedSession.validate d1 s0) in *.
  rewrite U in T1.
  destruct (elapse_waiting Debounced.diagnosticsOf (uri d2) gap s1 _ T1)
    as (_ & V2 & S2 & N2); [cbn [due]; lia|].
  pose proof (elapse_consistent Debounced.diagnosticsOf gap s1 C1) as C2.
  set (s2 := elapse Debounced.diagnosticsOf gap s1) in *.
  set (s3 := set_documents _ s2).
  assert (C3 : consistent s3) by (apply set_documents_consistent, C2).
  destruct (debounced_validate d2 s3 C3) as (T4 & C4 & V4 & S4 & N4).
  set (s4 := DebouncedSession.validate d2 s3) in *.
  destruct (elapse_fires Debounced.diagnosticsOf (uri d2) wait s4 _ T4)
    as (T5 & V5 & S5); [cbn [due]; lia | cbn [due]; lia |].
  rewrite T5, V5, S5. cbn [timer_doc].
  unfold validated_for, sent_for in *. rewrite V4, S4.
  change (validated s3) with (validated s2). change (sent s3) with (sent s2).
  rewrite V2, S2, V1, S1. auto.
Qed.

(** Until 500 ms have passed since the second change nothing is validated:
    the only armed timeout of the URI is the one of the second change. *)
Lemma debounced_two_changes_pending (s : Server) (d1 d2 : TextDocument)
  (gap early : nat) :
  consistent s -> uri d1 = uri d2 -> (gap < 500)%nat -> (early < 500)%nat ->
  let s' := DebouncedSession.run s
              [DidChangeContent d1; Elapse gap; DidChangeContent d2; Elapse early] in
  validated_for (uri d2) s' = validated_for (uri d2) s
  /\ sent_for (uri d2) s' = sent_for (uri d2) s
  /\ map timer_doc (timers_for (uri d2) s') = [d2].
Proof.
  intros C U Hgap Hearly. cbv zeta.
  rewrite !debounced_run_cons, debounced_run_nil, !debounced_step_change,
    !debounced_step_elapse.
  set (s0 := set_documents _ s).
  assert (C0 : consistent s0) by (apply set_documents_consistent, C).
  destruct (debounced_validate d1 s0 C0) as (T1 & C1 & V1 & S1 & N1).
  set (s1 := DebouncedSession.validate d1 s0) in *.
  rewrite U in T1.
  destruct (elapse_waiting Debounced.diagnosticsOf (uri d2) gap s1 _ T1)
    as (_ & V2 & S2 & N2); [cbn [due]; lia|].
  pose proof (elapse_consistent Debounced.diagnosticsOf gap s1 C1) as C2.
  set (s2 := elapse Debounced.diagnosticsOf gap s1) in *.
  set (s3 := set_documents _ s2).
  assert (C3 : consistent s3) by (apply set_documents_consistent, C2).
  destruct (debounced_validate d2 s3 C3) as (T4 & C4 & V4 & S4 & N4).
  set (s4 := DebouncedSession.validate d2 s3) in *.
  destruct (elapse_waiting Debounced.diagnosticsOf (uri d2) early s4 _ T4)
    as (T5 & V5 & S5 & _); [cbn [due]; lia|].
  rewrite T5, V5, S5. unfold validated_for, sent_for in *. rewrite V4, S4.
  change (validated s3) with (validated s2). change (sent s3) with (sent s2).
  rewrite V2, S2, V1, S1. auto.
Qed.

(** The immediate session never arms a timeout. *)
Lemma immediate_step_no_timer (s : Server) (e : Event) :
  timers s = [] -> timers (ImmediateSession.step s e) = [].
Proof.
  intros H. destruct e as [d | d | n]; simpl.
  - unfold cleanPendingValidation. simpl.
    destruct (pendingValidationRequests s !! uri d); simpl; rewrite H; reflexivity.
  - unfold cleanPendingValidation. simpl.
    destruct (pendingValidationRequests s !! uri d); simpl; rewrite H; reflexivity.
  - revert s H. induction n as [|n IH]; intros s H; [exact H|].
    simpl. apply IH.
    destruct (tick_fields Immediate.diagnosticsOf s) as (-> & _).
    rewrite H. reflexivity.
Qed.

Lemma immediate_run_no_timer (events : list Event) (s : Server) :
  timers s = [] -> timers (ImmediateSession.run s events) = [].
Proof.
  revert s. induction events as [|e events IH]; intros s H; [exact H|].
  apply IH, immediate_step_no_timer, H.
Qed.

Lemma immediate_validate (d : TextDocument) (s : Server) :
  let s' := ImmediateSession.validate d s in
  validated s' = validated s ++ [d]
  /\ sent s' = sent s ++ [notification_of Immediate.diagnosticsOf d]
  /\ (timers s = [] -> timers s' = []).
Proof.
  unfold ImmediateSession.validate, ImmediateSession.doValidate, doValidate,
    cleanPendingValidation.
  destruct (pendingValidationRequests s !! uri d); simpl;
    repeat split; try reflexivity; intros ->; reflexivity.
Qed.

(** The same two changes in the immediate session: each one is validated
    when it arrives. *)
Lemma immediate_two_changes (s : Server) (d1 d2 : TextDocument) (gap wait : nat) :
  timers s = [] -> uri d1 = uri d2 ->
  let s' := ImmediateSession.run s
              [DidChangeContent d1; Elapse gap; DidChangeContent d2; Elapse wait] in
  validated_for (uri d2) s' = validated_for (uri d2) s ++ [d1; d2]
  /\ sent_for (uri d2) s'
     = sent_for (uri d2) s ++ [notification_of Immediate.diagnosticsOf d1;
                               notification_of Immediate.diagnosticsOf d2].
Proof.
  intros T U. cbv zeta.
  rewrite !immediate_run_cons, immediate_run_nil, !immediate_step_change,
    !immediate_step_elapse.
  set (s0 := set_documents _ s).
  destruct (immediate_validate d1 s0) as (V1 & S1 & T1).
  set (s1 := ImmediateSession.validate d1 s0) in *.
  specialize (T1 T).
  assert (Q1 : timers_for (uri d2) s1 = []) by (unfold timers_for; rewrite T1; reflexivity).
  destruct (elapse_quiet Immediate.diagnosticsOf (uri d2) gap s1 Q1) as (_ & V2 & S2 & _).
  pose proof (immediate_step_no_timer s1 (Elapse gap) T1) as T2. simpl in T2.
  set (s2 := elapse Immediate.diagnosticsOf gap s1) in *.
  set (s3 := set_documents _ s2).
  destruct (immediate_validate d2 s3) as (V4 & S4 & T4).
  set (s4 := ImmediateSession.validate d2 s3) in *.
  specialize (T4 T2).
  assert (Q4 : timers_for (uri d2) s4 = []) by (unfold timers_for; rewrite T4; reflexivity).
  destruct (elapse_quiet Immediate.diagnosticsOf (uri d2) wait s4 Q4) as (_ & V5 & S5 & _).
  rewrite V5, S5. unfold validated_for, sent_for in *.
  rewrite V4, S4, !List.filter_app.
  change (validated s3) with (validated s2). change (sent s3) with (sent s2).
  rewrite V2, S2, V1, S1, !List.filter_app. simpl.
  rewrite U, String.eqb_refl, <- !app_assoc. auto.
Qed.

(** *** The captured document is the current one *)

Lemma clean_pending_timers (d : TextDocument) (s : Server) (tm : Timer) :
  consistent s ->
  In tm (timers (cleanPendingValidation d s)) ->
  In tm (timers s) /\ uri (timer_doc tm) <> uri d.
Proof.
  intros C H. destruct (clean_pending d s C) as (T & _).
  split.
  - unfold cleanPendingValidation in H.
    destruct (pendingValidationRequests s !! uri d); [|exact H].
    simpl in H. apply filter_In in H as [H _]. exact H.
  - intros U. unfold timers_for in T.
    assert (Hin : In tm (List.filter
                           (fun tm0 => String.eqb (uri (timer_doc tm0)) (uri d))
                           (timers (cleanPendingValidation d s)))).
    { apply filter_In. split; [exact H|]. apply String.eqb_eq. exact U. }
    rewrite T in Hin. contradiction.
Qed.

Lemma clean_pending_documents (d : TextDocument) (s : Server) :
  documents (cleanPendingValidation d s) = documents s.
Proof.
  unfold cleanPendingValidation.
  destruct (pendingValidationRequests s !! uri d); reflexivity.
Qed.

Lemma elapse_timers_documents diagnosticsOf (n : nat) (s : Server) :
  documents (elapse diagnosticsOf n s) = documents s
  /\ forall tm, In tm (timers (elapse diagnosticsOf n s)) -> In tm (timers s).
Proof.
  revert s. induction n as [|n IH]; intros s; [auto|].
  cbn [elapse]. destruct (IH (tick diagnosticsOf s)) as [D T].
  destruct (tick_fields diagnosticsOf s) as (H1 & _ & _ & H4 & _).
  rewrite D, H4. split; [reflexivity|].
  intros tm Htm. apply T in Htm. rewrite H1 in Htm.
  apply filter_In in Htm as [Htm _]. exact Htm.
Qed.

Lemma debounced_step_current (s : Server) (e : Event) :
  consistent s -> captures_current s ->
  captures_current (DebouncedSession.step s e).
Proof.
  intros C K. destruct e as [d | d | n].
  - rewrite debounced_step_change.
    set (s0 := set_documents (<[uri d:=d]> (documents s)) s).
    assert (C0 : consistent s0) by (apply set_documents_consistent, C).
    unfold DebouncedSession.validate, setTimeout, set_pending.
    intros tm Htm. cbn [timers documents] in *.
    rewrite clean_pending_documents. cbn [s0 set_documents documents].
    apply in_app_or in Htm as [Htm | [<- | []]].
    + apply (clean_pending_timers d s0 tm C0) in Htm as [Htm U].
      rewrite lookup_insert_ne by congruence. apply K. exact Htm.
    + cbn [timer_doc]. apply lookup_insert_eq.
  - rewrite debounced_step_close.
    set (s0 := set_documents (delete (uri d) (documents s)) s).
    assert (C0 : consistent s0) by (apply set_documents_consistent, C).
    intros tm Htm.
    change (In tm (timers (cleanPendingValidation d s0))) in Htm.
    change (documents (cleanPendingValidation d s0) !! uri (timer_doc tm)
            = Some (timer_doc tm)).
    rewrite clean_pending_documents.
    apply (clean_pending_timers d s0 tm C0) in Htm as [Htm U].
    cbn [s0 set_documents documents].
    rewrite lookup_delete_ne by congruence. apply K. exact Htm.
  - rewrite debounced_step_elapse.
    destruct (elapse_timers_documents Debounced.diagnosticsOf n s) as [D T].
    intros tm Htm. rewrite D. apply K, T, Htm.
Qed.

Lemma debounced_run_current (events : list Event) (s : Server) :
  consistent s -> captures_current s ->
  captures_current (DebouncedSession.run s events).
Proof.
  revert s. induction events as [|e events IH]; intros s C K; [exact K|].
  rewrite debounced_run_cons.
  apply IH; [apply debounced_step_consistent, C
            | apply debounced_step_current; assumption].
Qed.

(** C1, as the code has it.  In the debouncing variant, two changes of one
    document less than 500 ms apart, followed by at least 500 ms, cause one
    validation pass, over the second text, and one published set, and
    nothing is validated or published for the document before the 500 ms
    are over; in every
    reachable state at most one timeout is armed per URI, and none is left
    for a URI once [cleanPendingValidation] has run for it; the document
    a timeout captured is the current document of its URI.  The immediate
    variant arms no timeout and validates each change when it arrives, so
    the same two changes cause two passes, the first over the first text. *)
Theorem two_changes_within_the_debounce_interval
  (events : list Event) (d1 d2 : TextDocument) (gap wait : nat) :
  uri d1 = uri d2 -> (gap < 500)%nat -> (500 <= wait)%nat ->
  let burst := [DidChangeContent d1; Elapse gap; DidChangeContent d2; Elapse wait] in
  let s := DebouncedSession.run initial events in
  let t := ImmediateSession.run initial events in
  (validated_for (uri d2) (DebouncedSession.run s burst)
   = validated_for (uri d2) s ++ [d2]
   /\ sent_for (uri d2) (DebouncedSession.run s burst)
      = sent_for (uri d2) s ++ [notification_of Debounced.diagnosticsOf d2])
  /\ (forall early, (early < 500)%nat ->
        let pending :=
          DebouncedSession.run s
            [DidChangeContent d1; Elapse gap; DidChangeContent d2; Elapse early] in
        validated_for (uri d2) pending = validated_for (uri d2) s
        /\ sent_for (uri d2) pending = sent_for (uri d2) s)
  /\ (forall u evs,
        (length (timers_for u (DebouncedSession.run initial evs)) <= 1)%nat)
  /\ (forall d evs,
        timers_for (uri d)
          (cleanPendingValidation d (DebouncedSession.run initial evs)) = [])
  /\ (forall evs, captures_current (DebouncedSession.run initial evs))
  /\ (validated_for (uri d2) (ImmediateSession.run t burst)
      = validated_for (uri d2) t ++ [d1; d2]
      /\ sent_for (uri d2) (ImmediateSession.run t burst)
         = sent_for (uri d2) t ++ [notification_of Immediate.diagnosticsOf d1;
                                   notification_of Immediate.diagnosticsOf d2])
  /\ (forall evs, timers (ImmediateSession.run initial evs) = []).
Proof.
  intros U Hgap Hwait. cbv zeta.
  pose proof (debounced_run_consistent events initial initial_consistent) as C.
  pose proof (immediate_run_no_timer events initial eq_refl) as T.
  destruct (debounced_two_changes _ d1 d2 gap wait C U Hgap Hwait) as (V & S' & _).
  destruct (immediate_two_changes _ d1 d2 gap wait T U) as (V' & S'').
  split; [split; [exact V | exact S'] |].
  split.
  { intros early Hearly.
    destruct (debounced_two_changes_pending _ d1 d2 gap early C U Hgap Hearly)
      as (Ve & Se & _).
    split; [exact Ve | exact Se]. }
  split.
  { intros u evs. apply one_timer_per_uri, debounced_run_consistent,
      initial_consistent. }
  split.
  { intros d evs. apply clean_pending, debounced_run_consistent,
      initial_consistent. }
  split.
  { intros evs. apply debounced_run_current; [apply initial_consistent|].
    intros tm []. }
  split; [split; [exact V' | exact S''] |].
  intros evs. apply immediate_run_no_timer. reflexivity.
Qed.

Lemma two_changes_within_the_debounce_interval_witness :
  let d1 := {| uri := "file:///q.echo"; getText := str "INDEX" |} in
  let d2 := {| uri := "file:///q.echo"; getText := str "INDEX users" |} in
  let burst := [DidChangeContent d1; Elapse 200; DidChangeContent d2; Elapse 500] in
  validated_for "file:///q.echo" (DebouncedSession.run initial burst) = [d2]
  /\ validated_for "file:///q.echo" (ImmediateSession.run initial burst) = [d1; d2].
Proof.
  cbv zeta.
  destruct (two_changes_within_the_debounce_interval []
              {| uri := "file:///q.echo"; getText := str "INDEX" |}
              {| uri := "file:///q.echo"; getText := str "INDEX users" |}
              200 500 eq_refl ltac:(lia) ltac:(lia))
    as ((H1 & _) & _ & _ & _ & _ & (H2 & _) & _).
  split; [exact H1 | exact H2].
Defined.

(** In the immediate variant two changes of one document 100 ms apart are
    validated twice and two diagnostic sets are published, the first for the
    superseded text. *)
Lemma immediate_validates_twice :
  let d1 := {| uri := "file:///q.echo"; getText := str "INDEX" |} in
  let d2 := {| uri := "file:///q.echo"; getText := str "INDEX users" |} in
  let s := ImmediateSession.run initial
             [DidChangeContent d1; Elapse 100; DidChangeContent d2; Elapse 500] in
  validated s = [d1; d2]
  /\ sent s = [ {| pd_uri := "file:///q.echo";
                   pd_diagnostics := [diag Error 0 5 msg_index_arity] |};
                {| pd_uri := "file:///q.echo"; pd_diagnostics := [] |} ]
  /\ length (validated s) <> 1%nat.
Proof. vm_compute. repeat split; discriminate. Qed.

(** ** Scanning by runs of word characters *)

Lemma last_cons_some {A : Type} (c : A) (x : list A) : exists y, last (c :: x) = Some y.
Proof.
  revert c. induction x as [|d x IH]; intros c; simpl; eauto.
Qed.

Lemma prev_after_cons prev c x : prev_after prev (c :: x) = prev_after (Some c) x.
Proof.
  unfold prev_after. destruct x as [|d x]; [reflexivity|].
  change (last (c :: d :: x)) with (last (d :: x)).
  destruct (last_cons_some d x) as (y & ->). reflexivity.
Qed.

Lemma prev_after_app prev a b :
  prev_after prev (a ++ b) = prev_after (prev_after prev a) b.
Proof.
  revert prev. induction a as [|c a IH]; intros prev; [reflexivity|].
  cbn [app]. rewrite !prev_after_cons. apply IH.
Qed.

Lemma prev_after_word prev w :
  all_word w = true -> (w = [] -> is_word_opt prev = true) ->
  is_word_opt (prev_after prev w) = true.
Proof.
  revert prev. induction w as [|c w IH]; intros prev Hw Hp.
  - apply Hp. reflexivity.
  - rewrite prev_after_cons. simpl in Hw. apply andb_true_iff in Hw as [Hc Hw].
    apply IH; auto.
Qed.

Lemma len_cons c s : len (c :: s) = 1 + len s.
Proof. unfold len. simpl length. lia. Qed.

Lemma len_app a b : len (a ++ b) = len a + len b.
Proof. unfold len. rewrite length_app. lia. Qed.

Lemma execAll_skip m w rest :
  forall pos prev,
    execAll_from m pos prev (length w) (w ++ rest)
    = execAll_from m (pos + len w) (prev_after prev w) O rest.
Proof.
  induction w as [|c w IH]; intros pos prev.
  - simpl. rewrite Z.add_0_r. reflexivity.
  - simpl. rewrite IH, prev_after_cons, len_cons. f_equal. lia.
Qed.

Lemma replace_skip m f w rest :
  forall prev,
    replace_from m f prev (length w) (w ++ rest)
    = replace_from m f (prev_after prev w) O rest.
Proof.
  induction w as [|c w IH]; intros prev.
  - reflexivity.
  - simpl. rewrite IH, prev_after_cons. reflexivity.
Qed.

Lemma word_run_app w rest :
  all_word w = true -> starts_nonword rest = true ->
  word_run (w ++ rest) = length w.
Proof.
  intros Hw Hr. induction w as [|c w IH]; simpl.
  - destruct rest as [|r rest]; [reflexivity|].
    unfold starts_nonword in Hr. simpl in Hr.
    destruct (is_word r) eqn:E; [discriminate|]. simpl. rewrite E. reflexivity.
  - simpl in Hw. apply andb_true_iff in Hw as [-> Hw]. rewrite IH; auto.
Qed.

Lemma firstn_length_app {A : Type} (w rest : list A) :
  firstn (length w) (w ++ rest) = w.
Proof. rewrite firstn_app, Nat.sub_diag, firstn_all. simpl. apply app_nil_r. Qed.

Lemma skipn_length_app {A : Type} (w rest : list A) :
  skipn (length w) (w ++ rest) = rest.
Proof. rewrite skipn_app, Nat.sub_diag, skipn_all. reflexivity. Qed.

(** A run of word characters that starts after a character which is not
    one is matched whole by [\b\w+\b]. *)
Lemma bounded_word_run prev c w rest :
  is_word_opt prev = false -> is_word c = true -> all_word w = true ->
  starts_nonword rest = true ->
  bounded_word prev (c :: w ++ rest) = Some (S (length w)).
Proof.
  intros Hp Hc Hw Hr. unfold bounded_word, word_boundary.
  cbn [hd_error is_word_opt]. rewrite Hp, Hc. cbn [xorb].
  change (c :: w ++ rest) with ((c :: w) ++ rest).
  rewrite word_run_app by (simpl; rewrite ?Hc; auto).
  cbn [length longest_bounded].
  change (S (length w)) with (length (c :: w)).
  rewrite firstn_length_app, skipn_length_app.
  unfold word_boundary. rewrite prev_after_word.
  - unfold starts_nonword in Hr. apply negb_true_iff in Hr. rewrite Hr.
    reflexivity.
  - simpl. rewrite Hc. assumption.
  - discriminate.
Qed.

Lemma bounded_word_nonword prev c t :
  is_word c = false -> bounded_word prev (c :: t) = None.
Proof.
  intros Hc. unfold bounded_word. simpl word_run. rewrite Hc.
  destruct (word_boundary prev (c :: t)); reflexivity.
Qed.

(** Induction over a string cut into characters that are not word
    characters and maximal runs of word characters. *)
Lemma run_ind (P : jsstring -> Prop) :
  P [] ->
  (forall c t, is_word c = false -> P t -> P (c :: t)) ->
  (forall c w rest, is_word c = true -> all_word w = true ->
                    starts_nonword rest = true -> P rest -> P (c :: w ++ rest)) ->
  forall s, P s.
Proof.
  intros Hnil Hnon Hrun s.
  assert (H : forall n s, (length s <= n)%nat -> P s).
  { clear s. induction n as [|n IH]; intros s Hs.
    - destruct s; [exact Hnil | simpl in Hs; lia].
    - destruct s as [|c t]; [exact Hnil|]. simpl in Hs.
      destruct (is_word c) eqn:Hc.
      + assert (exists w rest, t = w ++ rest /\ all_word w = true
                               /\ starts_nonword rest = true) as (w & rest & -> & Hw & Hr).
        { clear. induction t as [|d t (w & rest & -> & Hw & Hr)].
          - exists [], []. auto.
          - destruct (is_word d) eqn:Hd.
            + exists (d :: w), rest. simpl. rewrite Hd. auto.
            + exists [], (d :: w ++ rest). unfold starts_nonword. simpl.
              rewrite Hd. auto. }
        apply Hrun; auto. apply IH. rewrite length_app in Hs. lia.
      + apply Hnon; auto. apply IH. lia. }
  apply (H (length s)). lia.
Qed.

Lemma word_exec_nonword pos prev c t :
  is_word c = false ->
  execAll_from bounded_word pos prev O (c :: t)
  = execAll_from bounded_word (pos + 1) (Some c) O t.
Proof.
  intros Hc. cbn [execAll_from]. rewrite bounded_word_nonword by assumption.
  reflexivity.
Qed.

Lemma word_exec_run pos prev c w rest :
  is_word_opt prev = false -> is_word c = true -> all_word w = true ->
  starts_nonword rest = true ->
  execAll_from bounded_word pos prev O (c :: w ++ rest)
  = (pos, c :: w)
      :: execAll_from bounded_word (pos + 1 + len w) (prev_after (Some c) w) O rest.
Proof.
  intros Hp Hc Hw Hr. cbn [execAll_from].
  rewrite bounded_word_run by assumption.
  rewrite execAll_skip. cbn [firstn]. rewrite firstn_length_app. reflexivity.
Qed.

Lemma touches_run w rest :
  all_word w = true ->
  forall pos o,
    touches_word pos (w ++ rest) o
    = ((0 <? len w) && (pos <=? o) && (o <=? pos + len w))
      || touches_word (pos + len w) rest o.
Proof.
  intros Hw. induction w as [|c w IH]; intros pos o.
  - simpl. rewrite Z.add_0_r. reflexivity.
  - simpl in Hw. apply andb_true_iff in Hw as [Hc Hw].
    cbn [app touches_word]. rewrite Hc, IH, len_cons by assumption.
    replace (pos + 1 + len w) with (pos + (1 + len w)) by lia.
    destruct (touches_word (pos + (1 + len w)) rest o);
      [rewrite !orb_true_r; reflexivity|].
    rewrite !orb_false_r. pose proof (len_nonneg w).
    destruct (Z.ltb_spec 0 (len w)), (Z.ltb_spec 0 (1 + len w)),
      (Z.leb_spec pos o), (Z.leb_spec o (pos + 1)),
      (Z.leb_spec (pos + 1) o), (Z.leb_spec o (pos + 1 + len w)),
      (Z.leb_spec o (pos + (1 + len w))); simpl; try reflexivity; lia.
Qed.

(** What the loop of [getWordAtOffset] finds, from a scanning state in
    which no word is under way. *)
Lemma find_word_spec (offset : Z) (s : jsstring) :
  forall pos prev,
    is_word_opt prev = false \/ starts_nonword s = true ->
    match find (covers offset) (execAll_from bounded_word pos prev O s) with
    | Some m =>
        touches_word pos s offset = true
        /\ exists pre post,
             s = pre ++ snd m ++ post /\ fst m = pos + len pre
             /\ all_word (snd m) = true /\ snd m <> []
             /\ is_word_opt (prev_after prev pre) = false
             /\ starts_nonword post = true
             /\ fst m <= offset <= fst m + len (snd m)
    | None => touches_word pos s offset = false
    end.
Proof.
  induction s as [|c t Hc IH | c w rest Hc Hw Hr IH] using run_ind;
    intros pos prev Hstate.
  - reflexivity.
  - rewrite word_exec_nonword by assumption.
    specialize (IH (pos + 1) (Some c) (or_introl Hc)).
    cbn [touches_word]. rewrite Hc. cbn [andb orb].
    destruct (find _ _) as [m|]; [|exact IH].
    destruct IH as (T & pre & post & E & P & W & N & B & A & C).
    split; [exact T|]. exists (c :: pre), post.
    rewrite prev_after_cons, len_cons, E.
    repeat split; auto; lia.
  - assert (Hp : is_word_opt prev = false).
    { destruct Hstate as [H | H]; [exact H|].
      unfold starts_nonword in H. simpl in H. rewrite Hc in H. discriminate. }
    rewrite word_exec_run by assumption. cbn [find].
    change (c :: w ++ rest) with ((c :: w) ++ rest).
    rewrite touches_run by (simpl; rewrite Hc; assumption).
    rewrite len_cons.
    destruct (covers offset (pos, c :: w)) eqn:Cov.
    + unfold covers in Cov. cbn [fst snd] in Cov. rewrite len_cons in Cov.
      apply andb_true_iff in Cov as [C1 C2].
      apply Z.leb_le in C1, C2. pose proof (len_nonneg w).
      split.
      * apply orb_true_iff. left.
        rewrite !andb_true_iff, Z.ltb_lt, !Z.leb_le. lia.
      * exists [], rest. cbn [fst snd app]. rewrite len_cons.
        repeat split; try assumption; try discriminate; try lia.
        -- unfold len. simpl. lia.
        -- simpl. rewrite Hc. assumption.
    + specialize (IH (pos + 1 + len w) (prev_after (Some c) w) (or_intror Hr)).
      assert (Hno : (0 <? 1 + len w) && (pos <=? offset)
                    && (offset <=? pos + (1 + len w)) = false).
      { unfold covers in Cov. cbn [fst snd] in Cov. rewrite len_cons in Cov.
        rewrite <- andb_assoc, Cov. apply andb_false_r. }
      rewrite Hno. cbn [orb].
      replace (pos + (1 + len w)) with (pos + 1 + len w) by lia.
      destruct (find _ _) as [m|]; [|exact IH].
      destruct IH as (T & pre & post & E & P & W & N & B & A & C).
      split; [exact T|]. exists (c :: w ++ pre), post.
      rewrite E. repeat split; auto.
      * cbn [app]. rewrite <- app_assoc. reflexivity.
      * rewrite P, len_cons, len_app. lia.
      * rewrite prev_after_cons, prev_after_app. exact B.
      * apply C.
      * apply C.
Qed.

(** ** Hover *)

Lemma prev_after_start pre : prev_after None pre = last pre.
Proof. unfold prev_after. destruct (last pre); reflexivity. Qed.

Lemma getWordAtOffset_spec (text : jsstring) (offset : Z) :
  match getWordAtOffset text offset with
  | Some w =>
      touches_word 0 text offset = true
      /\ all_word w = true /\ w <> []
      /\ exists pre post,
           text = pre ++ w ++ post
           /\ is_word_opt (last pre) = false /\ starts_nonword post = true
           /\ len pre <= offset <= len pre + len w
  | None => touches_word 0 text offset = false
  end.
Proof.
  pose proof (find_word_spec offset text 0 None (or_introl eq_refl)) as H.
  change (getWordAtOffset text offset)
    with (match find (covers offset) (execAll_from bounded_word 0 None O text) with
          | Some m => Some (snd m)
          | None => None
          end).
  destruct (find (covers offset) _) as [m|]; [|exact H].
  destruct H as (T & pre & post & E & P & W & N & B & A & C).
  rewrite prev_after_start in B. rewrite Z.add_0_l in P. rewrite P in C.
  split; [exact T|]. split; [exact W|]. split; [exact N|].
  exists pre, post. auto.
Qed.

Lemma keywordHover_unknown (x : jsstring) :
  arr_includes keywords x = false -> keywordHover x = None.
Proof.
  unfold arr_includes, keywords. cbn [map existsb]. intros H.
  repeat (apply orb_false_iff in H as [? H]).
  unfold keywordHover.
  repeat match goal with
         | E : str_eqb x _ = false |- _ => rewrite E; clear E
         end.
  reflexivity.
Qed.

(** C2, as the code has it.  With no open document [hover] is absent.  For
    an open document it is never absent: when no word character starts or
    ends at the cursor, as between two tokens separated by two spaces, and
    when the word at the cursor is not a keyword, it is the generic
    ['Echo Query Language']; when the upper-case form of the word at the
    cursor is one of the seven keywords it is the content of that keyword.
    The word at the cursor is the maximal run of word characters that
    contains the cursor or ends or starts at it. *)
Theorem hover_contents (offsetAt : TextDocument -> Position -> Z)
  (docs : gmap string TextDocument) (u : string) (position : Position) :
  hover offsetAt docs u position
  = match docs !! u with
    | None => None
    | Some document =>
        match getWordAtOffset (getText document) (offsetAt document position) with
        | None => Some fallbackHover
        | Some w =>
            match keywordHover (toUpperCase w) with
            | Some contents => Some contents
            | None => Some fallbackHover
            end
        end
    end
  /\ (forall text offset,
        match getWordAtOffset text offset with
        | Some w =>
            touches_word 0 text offset = true
            /\ all_word w = true /\ w <> []
            /\ exists pre post,
                 text = pre ++ w ++ post
                 /\ is_word_opt (last pre) = false /\ starts_nonword post = true
                 /\ len pre <= offset <= len pre + len w
        | None => touches_word 0 text offset = false
        end)
  /\ (forall x, arr_includes keywords x = false -> keywordHover x = None)
  /\ map keywordHover keywords
     = [ Some [str "INDEX statement"; str "Specifies the index to query from"];
         Some [str "FILTER operation"; str "Filters and transforms the result set"];
         Some [str "MAP function"; str "Transforms data using a mapping expression"];
         Some [str "AS clause"; str "Assigns an alias to the result set"];
         Some [str "SQL operation"; str "Performs SQL operations on the data"];
         Some [str "JOIN function"; str "Joins two result sets based on conditions"];
         Some [str "NOT operator"; str "Negates a condition"] ]
  /\ keywordHover (toUpperCase (str "FiLtEr"))
     = Some [str "FILTER operation"; str "Filters and transforms the result set"].
Proof.
  split; [|split; [apply getWordAtOffset_spec|]].
  - unfold hover. destruct (docs !! u) as [document|]; [|reflexivity].
    pose proof (getWordAtOffset_spec (getText document)
                  (offsetAt document position)) as H.
    destruct (getWordAtOffset _ _) as [w|]; [|reflexivity].
    destruct H as (_ & _ & N & _).
    apply str_eqb_neq in N. rewrite N. cbn [negb].
    destruct (keywordHover (toUpperCase w)); reflexivity.
  - split; [apply keywordHover_unknown|]. split; reflexivity.
Qed.

(** At offset 6 of [INDEX  users], between the two spaces, no word is under
    the cursor, and [hover] is the generic fallback, not the absent
    result. *)
Lemma hover_between_tokens_counterexample :
  let document := {| uri := "file:///q.echo"; getText := str "INDEX  users" |} in
  let docs : gmap string TextDocument := {[ "file:///q.echo" := document ]} in
  touches_word 0 (getText document) 6 = false
  /\ getWordAtOffset (getText document) 6 = None
  /\ hover (fun _ p => character p) docs "file:///q.echo"
       {| line := 0; character := 6 |} = Some fallbackHover
  /\ hover (fun _ p => character p) docs "file:///q.echo"
       {| line := 0; character := 6 |} <> None.
Proof. vm_compute. repeat split; discriminate. Qed.

(** ** The keyword pattern on a run of word characters *)

Lemma literal_upper alt w rest pv :
  all_word alt = true -> (alt = [] -> is_word_opt pv = true) ->
  all_word w = true -> starts_nonword rest = true ->
  literal true alt (w ++ rest)
  && word_boundary (prev_after pv (firstn (length alt) (w ++ rest)))
       (skipn (length alt) (w ++ rest))
  = str_eqb (toUpperCase w) (toUpperCase alt).
Proof.
  intros Ha Hp Hw Hr.
  rewrite (toUpperCase_word w Hw), (toUpperCase_word alt Ha).
  revert w pv Ha Hp Hw Hr.
  induction alt as [|a alt IH]; intros w pv Ha Hp Hw Hr.
  - cbn [literal length andb]. rewrite firstn_O, skipn_O.
    unfold prev_after. cbn [last].
    unfold word_boundary. rewrite (Hp eq_refl).
    destruct w as [|c w]; cbn [app].
    + unfold starts_nonword in Hr. apply negb_true_iff in Hr. rewrite Hr.
      reflexivity.
    + simpl in Hw. apply andb_true_iff in Hw as [Hc _].
      cbn [hd_error is_word_opt]. rewrite Hc. reflexivity.
  - simpl in Ha. apply andb_true_iff in Ha as [Ha Halt].
    destruct w as [|c w]; cbn [app].
    + destruct rest as [|r rest]; [reflexivity|].
      unfold starts_nonword in Hr. cbn in Hr. apply negb_true_iff in Hr.
      cbn [literal]. destruct (char_eqb (upper_char a) (upper_char r)) eqn:E;
        [|reflexivity].
      apply char_eqb_eq in E.
      rewrite <- (is_word_upper a), E, is_word_upper, Hr in Ha. discriminate.
    + simpl in Hw. apply andb_true_iff in Hw as [Hc Hw].
      cbn [literal length]. rewrite firstn_cons, skipn_cons, prev_after_cons.
      rewrite <- andb_assoc, IH; auto.
      cbn [map str_eqb].
      destruct (char_eqb (upper_char a) (upper_char c)) eqn:E.
      * apply char_eqb_eq in E. rewrite E, char_eqb_refl. reflexivity.
      * destruct (char_eqb (upper_char c) (upper_char a)) eqn:E';
          [|reflexivity].
        apply char_eqb_eq in E'. rewrite E', char_eqb_refl in E.
        discriminate.
Qed.

Lemma str_eqb_length a b : str_eqb a b = true -> length a = length b.
Proof. intros H. apply str_eqb_eq in H. congruence. Qed.

Lemma try_alternative_run prev alt w rest :
  word_alt alt = true -> all_word w = true -> starts_nonword rest = true ->
  try_alternative true prev (w ++ rest) alt
  = if str_eqb (toUpperCase w) (toUpperCase alt) then Some (length w) else None.
Proof.
  intros Ha Hw Hr. unfold word_alt in Ha. apply andb_true_iff in Ha as [Ha Hne].
  unfold try_alternative. rewrite literal_upper; auto.
  - destruct (str_eqb (toUpperCase w) (toUpperCase alt)) eqn:E; [|reflexivity].
    apply str_eqb_length in E.
    rewrite (toUpperCase_length w Hw), (toUpperCase_length alt Ha) in E.
    rewrite E. reflexivity.
  - intros ->. discriminate.
Qed.

Lemma first_alternative_run prev alts w rest :
  forallb word_alt alts = true -> all_word w = true ->
  starts_nonword rest = true ->
  first_alternative true prev (w ++ rest) alts
  = if existsb (fun alt => str_eqb (toUpperCase w) (toUpperCase alt)) alts
    then Some (length w) else None.
Proof.
  intros Ha Hw Hr. induction alts as [|alt alts IH]; [reflexivity|].
  simpl in Ha. apply andb_true_iff in Ha as [Halt Ha].
  cbn [first_alternative existsb]. rewrite try_alternative_run by assumption.
  destruct (str_eqb (toUpperCase w) (toUpperCase alt)); [reflexivity|].
  apply IH. assumption.
Qed.

Lemma keywords_are_words : forallb word_alt keywords = true.
Proof. reflexivity. Qed.

Lemma is_keyword_alt w :
  existsb (fun alt => str_eqb (toUpperCase w) (toUpperCase alt)) keywords
  = is_keyword w.
Proof. reflexivity. Qed.

(** [\b(INDEX|...|NOT)\b] at the start of a maximal run of word characters:
    it matches the whole run when the run is a keyword, and nothing
    otherwise. *)
Lemma keywordPattern_run prev c w rest :
  is_word_opt prev = false -> is_word c = true -> all_word w = true ->
  starts_nonword rest = true ->
  keywordPattern prev (c :: w ++ rest)
  = if is_keyword (c :: w) then Some (S (length w)) else None.
Proof.
  intros Hp Hc Hw Hr. unfold keywordPattern, bounded_alternation, word_boundary.
  cbn [hd_error is_word_opt]. rewrite Hp, Hc. cbn [xorb].
  change (c :: w ++ rest) with ((c :: w) ++ rest).
  rewrite first_alternative_run, is_keyword_alt; auto using keywords_are_words.
  simpl. rewrite Hc. assumption.
Qed.

Lemma keywordPattern_inside prev c t :
  is_word_opt prev = true -> is_word c = true ->
  keywordPattern prev (c :: t) = None.
Proof.
  intros Hp Hc. unfold keywordPattern, bounded_alternation, word_boundary.
  cbn [hd_error is_word_opt]. rewrite Hp, Hc. reflexivity.
Qed.

Lemma first_alternative_nonword prev alts c t :
  forallb word_alt alts = true -> is_word c = false ->
  first_alternative true prev (c :: t) alts = None.
Proof.
  intros Ha Hc. induction alts as [|alt alts IH]; [reflexivity|].
  simpl in Ha. apply andb_true_iff in Ha as [Halt Ha].
  cbn [first_alternative]. rewrite IH by assumption.
  unfold try_alternative, word_alt in *.
  destruct alt as [|a alt]; [discriminate|].
  simpl in Halt. rewrite andb_true_r in Halt.
  apply andb_true_iff in Halt as [Ha' _].
  cbn [literal]. destruct (char_eqb (upper_char a) (upper_char c)) eqn:E;
    [|reflexivity].
  apply char_eqb_eq in E.
  rewrite <- (is_word_upper a), E, is_word_upper, Hc in Ha'. discriminate.
Qed.

Lemma keywordPattern_nonword prev c t :
  is_word c = false -> keywordPattern prev (c :: t) = None.
Proof.
  intros Hc. unfold keywordPattern, bounded_alternation.
  rewrite first_alternative_nonword by auto using keywords_are_words.
  destruct (word_boundary prev (c :: t)); reflexivity.
Qed.

(** ** [uppercaseKeywords], run by run *)

Lemma upcase_nonword prev c t :
  is_word c = false ->
  upcase_from prev O (c :: t) = c :: upcase_from (Some c) O t.
Proof.
  intros Hc. cbn [replace_from]. rewrite keywordPattern_nonword by assumption.
  reflexivity.
Qed.

Lemma upcase_inside w rest :
  all_word w = true ->
  forall prev, is_word_opt prev = true ->
    upcase_from prev O (w ++ rest) = w ++ upcase_from (prev_after prev w) O rest.
Proof.
  intros Hw. induction w as [|c w IH]; intros prev Hp; [reflexivity|].
  simpl in Hw. apply andb_true_iff in Hw as [Hc Hw].
  cbn [app replace_from]. rewrite keywordPattern_inside by assumption.
  rewrite IH, prev_after_cons by assumption. reflexivity.
Qed.

Lemma upcase_run prev c w rest :
  is_word_opt prev = false -> is_word c = true -> all_word w = true ->
  starts_nonword rest = true ->
  upcase_from prev O (c :: w ++ rest)
  = upcase_word (c :: w) ++ upcase_from (prev_after (Some c) w) O rest.
Proof.
  intros Hp Hc Hw Hr. cbn [replace_from].
  rewrite keywordPattern_run by assumption. unfold upcase_word.
  destruct (is_keyword (c :: w)).
  - rewrite replace_skip. rewrite firstn_cons, firstn_length_app. reflexivity.
  - rewrite upcase_inside by assumption. reflexivity.
Qed.

Lemma upcase_state prev s :
  is_word_opt prev = false \/ starts_nonword s = true ->
  upcase_from prev O s = uppercaseKeywords s.
Proof.
  unfold uppercaseKeywords, replace.
  induction s as [|c t Hc _ | c w rest Hc Hw Hr _] using run_ind; intros H.
  - reflexivity.
  - rewrite !upcase_nonword by assumption. reflexivity.
  - assert (Hp : is_word_opt prev = false).
    { destruct H as [H | H]; [exact H|].
      unfold starts_nonword in H. simpl in H. rewrite Hc in H. discriminate. }
    rewrite !upcase_run by auto. reflexivity.
Qed.

Lemma uppercaseKeywords_nonword c t :
  is_word c = false -> uppercaseKeywords (c :: t) = c :: uppercaseKeywords t.
Proof.
  intros Hc. unfold uppercaseKeywords at 1, replace.
  rewrite upcase_nonword, upcase_state by auto. reflexivity.
Qed.

Lemma uppercaseKeywords_run c w rest :
  is_word c = true -> all_word w = true -> starts_nonword rest = true ->
  uppercaseKeywords (c :: w ++ rest) = upcase_word (c :: w) ++ uppercaseKeywords rest.
Proof.
  intros Hc Hw Hr. unfold uppercaseKeywords at 1, replace.
  rewrite upcase_run, upcase_state by auto. reflexivity.
Qed.

Lemma all_word_map_upper w : all_word (map upper_char w) = all_word w.
Proof.
  induction w as [|c w IH]; [reflexivity|].
  simpl. rewrite is_word_upper. f_equal. exact IH.
Qed.

Lemma all_word_upper w : all_word w = true -> all_word (toUpperCase w) = true.
Proof.
  intros H. rewrite (toUpperCase_word w H), all_word_map_upper. exact H.
Qed.

Lemma upcase_word_idem w : upcase_word (upcase_word w) = upcase_word w.
Proof.
  unfold upcase_word. destruct (is_keyword w) eqn:E; [|rewrite E; reflexivity].
  unfold is_keyword in *. rewrite toUpperCase_idem, E. reflexivity.
Qed.

Lemma upcase_word_shape c w :
  is_word c = true -> all_word w = true ->
  exists c' w', upcase_word (c :: w) = c' :: w'
                /\ is_word c' = true /\ all_word w' = true.
Proof.
  intros Hc Hw. unfold upcase_word. destruct (is_keyword (c :: w)).
  - exists (upper_char c), (toUpperCase w).
    rewrite toUpperCase_cons, (upper_units_word c Hc), is_word_upper,
      (all_word_upper w Hw).
    auto.
  - eauto.
Qed.

Lemma upcase_word_length w : length (upcase_word w) = length w.
Proof.
  unfold upcase_word. destruct (is_keyword w) eqn:E; [|reflexivity].
  rewrite (is_keyword_plain w E). apply length_map.
Qed.

Lemma uppercaseKeywords_length s : length (uppercaseKeywords s) = length s.
Proof.
  induction s as [|c t Hc IH | c w rest Hc Hw Hr IH] using run_ind.
  - reflexivity.
  - rewrite uppercaseKeywords_nonword by assumption. simpl. congruence.
  - rewrite uppercaseKeywords_run by assumption.
    change (c :: w ++ rest) with ((c :: w) ++ rest).
    rewrite !length_app, upcase_word_length. congruence.
Qed.

Lemma uppercaseKeywords_starts_nonword s :
  starts_nonword s = true -> starts_nonword (uppercaseKeywords s) = true.
Proof.
  destruct s as [|c t]; [reflexivity|].
  unfold starts_nonword. simpl. intros H. apply negb_true_iff in H.
  rewrite uppercaseKeywords_nonword by assumption. simpl. rewrite H. reflexivity.
Qed.

Lemma uppercaseKeywords_idem s :
  uppercaseKeywords (uppercaseKeywords s) = uppercaseKeywords s.
Proof.
  induction s as [|c t Hc IH | c w rest Hc Hw Hr IH] using run_ind.
  - reflexivity.
  - rewrite !uppercaseKeywords_nonword by assumption. congruence.
  - rewrite uppercaseKeywords_run by assumption.
    destruct (upcase_word_shape c w Hc Hw) as (c' & w' & E & Hc' & Hw').
    pose proof (upcase_word_idem (c :: w)) as I. rewrite E in *. cbn [app].
    rewrite uppercaseKeywords_run, I, IH;
      auto using uppercaseKeywords_starts_nonword.
Qed.

(** ** The other passes of [formatLine] on words *)

Lemma word_not_bracket c : is_word c = true -> is_bracket c = false.
Proof. ascii_cases c. Qed.

Lemma spaceAfterBrackets_app x y :
  spaceAfterBrackets (x ++ y) = spaceAfterBrackets x ++ spaceAfterBrackets y.
Proof.
  induction x as [|c x IH]; [reflexivity|].
  simpl. destruct (is_bracket c); simpl; rewrite IH; reflexivity.
Qed.

Lemma spaceAfterBrackets_word w :
  all_word w = true -> spaceAfterBrackets w = w.
Proof.
  induction w as [|c w IH]; [reflexivity|]. simpl. intros H.
  apply andb_true_iff in H as [Hc Hw].
  rewrite word_not_bracket, IH by assumption. reflexivity.
Qed.

Lemma spaceAfterBrackets_starts_nonword s :
  starts_nonword (spaceAfterBrackets s) = starts_nonword s.
Proof.
  destruct s as [|c s]; [reflexivity|]. simpl.
  destruct (is_bracket c); reflexivity.
Qed.

Lemma collapse_nonspace insp c t :
  is_space c = false -> collapse_from insp (c :: t) = c :: collapse_from false t.
Proof. intros H. simpl. rewrite H. reflexivity. Qed.

Lemma collapse_space insp c t :
  is_space c = true ->
  collapse_from insp (c :: t)
  = if insp then collapse_from true t else " "%char :: collapse_from true t.
Proof. intros H. simpl. rewrite H. reflexivity. Qed.

Lemma collapse_run w rest :
  all_word w = true -> forall insp c, is_word c = true ->
    collapse_from insp (c :: w ++ rest) = c :: w ++ collapse_from false rest.
Proof.
  intros Hw. induction w as [|d w IH]; intros insp c Hc; cbn [app];
    rewrite (collapse_nonspace _ _ _ (word_not_space c Hc)).
  - reflexivity.
  - simpl in Hw. apply andb_true_iff in Hw as [Hd Hw].
    rewrite (IH Hw false d Hd). reflexivity.
Qed.

Lemma collapse_starts_nonword rest :
  starts_nonword rest = true -> starts_nonword (collapse_from false rest) = true.
Proof.
  destruct rest as [|c rest]; [reflexivity|].
  unfold starts_nonword. simpl. destruct (is_space c); [reflexivity|].
  intros H. exact H.
Qed.

Lemma trimEnd_run w rest :
  all_word w = true -> forall c, is_word c = true ->
    trimEnd (c :: w ++ rest) = c :: w ++ trimEnd rest.
Proof.
  intros Hw. induction w as [|d w IH]; intros c Hc; cbn [app].
  - rewrite trimEnd_cons. rewrite (word_not_space c Hc).
    destruct (trimEnd rest); reflexivity.
  - simpl in Hw. apply andb_true_iff in Hw as [Hd Hw].
    rewrite trimEnd_cons, (IH Hw d Hd). reflexivity.
Qed.

Lemma trimEnd_starts_nonword rest :
  starts_nonword rest = true -> starts_nonword (trimEnd rest) = true.
Proof.
  intros H. destruct (trimEnd rest) as [|c r] eqn:E; [reflexivity|].
  destruct (trimEnd_head _ _ _ E) as (s' & ->). exact H.
Qed.

(** ** [uppercaseKeywords] commutes with the other passes *)

Lemma space_is_not_word : is_word " " = false.
Proof. reflexivity. Qed.

Lemma upcase_word_all_word c w :
  is_word c = true -> all_word w = true -> all_word (upcase_word (c :: w)) = true.
Proof.
  intros Hc Hw. destruct (upcase_word_shape c w Hc Hw) as (c' & w' & -> & H1 & H2).
  simpl. rewrite H1. exact H2.
Qed.

Lemma uppercase_spaceAfterBrackets s :
  uppercaseKeywords (spaceAfterBrackets s)
  = spaceAfterBrackets (uppercaseKeywords s).
Proof.
  induction s as [|c t Hc IH | c w rest Hc Hw Hr IH] using run_ind.
  - reflexivity.
  - rewrite (uppercaseKeywords_nonword c t Hc). cbn [spaceAfterBrackets].
    destruct (is_bracket c);
      rewrite ?(uppercaseKeywords_nonword c), ?(uppercaseKeywords_nonword " ")
        by (assumption || reflexivity);
      rewrite IH; reflexivity.
  - rewrite uppercaseKeywords_run by assumption.
    change (c :: w ++ rest) with ((c :: w) ++ rest).
    rewrite !spaceAfterBrackets_app.
    rewrite (spaceAfterBrackets_word (c :: w)) by (simpl; rewrite Hc; exact Hw).
    rewrite (spaceAfterBrackets_word (upcase_word (c :: w)))
      by (apply upcase_word_all_word; assumption).
    cbn [app]. rewrite uppercaseKeywords_run, IH; auto.
    rewrite spaceAfterBrackets_starts_nonword. exact Hr.
Qed.

Lemma uppercase_collapse s :
  forall insp,
    uppercaseKeywords (collapse_from insp s)
    = collapse_from insp (uppercaseKeywords s).
Proof.
  induction s as [|c t Hc IH | c w rest Hc Hw Hr IH] using run_ind; intros insp.
  - reflexivity.
  - rewrite (uppercaseKeywords_nonword c t Hc).
    destruct (is_space c) eqn:Es.
    + rewrite !collapse_space by assumption. destruct insp.
      * apply IH.
      * rewrite uppercaseKeywords_nonword by reflexivity. rewrite IH. reflexivity.
    + rewrite !collapse_nonspace by assumption.
      rewrite uppercaseKeywords_nonword by assumption. rewrite IH. reflexivity.
  - rewrite uppercaseKeywords_run by assumption.
    rewrite collapse_run by assumption.
    destruct (upcase_word_shape c w Hc Hw) as (c' & w' & E & Hc' & Hw').
    rewrite uppercaseKeywords_run, E by auto using collapse_starts_nonword.
    cbn [app]. rewrite collapse_run, IH by assumption. reflexivity.
Qed.

Lemma uppercase_trimStart s :
  uppercaseKeywords (trimStart s) = trimStart (uppercaseKeywords s).
Proof.
  induction s as [|c t Hc IH | c w rest Hc Hw Hr IH] using run_ind.
  - reflexivity.
  - rewrite (uppercaseKeywords_nonword c t Hc). cbn [trimStart].
    destruct (is_space c); [exact IH|].
    apply uppercaseKeywords_nonword. assumption.
  - rewrite uppercaseKeywords_run by assumption.
    destruct (upcase_word_shape c w Hc Hw) as (c' & w' & E & Hc' & Hw').
    cbn [trimStart]. rewrite (word_not_space c Hc).
    rewrite uppercaseKeywords_run, E by assumption.
    cbn [app trimStart]. rewrite (word_not_space c' Hc'). reflexivity.
Qed.

Lemma uppercaseKeywords_nil_iff s : uppercaseKeywords s = [] <-> s = [].
Proof.
  pose proof (uppercaseKeywords_length s) as L. split.
  - intros H. rewrite H in L. destruct s; [reflexivity | discriminate L].
  - intros ->. reflexivity.
Qed.

Lemma uppercase_trimEnd s :
  uppercaseKeywords (trimEnd s) = trimEnd (uppercaseKeywords s).
Proof.
  induction s as [|c t Hc IH | c w rest Hc Hw Hr IH] using run_ind.
  - reflexivity.
  - rewrite (uppercaseKeywords_nonword c t Hc), !trimEnd_cons, <- IH.
    destruct (trimEnd t) as [|b r] eqn:E.
    + cbn. destruct (is_space c); [reflexivity|].
      apply uppercaseKeywords_nonword. assumption.
    + destruct (uppercaseKeywords (b :: r)) as [|b' r'] eqn:E'.
      * apply (proj1 (uppercaseKeywords_nil_iff _)) in E'. discriminate E'.
      * rewrite uppercaseKeywords_nonword, E' by assumption. reflexivity.
  - rewrite uppercaseKeywords_run by assumption.
    rewrite trimEnd_run by assumption.
    destruct (upcase_word_shape c w Hc Hw) as (c' & w' & E & Hc' & Hw').
    rewrite uppercaseKeywords_run, E by auto using trimEnd_starts_nonword.
    cbn [app]. rewrite trimEnd_run, IH by assumption. reflexivity.
Qed.

Lemma uppercase_trim s : uppercaseKeywords (trim s) = trim (uppercaseKeywords s).
Proof. unfold trim. rewrite uppercase_trimEnd, uppercase_trimStart. reflexivity. Qed.

(** ** Spacing, collapsing and trimming, applied twice *)

Lemma space_not_bracket c : is_space c = true -> is_bracket c = false.
Proof. ascii_cases c. Qed.

Lemma spaceAfterBrackets_trimStart y :
  spaceAfterBrackets (trimStart y) = trimStart (spaceAfterBrackets y).
Proof.
  induction y as [|c t IH]; [reflexivity|].
  cbn [trimStart spaceAfterBrackets]. destruct (is_space c) eqn:Es.
  - rewrite (space_not_bracket c Es). cbn [trimStart]. rewrite Es. exact IH.
  - cbn [spaceAfterBrackets].
    destruct (is_bracket c); cbn [trimStart]; rewrite Es; reflexivity.
Qed.

Lemma trimStart_collapse z :
  forall insp,
    trimStart (collapse_from insp z) = collapse_from false (trimStart z).
Proof.
  induction z as [|c t IH]; intros insp; [reflexivity|].
  cbn [trimStart]. destruct (is_space c) eqn:Es.
  - rewrite collapse_space by assumption.
    destruct insp; [apply IH|]. cbn [trimStart]. apply IH.
  - rewrite !collapse_nonspace by assumption. cbn [trimStart]. rewrite Es.
    reflexivity.
Qed.

Lemma collapse_spaced_collapse y :
  forall f g, (f = true -> g = true) ->
    collapse_from g (spaceAfterBrackets (collapse_from f y))
    = collapse_from g (spaceAfterBrackets y).
Proof.
  induction y as [|c t IH]; intros f g Hfg; [reflexivity|].
  destruct (is_space c) eqn:Es.
  - rewrite collapse_space by assumption. cbn [spaceAfterBrackets].
    rewrite (space_not_bracket c Es).
    rewrite (collapse_space g c) by assumption.
    destruct f.
    + rewrite (Hfg eq_refl). apply IH. auto.
    + cbn [spaceAfterBrackets]. change (is_bracket " ") with false. cbv iota.
      rewrite (collapse_space g " ") by reflexivity.
      rewrite (IH true true) by auto. reflexivity.
  - rewrite collapse_nonspace by assumption. cbn [spaceAfterBrackets].
    destruct (is_bracket c).
    + rewrite !(collapse_nonspace g c) by assumption.
      rewrite !(collapse_space false " ") by reflexivity.
      rewrite (IH false true) by auto. reflexivity.
    + rewrite !(collapse_nonspace g c) by assumption.
      rewrite (IH false false) by auto. reflexivity.
Qed.

Lemma collapse_spaced_twice y :
  forall f,
    collapse_from f (spaceAfterBrackets (spaceAfterBrackets y))
    = collapse_from f (spaceAfterBrackets y).
Proof.
  induction y as [|c t IH]; intros f; [reflexivity|].
  cbn [spaceAfterBrackets]. destruct (is_bracket c) eqn:Eb.
  - cbn [spaceAfterBrackets]. rewrite Eb.
    change (is_bracket " ") with false. cbv iota.
    rewrite !(collapse_nonspace f c) by (apply bracket_not_space; assumption).
    rewrite !(collapse_space false " ") by reflexivity.
    rewrite (collapse_space true " ") by reflexivity.
    rewrite IH. reflexivity.
  - cbn [spaceAfterBrackets]. rewrite Eb.
    destruct (is_space c) eqn:Es.
    + rewrite !(collapse_space f c) by assumption. rewrite IH. reflexivity.
    + rewrite !(collapse_nonspace f c) by assumption. rewrite IH. reflexivity.
Qed.

Lemma trimEnd_decomposition y :
  exists b, y = trimEnd y ++ b /\ forallb is_space b = true.
Proof.
  induction y as [|c t (b & E & Hb)].
  - exists []. auto.
  - rewrite trimEnd_cons. destruct (trimEnd t) as [|d r] eqn:Et.
    + destruct (is_space c) eqn:Es.
      * exists (c :: t). split; [reflexivity|]. simpl in E. subst b.
        simpl. rewrite Es. exact Hb.
      * exists t. split; [reflexivity|]. simpl in E. subst b. exact Hb.
    + exists b. split; [|exact Hb]. cbn [app]. f_equal. exact E.
Qed.

Lemma trimEnd_app_blank p b :
  forallb is_space b = true -> trimEnd (p ++ b) = trimEnd p.
Proof.
  intros Hb. induction p as [|c p IH]; cbn [app].
  - apply trimEnd_blank. exact Hb.
  - rewrite !trimEnd_cons, IH. reflexivity.
Qed.

Lemma spaceAfterBrackets_blank b :
  forallb is_space b = true -> spaceAfterBrackets b = b.
Proof.
  induction b as [|c b IH]; [reflexivity|]. simpl. intros H.
  apply andb_true_iff in H as [Hc Hb].
  rewrite (space_not_bracket c Hc), IH by assumption. reflexivity.
Qed.

Lemma collapse_blank b :
  forallb is_space b = true ->
  forall insp, forallb is_space (collapse_from insp b) = true.
Proof.
  induction b as [|c b IH]; [reflexivity|]. simpl. intros H insp.
  apply andb_true_iff in H as [Hc Hb]. rewrite Hc.
  destruct insp; simpl; auto.
Qed.

Lemma collapse_app_blank u b :
  forallb is_space b = true ->
  forall insp, exists b',
    collapse_from insp (u ++ b) = collapse_from insp u ++ b'
    /\ forallb is_space b' = true.
Proof.
  intros Hb. induction u as [|c u IH]; intros insp.
  - exists (collapse_from insp b). split; [reflexivity|].
    apply collapse_blank. exact Hb.
  - cbn [app]. destruct (is_space c) eqn:Es.
    + rewrite !collapse_space by assumption.
      destruct (IH true) as (b' & -> & Hb'). exists b'.
      destruct insp; auto.
    + rewrite !collapse_nonspace by assumption.
      destruct (IH false) as (b' & -> & Hb'). exists b'. auto.
Qed.

Lemma trimEnd_collapse_spaced_trimEnd y insp :
  trimEnd (collapse_from insp (spaceAfterBrackets (trimEnd y)))
  = trimEnd (collapse_from insp (spaceAfterBrackets y)).
Proof.
  destruct (trimEnd_decomposition y) as (b & E & Hb).
  rewrite E at 2. rewrite spaceAfterBrackets_app, (spaceAfterBrackets_blank b Hb).
  destruct (collapse_app_blank (spaceAfterBrackets (trimEnd y)) b Hb insp)
    as (b' & -> & Hb').
  rewrite trimEnd_app_blank by assumption. reflexivity.
Qed.

Lemma trimStart_trim x : trimStart (trim x) = trim x.
Proof.
  unfold trim. destruct (trimEnd (trimStart x)) as [|c r] eqn:E; [reflexivity|].
  destruct (trimEnd_head _ _ _ E) as (s' & Hs).
  apply trimStart_head in Hs. cbn [trimStart]. rewrite Hs. reflexivity.
Qed.

(** Spacing the brackets, collapsing the white space and trimming, done
    twice, is the same as done once. *)
Lemma spacing_twice y :
  trim (collapseSpaces (spaceAfterBrackets
         (trim (collapseSpaces (spaceAfterBrackets y)))))
  = trim (collapseSpaces (spaceAfterBrackets y)).
Proof.
  unfold collapseSpaces.
  set (x := collapse_from false (spaceAfterBrackets y)).
  assert (Hx : trimStart x = collapse_from false (spaceAfterBrackets (trimStart y))).
  { unfold x. rewrite trimStart_collapse, spaceAfterBrackets_trimStart.
    reflexivity. }
  unfold trim at 1.
  rewrite trimStart_collapse, <- spaceAfterBrackets_trimStart, trimStart_trim.
  unfold trim. rewrite trimEnd_collapse_spaced_trimEnd, Hx.
  rewrite collapse_spaced_collapse by auto.
  rewrite collapse_spaced_twice. reflexivity.
Qed.

Lemma formatLine_idempotent line : formatLine (formatLine line) = formatLine line.
Proof.
  unfold formatLine, collapseSpaces.
  rewrite uppercase_trim, uppercase_collapse, uppercase_spaceAfterBrackets,
    uppercaseKeywords_idem.
  apply spacing_twice.
Qed.

(** ** Formatting a text *)

Lemma collapse_no_LF s : forall insp, has_char LF (collapse_from insp s) = false.
Proof.
  induction s as [|c s IH]; intros insp; [reflexivity|].
  destruct (is_space c) eqn:Es.
  - rewrite collapse_space by assumption. destruct insp; simpl; auto.
  - rewrite collapse_nonspace by assumption. simpl. rewrite IH.
    destruct (char_eqb c LF) eqn:E; [|reflexivity].
    apply char_eqb_eq in E. subst c. discriminate.
Qed.

Lemma trimStart_keeps_out sep s :
  has_char sep s = false -> has_char sep (trimStart s) = false.
Proof.
  induction s as [|c s IH]; [reflexivity|]. simpl.
  intros H. apply orb_false_iff in H as [Hc Hs].
  destruct (is_space c); [auto|]. simpl. rewrite Hc. exact Hs.
Qed.

Lemma trimEnd_keeps_out sep s :
  has_char sep s = false -> has_char sep (trimEnd s) = false.
Proof.
  induction s as [|c s IH]; [reflexivity|]. rewrite trimEnd_cons.
  cbn [has_char existsb]. intros H. apply orb_false_iff in H as [Hc Hs].
  specialize (IH Hs). destruct (trimEnd s) as [|d r].
  - destruct (is_space c); simpl; rewrite ?Hc; reflexivity.
  - cbn [has_char existsb] in *. rewrite Hc. exact IH.
Qed.

Lemma formatLine_no_LF line : has_char LF (formatLine line) = false.
Proof.
  unfold formatLine, trim, collapseSpaces.
  apply trimEnd_keeps_out, trimStart_keeps_out, collapse_no_LF.
Qed.

Lemma split_app_sep sep x z :
  has_char sep x = false -> split sep (x ++ sep :: z) = x :: split sep z.
Proof.
  induction x as [|c x IH]; cbn [app split].
  - intros _. rewrite char_eqb_refl. reflexivity.
  - cbn [has_char existsb]. intros H. apply orb_false_iff in H as [Hc Hx].
    rewrite Hc, IH by assumption. reflexivity.
Qed.

Lemma split_join ls :
  ls <> [] -> Forall (fun l => has_char LF l = false) ls ->
  split LF (join [LF] ls) = ls.
Proof.
  induction ls as [|x ls IH]; intros Hne H; [contradiction|].
  inversion H as [|? ? Hx Hls]; subst.
  destruct ls as [|y ls].
  - simpl. apply split_without. exact Hx.
  - change (join [LF] (x :: y :: ls)) with (x ++ LF :: join [LF] (y :: ls)).
    rewrite split_app_sep by assumption. f_equal.
    apply IH; [discriminate | assumption].
Qed.

Lemma formatText_idempotent text : formatText (formatText text) = formatText text.
Proof.
  unfold formatText. rewrite split_join.
  - rewrite map_map. f_equal. apply map_ext. intros l.
    apply formatLine_idempotent.
  - destruct (split_cons LF text) as (p & r & ->). discriminate.
  - apply List.Forall_forall. intros l Hl.
    apply in_map_iff in Hl as (l0 & <- & _). apply formatLine_no_LF.
Qed.

(** C3, as the code has it.  [format] is idempotent: a range whose text is
    what an earlier [format] produced is replaced by the same text.  On each
    line every maximal run of word characters that is one of the seven
    keywords, in any letter case, is put in upper case and nothing else
    changes in that pass; then a space is inserted after each of
    [, ( ) { }], runs of white space become one space and the line is
    trimmed.  The line [index  users,filter] becomes [INDEX users, FILTER]:
    [filter] is a keyword too. *)
Theorem format_is_idempotent (getTextIn : TextDocument -> Range -> jsstring)
  (docs : gmap string TextDocument) (u : string) (range : Range) :
  format getTextIn docs u range
  = match docs !! u with
    | None => []
    | Some document =>
        [{| edit_range := range;
            newText := join [LF] (map formatLine
                                    (split LF (getTextIn document range))) |}]
    end
  /\ (forall text, formatText (formatText text) = formatText text)
  /\ (forall document produced,
        docs !! u = Some document ->
        getTextIn document range = formatText produced ->
        format getTextIn docs u range
        = [{| edit_range := range; newText := getTextIn document range |}])
  /\ formatText (str "index  users,filter") = str "INDEX users, FILTER"
  /\ uppercaseKeywords [] = []
  /\ (forall c t, is_word c = false ->
        uppercaseKeywords (c :: t) = c :: uppercaseKeywords t)
  /\ (forall c w rest,
        is_word c = true -> all_word w = true -> starts_nonword rest = true ->
        uppercaseKeywords (c :: w ++ rest)
        = (if is_keyword (c :: w) then toUpperCase (c :: w) else c :: w)
            ++ uppercaseKeywords rest).
Proof.
  split; [unfold format; destruct (docs !! u); reflexivity|].
  split; [apply formatText_idempotent|].
  split.
  { intros document produced Hd Hp. unfold format. rewrite Hd.
    rewrite Hp at 1. rewrite formatText_idempotent, Hp. reflexivity. }
  split; [reflexivity|]. split; [reflexivity|].
  split; [apply uppercaseKeywords_nonword | apply uppercaseKeywords_run].
Qed.

(** [format] turns [index  users,filter] into [INDEX users, FILTER], not
    into [INDEX users, filter]. *)
Lemma format_example_counterexample :
  formatText (str "index  users,filter") <> str "INDEX users, filter"
  /\ formatText (str "index  users,filter") = str "INDEX users, FILTER".
Proof. split; [discriminate | reflexivity]. Qed.

(** ** Occurrences of a pattern *)

Lemma execAll_occurrences (m : matcher) :
  non_overlapping m ->
  forall s pos prev k,
    blocked m prev k s ->
    execAll_from m pos prev k s = occurrences_from m pos prev s.
Proof.
  intros Hm. induction s as [|c s IH]; intros pos prev k Hb; [reflexivity|].
  cbn [execAll_from occurrences_from]. destruct k as [|k].
  - destruct (m prev (c :: s)) as [[|n]|] eqn:E.
    + apply IH. exact I.
    + f_equal. apply IH. apply (Hm _ _ _ _ E).
    + apply IH. exact I.
  - destruct Hb as [E Hb]. rewrite E. apply IH. exact Hb.
Qed.

Lemma matchAll_occurrences (m : matcher) (s : jsstring) :
  non_overlapping m -> matchAll m s = map snd (occurrences m s).
Proof.
  intros Hm. unfold matchAll, execAll, occurrences.
  rewrite (execAll_occurrences m Hm s 0 None O I). reflexivity.
Qed.

Lemma literal_word alt s :
  all_word alt = true -> literal true alt s = true ->
  all_word (firstn (length alt) s) = true /\ (length alt <= length s)%nat.
Proof.
  revert s. induction alt as [|a alt IH]; intros s Ha H.
  - simpl. split; [reflexivity | lia].
  - destruct s as [|c s]; [discriminate|]. simpl in Ha, H.
    apply andb_true_iff in Ha as [Ha Halt]. apply andb_true_iff in H as [E H].
    destruct (IH s Halt H) as [W L]. apply char_eqb_eq in E.
    cbn [length firstn all_word forallb]. fold (all_word (firstn (length alt) s)).
    rewrite W, <- (is_word_upper c), <- E, is_word_upper, Ha.
    split; [reflexivity | lia].
Qed.

Lemma first_alternative_some ci prev s alts n :
  first_alternative ci prev s alts = Some n ->
  exists alt, In alt alts /\ try_alternative ci prev s alt = Some n.
Proof.
  induction alts as [|alt alts IH]; [discriminate|].
  cbn [first_alternative]. destruct (try_alternative ci prev s alt) eqn:E.
  - intros H. injection H as <-. exists alt. simpl. auto.
  - intros H. destruct (IH H) as (alt' & Hin & Ht). exists alt'. simpl. auto.
Qed.

Lemma blocked_inside n :
  forall s p, is_word p = true -> all_word (firstn n s) = true ->
    blocked keywordPattern (Some p) n s.
Proof.
  induction n as [|n IH]; intros s p Hp Hw; [exact I|].
  destruct s as [|c s]; [exact I|].
  simpl in Hw. apply andb_true_iff in Hw as [Hc Hw].
  split; [apply keywordPattern_inside; assumption | apply IH; assumption].
Qed.

Lemma keywordPattern_non_overlapping : non_overlapping keywordPattern.
Proof.
  intros prev c s n H. unfold keywordPattern, bounded_alternation in H.
  destruct (word_boundary prev (c :: s)); [|discriminate].
  apply first_alternative_some in H as (alt & Hin & H).
  unfold try_alternative in H.
  destruct (literal true alt (c :: s)) eqn:L; [|discriminate].
  destruct (word_boundary _ _); [|discriminate]. injection H as H.
  assert (Ha : all_word alt = true).
  { pose proof keywords_are_words as K.
    rewrite forallb_forall in K. specialize (K _ Hin).
    unfold word_alt in K. apply andb_true_iff in K as [K _]. exact K. }
  destruct (literal_word alt (c :: s) Ha L) as [W _].
  rewrite H in W. simpl in W. apply andb_true_iff in W as [Hc W].
  apply blocked_inside; assumption.
Qed.

Lemma literal_exact alt s :
  literal false alt s = true -> exists rest, s = alt ++ rest.
Proof.
  revert s. induction alt as [|a alt IH]; intros s H; [exists s; reflexivity|].
  destruct s as [|c s]; [discriminate|]. simpl in H.
  apply andb_true_iff in H as [E H]. apply char_eqb_eq in E. subst c.
  destruct (IH s H) as (rest & ->). exists rest. reflexivity.
Qed.

Lemma try_alternative_exact prev s alt n :
  try_alternative false prev s alt = Some n ->
  n = length alt /\ exists rest,
    s = alt ++ rest
    /\ word_boundary (prev_after prev alt) rest = true.
Proof.
  unfold try_alternative. destruct (literal false alt s) eqn:L; [|discriminate].
  destruct (literal_exact alt s L) as (rest & ->).
  rewrite firstn_length_app, skipn_length_app.
  destruct (word_boundary (prev_after prev alt) rest) eqn:B; [|discriminate].
  intros H. injection H as <-. split; [reflexivity|]. exists rest. auto.
Qed.

Lemma fieldPattern_non_overlapping : non_overlapping fieldPattern.
Proof.
  intros prev c s n H. unfold fieldPattern, bounded_alternation in H.
  destruct (word_boundary prev (c :: s)); [|discriminate].
  apply first_alternative_some in H as (alt & Hin & H).
  apply try_alternative_exact in H as (Hn & rest & E & _).
  simpl in Hin.
  destruct Hin as [<- | [<- | [<- | [<- | []]]]];
    injection E as -> ->; injection Hn as ->;
    vm_compute; repeat split; reflexivity.
Qed.

Lemma occurrences_from_spec (m : matcher) (s : jsstring) :
  forall pos prev p x,
    In (p, x) (occurrences_from m pos prev s) <->
    exists pre post n,
      s = pre ++ post /\ post <> [] /\ p = pos + len pre
      /\ m (prev_after prev pre) post = Some (S n) /\ x = firstn (S n) post.
Proof.
  induction s as [|c s IH]; intros pos prev p x.
  - simpl. split; [contradiction|].
    intros (pre & post & n & E & Hne & _). destruct pre, post; try discriminate.
    contradiction.
  - assert (Htail : In (p, x) (occurrences_from m (pos + 1) (Some c) s) <->
                    exists pre post n,
                      c :: s = (c :: pre) ++ post /\ post <> []
                      /\ p = pos + len (c :: pre)
                      /\ m (prev_after prev (c :: pre)) post = Some (S n)
                      /\ x = firstn (S n) post).
    { rewrite IH. split; intros (pre & post & n & E & Hne & P & M & X);
        exists pre, post, n; rewrite prev_after_cons, len_cons in *.
      - subst s. repeat split; auto. lia.
      - injection E as E. repeat split; auto. lia. }
    cbn [occurrences_from]. split.
    + intros H.
      assert (Hcase : (exists n, m prev (c :: s) = Some (S n)
                                 /\ (p, x) = (pos, firstn (S n) (c :: s)))
                      \/ In (p, x) (occurrences_from m (pos + 1) (Some c) s)).
      { destruct (m prev (c :: s)) as [[|n]|]; auto.
        destruct H as [H | H]; [left; exists n; auto | auto]. }
      destruct Hcase as [(n & M & E) | Ht].
      * injection E as -> ->. exists [], (c :: s), n.
        repeat split; auto; try discriminate. unfold len. simpl. lia.
      * apply Htail in Ht as (pre & post & n & E & Hne & P & M & X).
        exists (c :: pre), post, n. auto.
    + intros (pre & post & n & E & Hne & P & M & X).
      destruct pre as [|c' pre].
      * simpl in E. subst post. unfold prev_after in M. cbn [last] in M.
        rewrite M. cbn [In]. left. subst p x. unfold len. cbn [length].
        f_equal. lia.
      * injection E as <- E.
        assert (Ht : In (p, x) (occurrences_from m (pos + 1) (Some c) s)).
        { apply Htail. exists pre, post, n. subst s. auto. }
        destruct (m prev (c :: s)) as [[|k]|];
          [exact Ht | right; exact Ht | exact Ht].
Qed.

Lemma word_span s :
  exists w rest, s = w ++ rest /\ all_word w = true /\ starts_nonword rest = true.
Proof.
  induction s as [|d t (w & rest & -> & Hw & Hr)].
  - exists [], []. auto.
  - destruct (is_word d) eqn:Hd.
    + exists (d :: w), rest. simpl. rewrite Hd. auto.
    + exists [], (d :: w ++ rest). unfold starts_nonword. simpl.
      rewrite Hd. auto.
Qed.

Lemma is_keyword_word x : is_keyword x = true -> all_word x = true /\ x <> [].
Proof.
  unfold is_keyword, arr_includes. intros H.
  apply existsb_exists in H as (k & Hin & E). apply str_eqb_eq in E.
  assert (W : all_word (toUpperCase x) = true /\ toUpperCase x <> []).
  { rewrite E. simpl in Hin.
    destruct Hin as [<- | [<- | [<- | [<- | [<- | [<- | [<- | []]]]]]]];
      split; (reflexivity || discriminate). }
  rewrite is_keyword_plain, all_word_map_upper in W
    by (unfold is_keyword, arr_includes; apply existsb_exists; exists k;
        split; [exact Hin | apply str_eqb_eq; exact E]).
  destruct W as [W N]. split; [exact W|].
  intros ->. apply N. reflexivity.
Qed.

Lemma app_same_length {A : Type} (a b c d : list A) :
  a ++ b = c ++ d -> length a = length c -> a = c /\ b = d.
Proof.
  revert c. induction a as [|x a IH]; intros [|y c] E L; try discriminate L.
  - auto.
  - simpl in E. injection E as -> E. simpl in L. injection L as L.
    destruct (IH c E L) as [-> ->]. auto.
Qed.

(** Where the keyword pattern matches: at the start of a maximal run of
    word characters that is a keyword, and it takes the whole run. *)
Lemma keywordPattern_spec prev s n :
  s <> [] ->
  (keywordPattern prev s = Some (S n) <->
   exists x post,
     s = x ++ post /\ length x = S n /\ is_keyword x = true
     /\ is_word_opt prev = false /\ starts_nonword post = true).
Proof.
  intros Hne. destruct s as [|c t]; [contradiction|]. split.
  - intros H. destruct (is_word c) eqn:Hc.
    2:{ rewrite keywordPattern_nonword in H by assumption. discriminate. }
    destruct (is_word_opt prev) eqn:Hp.
    1:{ rewrite keywordPattern_inside in H by assumption. discriminate. }
    destruct (word_span t) as (w & rest & -> & Hw & Hr).
    rewrite keywordPattern_run in H by assumption.
    destruct (is_keyword (c :: w)) eqn:K; [|discriminate]. injection H as <-.
    exists (c :: w), rest. auto.
  - intros (x & post & E & L & K & Hp & Hr).
    destruct (is_keyword_word x K) as [W _].
    destruct x as [|c' w]; [discriminate L|]. injection E as <- ->.
    simpl in W. apply andb_true_iff in W as [Hc Hw].
    rewrite keywordPattern_run, K by assumption. simpl in L. congruence.
Qed.

Lemma literal_self alt post : literal false alt (alt ++ post) = true.
Proof.
  induction alt as [|a alt IH]; [reflexivity|].
  simpl. rewrite char_eqb_refl. exact IH.
Qed.

Lemma try_alternative_self prev alt post :
  try_alternative false prev (alt ++ post) alt
  = if word_boundary (prev_after prev alt) post then Some (length alt) else None.
Proof.
  unfold try_alternative.
  rewrite literal_self, firstn_length_app, skipn_length_app. reflexivity.
Qed.

Lemma try_alternative_mismatch ci prev s alt :
  literal ci alt s = false -> try_alternative ci prev s alt = None.
Proof. intros H. unfold try_alternative. rewrite H. reflexivity. Qed.

Lemma word_boundary_end prev x post :
  is_word_opt (last x) = true ->
  word_boundary (prev_after prev x) post = starts_nonword post.
Proof.
  unfold word_boundary, starts_nonword, prev_after.
  destruct (last x) as [c|]; [|discriminate]. intros H. rewrite H. reflexivity.
Qed.

Lemma fieldPattern_spec prev s n :
  fieldPattern prev s = Some (S n) <->
  exists x post,
    s = x ++ post /\ length x = S n /\ In x fieldPaths
    /\ is_word_opt prev = false /\ starts_nonword post = true.
Proof.
  split.
  - intros H. unfold fieldPattern, bounded_alternation in H.
    destruct (word_boundary prev s) eqn:B; [|discriminate].
    apply first_alternative_some in H as (alt & Hin & H).
    apply try_alternative_exact in H as (Hn & rest & -> & B').
    exists alt, rest. split; [reflexivity|]. split; [auto|]. split; [exact Hin|].
    simpl in Hin.
    destruct Hin as [<- | [<- | [<- | [<- | []]]]];
      (split;
       [ unfold word_boundary in B; simpl in B;
         destruct (is_word_opt prev); [discriminate B | reflexivity]
       | rewrite word_boundary_end in B' by reflexivity; exact B' ]).
  - intros (x & post & -> & L & Hin & Hp & Hr).
    unfold fieldPattern, bounded_alternation, fieldPaths.
    cbn [map first_alternative]. simpl in Hin.
    destruct Hin as [<- | [<- | [<- | [<- | []]]]]; injection L as <-;
      (replace (word_boundary prev _) with true
         by (unfold word_boundary; rewrite Hp; reflexivity));
      repeat (rewrite try_alternative_mismatch by reflexivity);
      rewrite try_alternative_self, word_boundary_end, Hr by reflexivity;
      reflexivity.
Qed.

Lemma whole_word_occurrence (m : matcher) (good : jsstring -> Prop) :
  (forall x, good x -> x <> []) ->
  (forall prev s n,
      s <> [] ->
      (m prev s = Some (S n) <->
       exists x post,
         s = x ++ post /\ length x = S n /\ good x
         /\ is_word_opt prev = false /\ starts_nonword post = true)) ->
  forall line p x,
    In (p, x) (occurrences m line) <-> whole_word line p x /\ good x.
Proof.
  intros Hgood Hm line p x. unfold occurrences. rewrite occurrences_from_spec.
  split.
  - intros (pre & post' & n & E & Hne & P & M & X).
    apply (Hm _ _ _ Hne) in M as (x' & post & -> & L & G & Hp & Hr).
    rewrite <- L, firstn_length_app in X. subst x'.
    rewrite prev_after_start in Hp.
    split; [|exact G]. exists pre, post. repeat split; auto; lia.
  - intros ((pre & post & E & P & Hp & Hr) & G).
    pose proof (Hgood x G) as Hx.
    destruct x as [|c w]; [contradiction|].
    exists pre, ((c :: w) ++ post), (length w).
    repeat split; auto; try discriminate; try lia.
    + apply Hm; [discriminate|]. exists (c :: w), post.
      rewrite prev_after_start. auto.
    + change (S (length w)) with (length (c :: w)).
      rewrite firstn_length_app. reflexivity.
Qed.

Lemma keyword_occurrences line p x :
  In (p, x) (occurrences keywordPattern line)
  <-> whole_word line p x /\ is_keyword x = true.
Proof.
  apply (whole_word_occurrence keywordPattern (fun x => is_keyword x = true)).
  - intros y K. apply (is_keyword_word y K).
  - intros prev s n Hne. apply keywordPattern_spec. exact Hne.
Qed.

Lemma field_occurrences line p x :
  In (p, x) (occurrences fieldPattern line)
  <-> whole_word line p x /\ In x fieldPaths.
Proof.
  apply (whole_word_occurrence fieldPattern (fun x => In x fieldPaths)).
  - intros y Hin. simpl in Hin.
    destruct Hin as [<- | [<- | [<- | [<- | []]]]]; discriminate.
  - intros prev s n _. apply fieldPattern_spec.
Qed.

(** The positions of the occurrences increase: no position is reported
    twice. *)
Lemma occurrences_from_positions (m : matcher) (s : jsstring) :
  forall pos prev,
    Forall (fun o => pos <= fst o) (occurrences_from m pos prev s)
    /\ List.NoDup (map fst (occurrences_from m pos prev s)).
Proof.
  induction s as [|c s IH]; intros pos prev; [split; constructor|].
  destruct (IH (pos + 1) (Some c)) as [F N].
  assert (F' : Forall (fun o => pos <= fst o)
                 (occurrences_from m (pos + 1) (Some c) s)).
  { apply List.Forall_forall. intros o Ho.
    rewrite List.Forall_forall in F. specialize (F o Ho). lia. }
  cbn [occurrences_from]. destruct (m prev (c :: s)) as [[|n]|]; auto.
  split.
  - constructor; [simpl; lia | exact F'].
  - cbn [map fst]. constructor; [|exact N]. intros Hin.
    apply in_map_iff in Hin as (o & E & Ho).
    rewrite List.Forall_forall in F. specialize (F _ Ho). lia.
Qed.

(** ** [indexOf] *)

Lemma startsWith_spec p s : startsWith p s = true <-> exists post, s = p ++ post.
Proof.
  revert s. induction p as [|a p IH]; intros s.
  - split; [exists s; reflexivity | reflexivity].
  - destruct s as [|c s]; simpl.
    + split; [discriminate | intros (post & E); discriminate].
    + rewrite andb_true_iff, char_eqb_eq, IH. split.
      * intros (-> & post & ->). exists post. reflexivity.
      * intros (post & E). injection E as -> ->. eauto.
Qed.

(** [indexOf] returns the first position at which the text occurs. *)
Lemma indexOf_from_first (x : jsstring) (s : jsstring) :
  forall i pre post,
    s = pre ++ x ++ post ->
    exists pre0 post0,
      s = pre0 ++ x ++ post0
      /\ indexOf_from i x s = i + len pre0
      /\ forall pre' post', s = pre' ++ x ++ post' -> len pre0 <= len pre'.
Proof.
  induction s as [|c s IH]; intros i pre post E.
  - destruct pre; [|discriminate]. simpl in E.
    exists [], post. simpl. rewrite <- E.
    assert (H : startsWith x [] = true) by (apply startsWith_spec; eauto).
    rewrite H. repeat split; [unfold len; simpl; lia|].
    intros pre' post' _. unfold len. simpl. lia.
  - cbn [indexOf_from]. destruct (startsWith x (c :: s)) eqn:H.
    + apply startsWith_spec in H as (post0 & H).
      exists [], post0. repeat split; [exact H | unfold len; simpl; lia|].
      intros pre' post' _. unfold len. simpl. lia.
    + destruct pre as [|c' pre].
      { exfalso. assert (H' : startsWith x (c :: s) = true)
          by (apply startsWith_spec; eauto). congruence. }
      injection E as <- E.
      destruct (IH (i + 1) pre post E) as (pre0 & post0 & E0 & I0 & M0).
      exists (c :: pre0), post0. rewrite I0, len_cons.
      repeat split; [rewrite E0; reflexivity | lia|].
      intros pre' post' E'. destruct pre' as [|c'' pre'].
      { exfalso. assert (H' : startsWith x (c :: s) = true)
          by (apply startsWith_spec; eauto). congruence. }
      injection E' as _ E'. specialize (M0 _ _ E'). rewrite !len_cons. lia.
Qed.

(** ** Document symbols *)

Lemma forEach_from_ext {A B : Type} (f g : A -> Z -> list B) (arr : list A) :
  (forall x j, f x j = g x j) ->
  forall i, forEach_from i f arr = forEach_from i g arr.
Proof.
  intros H. induction arr as [|a arr IH]; intros i; [reflexivity|].
  simpl. rewrite H, IH. reflexivity.
Qed.

Lemma lineSymbols_by_occurrence docUri line i :
  lineSymbols docUri line i = symbolsByOccurrence docUri line i.
Proof.
  unfold lineSymbols, symbolsByOccurrence.
  rewrite (matchAll_occurrences _ _ keywordPattern_non_overlapping),
    (matchAll_occurrences _ _ fieldPattern_non_overlapping).
  reflexivity.
Qed.

Lemma indexOf_first line p x :
  whole_word line p x ->
  exists pre0 post0,
    line = pre0 ++ x ++ post0 /\ indexOf line x = len pre0 /\ len pre0 <= p
    /\ forall pre' post', line = pre' ++ x ++ post' -> len pre0 <= len pre'.
Proof.
  intros (pre & post & E & P & _).
  destruct (indexOf_from_first x line 0 pre post E) as (pre0 & post0 & E0 & I0 & M0).
  exists pre0, post0. unfold indexOf. rewrite I0.
  repeat split; auto. rewrite <- P. apply (M0 _ _ E).
Qed.


(** * Further properties *)

(** ** The diagnostics of a text, line by line *)

Lemma split_app sep a b :
  split sep (a ++ sep :: b) = split sep a ++ split sep b.
Proof.
  induction a as [|c a IH]; cbn [app split].
  - rewrite char_eqb_refl. reflexivity.
  - rewrite IH. destruct (char_eqb c sep); [reflexivity|].
    destruct (split_cons sep a) as (p & r & ->). reflexivity.
Qed.

Lemma forEach_from_app {A B : Type} (f : A -> Z -> list B) (x y : list A) :
  forall i,
    forEach_from i f (x ++ y)
    = forEach_from i f x ++ forEach_from (i + Z.of_nat (length x)) f y.
Proof.
  induction x as [|a x IH]; intros i.
  - simpl. rewrite Z.add_0_r. reflexivity.
  - cbn [app forEach_from length]. rewrite IH, <- app_assoc.
    replace (i + Z.of_nat (S (length x))) with (i + 1 + Z.of_nat (length x))
      by lia.
    reflexivity.
Qed.

Lemma forEach_from_shift {A B : Type} (f : A -> Z -> list B) (g : B -> B) k :
  (forall x j, f x (j + k) = map g (f x j)) ->
  forall arr i, forEach_from (i + k) f arr = map g (forEach_from i f arr).
Proof.
  intros H. induction arr as [|a arr IH]; intros i; [reflexivity|].
  cbn [forEach_from]. rewrite map_app, H, <- IH.
  replace (i + k + 1) with (i + 1 + k) by lia. reflexivity.
Qed.

Ltac split_tests :=
  repeat (match goal with
          | |- context [if ?b then _ else _] => destruct b
          end; cbn [andb orb negb]; cbv iota).

Lemma debounced_checkLine_shift l j k :
  Debounced.checkLine l (j + k) = map (shift_lines k) (Debounced.checkLine l j).
Proof.
  unfold Debounced.checkLine. cbv zeta.
  destruct (skipped (trim l)); [reflexivity|].
  rewrite !map_app. split_tests; reflexivity.
Qed.

Lemma immediate_checkLine_shift l j k :
  Immediate.checkLine l (j + k) = map (shift_lines k) (Immediate.checkLine l j).
Proof.
  unfold Immediate.checkLine. cbv zeta.
  destruct (skipped (trim l)); [reflexivity|].
  rewrite !map_app. split_tests; reflexivity.
Qed.

Lemma forEach_joined {B : Type} (f : jsstring -> Z -> list B) (g : Z -> B -> B) :
  (forall k x j, f x (j + k) = map (g k) (f x j)) ->
  forall a b,
    forEach f (split LF (a ++ LF :: b))
    = forEach f (split LF a)
      ++ map (g (arr_length (split LF a))) (forEach f (split LF b)).
Proof.
  intros H a b. unfold forEach, arr_length.
  rewrite split_app, forEach_from_app.
  rewrite (forEach_from_shift f (g (Z.of_nat (length (split LF a))))); auto.
Qed.

(** X1.  Validation is local to the lines: the diagnostics of two texts
    joined by a line feed are the diagnostics of the first text followed by
    those of the second, moved down by the number of lines of the first; in
    particular a line feed at the end of the text adds nothing.  Both
    variants of [doValidate]. *)
Theorem diagnostics_of_joined_texts (a b : jsstring) :
  Debounced.diagnosticsOf (a ++ LF :: b)
  = Debounced.diagnosticsOf a
    ++ map (shift_lines (arr_length (split LF a))) (Debounced.diagnosticsOf b)
  /\ Immediate.diagnosticsOf (a ++ LF :: b)
     = Immediate.diagnosticsOf a
       ++ map (shift_lines (arr_length (split LF a))) (Immediate.diagnosticsOf b)
  /\ Debounced.diagnosticsOf (a ++ [LF]) = Debounced.diagnosticsOf a
  /\ Immediate.diagnosticsOf (a ++ [LF]) = Immediate.diagnosticsOf a.
Proof.
  assert (D := forEach_joined Debounced.checkLine shift_lines
                 (fun k x j => debounced_checkLine_shift x j k)).
  assert (I := forEach_joined Immediate.checkLine shift_lines
                 (fun k x j => immediate_checkLine_shift x j k)).
  unfold Debounced.diagnosticsOf, Immediate.diagnosticsOf.
  split; [apply D|]. split; [apply I|].
  split; [rewrite D | rewrite I]; apply app_nil_r.
Qed.

(** ** Order and number of the diagnostics *)

Lemma nondecreasing_app xs ys :
  nondecreasing xs = true -> nondecreasing ys = true ->
  (forall x y, In x xs -> In y ys -> x <= y) ->
  nondecreasing (xs ++ ys) = true.
Proof.
  induction xs as [|a xs IH]; intros Hx Hy H; [exact Hy|].
  destruct xs as [|a' xs].
  - destruct ys as [|b ys]; [reflexivity|].
    change (nondecreasing ([a] ++ b :: ys))
      with ((a <=? b) && nondecreasing (b :: ys)).
    rewrite Hy, andb_true_r. apply Z.leb_le, H; simpl; auto.
  - cbn [nondecreasing] in Hx. apply andb_true_iff in Hx as [Ha Hx].
    change (nondecreasing ((a :: a' :: xs) ++ ys))
      with ((a <=? a') && nondecreasing ((a' :: xs) ++ ys)).
    rewrite Ha. apply IH; [exact Hx | exact Hy |].
    intros x y Hin. apply H. right. exact Hin.
Qed.

Lemma nondecreasing_constant zs j :
  (forall z, In z zs -> z = j) -> nondecreasing zs = true.
Proof.
  induction zs as [|a zs IH]; intros H; [reflexivity|].
  destruct zs as [|b zs]; [reflexivity|].
  change (nondecreasing (a :: b :: zs))
    with ((a <=? b) && nondecreasing (b :: zs)).
  rewrite IH by (intros z Hz; apply H; right; exact Hz).
  rewrite (H a), (H b) by (simpl; auto). rewrite Z.leb_refl. reflexivity.
Qed.

Lemma forEach_from_nondecreasing {A B : Type} (f : A -> Z -> list B)
  (tag : B -> Z) :
  (forall x j y, In y (f x j) -> tag y = j) ->
  forall arr i, nondecreasing (map tag (forEach_from i f arr)) = true.
Proof.
  intros Htag. induction arr as [|a arr IH]; intros i; [reflexivity|].
  cbn [forEach_from]. rewrite map_app. apply nondecreasing_app.
  - apply (nondecreasing_constant _ i). intros z Hz.
    apply in_map_iff in Hz as (y & <- & Hy). eauto.
  - apply IH.
  - intros x y Hx Hy.
    apply in_map_iff in Hx as (x' & <- & Hx).
    apply in_map_iff in Hy as (y' & <- & Hy).
    apply in_forEach_from in Hy as (k & x0 & _ & Hy).
    rewrite (Htag _ _ _ Hx), (Htag _ _ _ Hy). lia.
Qed.

Lemma debounced_line_of l j d : In d (Debounced.checkLine l j) -> line_of d = j.
Proof. intros H. apply (debounced_checkLine_shape l j d H). Qed.

Lemma immediate_line_of l j d : In d (Immediate.checkLine l j) -> line_of d = j.
Proof. intros H. apply (immediate_checkLine_shape l j d H). Qed.

(** X2.  The diagnostics are published in the order of the lines: the line
    numbers of the list never decrease.  Both variants of [doValidate]. *)
Theorem diagnostics_follow_the_lines (text : jsstring) :
  nondecreasing (map line_of (Debounced.diagnosticsOf text)) = true
  /\ nondecreasing (map line_of (Immediate.diagnosticsOf text)) = true.
Proof.
  split.
  - apply forEach_from_nondecreasing. exact debounced_line_of.
  - apply forEach_from_nondecreasing. exact immediate_line_of.
Qed.

Lemma forEach_from_per_index {A B : Type} (f : A -> Z -> list B) (tag : B -> Z)
  (p : B -> bool) (n : nat) :
  (forall x j y, In y (f x j) -> tag y = j) ->
  (forall x j, (length (List.filter p (f x j)) <= n)%nat) ->
  forall arr i0 i,
    (length (List.filter (fun y => (tag y =? i)%Z && p y) (forEach_from i0 f arr))
     <= n)%nat.
Proof.
  intros Htag Hn. induction arr as [|a arr IH]; intros i0 i; [simpl; lia|].
  cbn [forEach_from]. rewrite List.filter_app, length_app.
  destruct (Z.eq_dec i i0) as [->|Hne].
  - rewrite (filter_all_false _ (forEach_from (i0 + 1) f arr)).
    + rewrite (List.filter_ext_in _ p).
      * specialize (Hn a i0). simpl. lia.
      * intros y Hy. rewrite (Htag _ _ _ Hy), Z.eqb_refl. reflexivity.
    + intros y Hy. apply in_forEach_from in Hy as (k & x & _ & Hy).
      rewrite (Htag _ _ _ Hy). apply andb_false_iff. left.
      apply Z.eqb_neq. lia.
  - rewrite (filter_all_false _ (f a i0)).
    + simpl. apply IH.
    + intros y Hy. rewrite (Htag _ _ _ Hy). apply andb_false_iff. left.
      apply Z.eqb_neq. lia.
Qed.

Lemma forEach_from_length {A B : Type} (f : A -> Z -> list B) (n : nat) :
  (forall x j, (length (f x j) <= n)%nat) ->
  forall arr i, (length (forEach_from i f arr) <= n * length arr)%nat.
Proof.
  intros Hn. induction arr as [|a arr IH]; intros i; [simpl; lia|].
  cbn [forEach_from length]. rewrite length_app.
  specialize (Hn a i). specialize (IH (i + 1)). lia.
Qed.

(** The tests on the first word, once the word is known. *)
Ltac known_word :=
  repeat match goal with
         | |- context [arr_includes validStartKeywords (str ?k)] =>
             let v := eval vm_compute in (arr_includes validStartKeywords (str k)) in
             change (arr_includes validStartKeywords (str k)) with v
         | |- context [str_eqb (str ?a) (str ?b)] =>
             let v := eval vm_compute in (str_eqb (str a) (str b)) in
             change (str_eqb (str a) (str b)) with v
         end;
  cbn [andb orb negb]; cbv iota.

(** The case analysis of the first word: one of the three statements with a
    rule of their own, or any other word. *)
Ltac first_word_cases fw :=
  destruct (str_eqb fw (str "INDEX")) eqn:?E1;
  [ apply str_eqb_eq in E1; subst fw
  | destruct (str_eqb fw (str "FILTER")) eqn:?E2;
    [ apply str_eqb_eq in E2; subst fw
    | destruct (str_eqb fw (str "MAP")) eqn:?E3;
      [ apply str_eqb_eq in E3; subst fw | ] ] ];
  known_word.

Lemma debounced_checkLine_count l j :
  (length (Debounced.checkLine l j) <= 2)%nat
  /\ (length (List.filter statement_rules (Debounced.checkLine l j)) <= 1)%nat
  /\ (length (List.filter (has_message msg_unmatched_quotes)
                (Debounced.checkLine l j)) <= 1)%nat.
Proof.
  unfold Debounced.checkLine. cbv zeta.
  destruct (skipped (trim l)); [simpl; lia|].
  generalize (toUpperCase (first_piece (split " " (trim l)))). intros fw.
  first_word_cases fw; split_tests; vm_compute; lia.
Qed.

Lemma immediate_checkLine_count l j :
  (length (Immediate.checkLine l j) <= 2)%nat
  /\ (length (List.filter statement_rules (Immediate.checkLine l j)) <= 1)%nat
  /\ (length (List.filter (has_message msg_unmatched_quotes)
                (Immediate.checkLine l j)) <= 1)%nat.
Proof.
  unfold Immediate.checkLine. cbv zeta.
  destruct (skipped (trim l)); [simpl; lia|].
  generalize (toUpperCase (first_piece (split_ws (trim l)))). intros fw.
  first_word_cases fw; split_tests; vm_compute; lia.
Qed.

Lemma per_line_count (checkLine : jsstring -> Z -> list Diagnostic) :
  (forall l j d, In d (checkLine l j) -> line_of d = j) ->
  (forall l j,
      (length (checkLine l j) <= 2)%nat
      /\ (length (List.filter statement_rules (checkLine l j)) <= 1)%nat
      /\ (length (List.filter (has_message msg_unmatched_quotes)
                    (checkLine l j)) <= 1)%nat) ->
  forall text i,
    (length (List.filter (on_line i) (forEach checkLine (split LF text))) <= 2)%nat
    /\ (length (List.filter (fun d => on_line i d && statement_rules d)
                  (forEach checkLine (split LF text))) <= 1)%nat
    /\ (length (List.filter
                  (fun d => on_line i d && has_message msg_unmatched_quotes d)
                  (forEach checkLine (split LF text))) <= 1)%nat
    /\ (length (forEach checkLine (split LF text))
        <= 2 * length (split LF text))%nat.
Proof.
  intros Hline Hcount text i. split; [|split; [|split]].
  - rewrite (List.filter_ext (on_line i) (fun d => (line_of d =? i) && true)).
    + apply forEach_from_per_index; [exact Hline|].
      intros l j. rewrite filter_all_true by reflexivity. apply Hcount.
    + intros d. unfold on_line. rewrite andb_true_r. reflexivity.
  - apply (forEach_from_per_index checkLine line_of statement_rules 1 Hline).
    intros l j. apply Hcount.
  - apply (forEach_from_per_index checkLine line_of
             (has_message msg_unmatched_quotes) 1 Hline).
    intros l j. apply Hcount.
  - apply forEach_from_length. intros l j. apply Hcount.
Qed.

(** X3.  A line gets at most two diagnostics: at most one from the rules
    on the statement (unknown keyword, INDEX, FILTER, MAP), which exclude
    each other, and at most one on unmatched quotes.  A text of n lines gets
    at most 2n diagnostics.  Both variants of [doValidate]. *)
Theorem at_most_two_diagnostics_per_line (text : jsstring) (i : Z) :
  ((length (List.filter (on_line i) (Debounced.diagnosticsOf text)) <= 2)%nat
   /\ (length (List.filter (fun d => on_line i d && statement_rules d)
                 (Debounced.diagnosticsOf text)) <= 1)%nat
   /\ (length (List.filter
                 (fun d => on_line i d && has_message msg_unmatched_quotes d)
                 (Debounced.diagnosticsOf text)) <= 1)%nat
   /\ (length (Debounced.diagnosticsOf text)
       <= 2 * length (split LF text))%nat)
  /\ ((length (List.filter (on_line i) (Immediate.diagnosticsOf text)) <= 2)%nat
      /\ (length (List.filter (fun d => on_line i d && statement_rules d)
                    (Immediate.diagnosticsOf text)) <= 1)%nat
      /\ (length (List.filter
                    (fun d => on_line i d && has_message msg_unmatched_quotes d)
                    (Immediate.diagnosticsOf text)) <= 1)%nat
      /\ (length (Immediate.diagnosticsOf text)
          <= 2 * length (split LF text))%nat).
Proof.
  split.
  - apply (per_line_count Debounced.checkLine debounced_line_of
             debounced_checkLine_count).
  - apply (per_line_count Immediate.checkLine immediate_line_of
             immediate_checkLine_count).
Qed.

(** ** Characters and substrings under trimming *)

Lemma char_eqb_sym a b : char_eqb a b = char_eqb b a.
Proof.
  destruct (char_eqb a b) eqn:E.
  - apply char_eqb_eq in E. subst. symmetry. apply char_eqb_refl.
  - destruct (char_eqb b a) eqn:E'; [|reflexivity].
    apply char_eqb_eq in E'. subst. rewrite char_eqb_refl in E. discriminate.
Qed.

Lemma includes_char c t : includes [c] t = has_char c t.
Proof.
  induction t as [|a t IH]; [reflexivity|].
  cbn [includes startsWith has_char existsb]. rewrite IH.
  rewrite andb_true_r, (char_eqb_sym c a). reflexivity.
Qed.

Lemma has_char_cons c a t : has_char c (a :: t) = char_eqb a c || has_char c t.
Proof. reflexivity. Qed.

Lemma includes_pair a b t : includes [a; b] t = true -> has_char b t = true.
Proof.
  induction t as [|c t IH]; [discriminate|].
  cbn [includes startsWith]. rewrite has_char_cons. intros H.
  apply orb_true_iff in H as [H | H].
  - apply andb_true_iff in H as [_ H]. destruct t as [|d t]; [discriminate|].
    apply andb_true_iff in H as [H _]. apply char_eqb_eq in H. subst d.
    rewrite has_char_cons, char_eqb_refl. apply orb_true_r.
  - rewrite (IH H). apply orb_true_r.
Qed.

Lemma has_char_blank c b :
  is_space c = false -> forallb is_space b = true -> has_char c b = false.
Proof.
  intros Hc. induction b as [|a b IH]; [reflexivity|].
  cbn [forallb]. rewrite has_char_cons. intros H.
  apply andb_true_iff in H as [Ha Hb]. rewrite (IH Hb), orb_false_r.
  destruct (char_eqb a c) eqn:E; [|reflexivity].
  apply char_eqb_eq in E. congruence.
Qed.

Lemma has_char_trimStart c s :
  is_space c = false -> has_char c (trimStart s) = has_char c s.
Proof.
  intros Hc. induction s as [|a s IH]; [reflexivity|].
  cbn [trimStart]. destruct (is_space a) eqn:Ea; [|reflexivity].
  rewrite IH, has_char_cons.
  destruct (char_eqb a c) eqn:E; [|reflexivity].
  apply char_eqb_eq in E. congruence.
Qed.

Lemma has_char_trimEnd c s :
  is_space c = false -> has_char c (trimEnd s) = has_char c s.
Proof.
  intros Hc. destruct (trimEnd_decomposition s) as (b & E & Hb).
  rewrite E at 2. unfold has_char. rewrite existsb_app.
  fold (has_char c b). rewrite (has_char_blank c b Hc Hb).
  symmetry. apply orb_false_r.
Qed.

Lemma has_char_trim c l : is_space c = false -> has_char c (trim l) = has_char c l.
Proof.
  intros Hc. unfold trim. rewrite has_char_trimEnd, has_char_trimStart; auto.
Qed.

Lemma startsWith_app_blank p x b :
  space_free p = true -> forallb is_space b = true ->
  startsWith p (x ++ b) = startsWith p x.
Proof.
  intros Hp Hb. revert x Hp. induction p as [|a p IH]; intros x Hp;
    [reflexivity|].
  cbn [space_free forallb] in Hp. apply andb_true_iff in Hp as [Ha Hp].
  destruct x as [|y x].
  - cbn [app startsWith]. destruct b as [|c b]; [reflexivity|].
    cbn [forallb] in Hb. apply andb_true_iff in Hb as [Hc _].
    cbn [startsWith]. destruct (char_eqb a c) eqn:E; [|reflexivity].
    apply char_eqb_eq in E. subst c. rewrite Hc in Ha. discriminate.
  - cbn [app startsWith]. rewrite (IH x Hp). reflexivity.
Qed.

Lemma includes_app_blank p x b :
  p <> [] -> space_free p = true -> forallb is_space b = true ->
  includes p (x ++ b) = includes p x.
Proof.
  intros Hne Hp Hb. induction x as [|y x IH].
  - cbn [app]. destruct p as [|a p]; [contradiction|].
    cbn [includes startsWith]. clear Hne.
    induction b as [|c b IHb]; [reflexivity|].
    cbn [forallb] in Hb. apply andb_true_iff in Hb as [Hc Hb].
    cbn [includes startsWith]. rewrite (IHb Hb), orb_false_r.
    cbn [space_free forallb] in Hp. apply andb_true_iff in Hp as [Ha _].
    destruct (char_eqb a c) eqn:E; [|reflexivity].
    apply char_eqb_eq in E. subst c. rewrite Hc in Ha. discriminate.
  - change ((y :: x) ++ b) with (y :: (x ++ b)).
    cbn [includes]. rewrite IH.
    change (y :: (x ++ b)) with ((y :: x) ++ b).
    rewrite (startsWith_app_blank p (y :: x) b Hp Hb). reflexivity.
Qed.

Lemma includes_trimStart p s :
  p <> [] -> space_free p = true -> includes p (trimStart s) = includes p s.
Proof.
  intros Hne Hp. destruct p as [|a p]; [contradiction|].
  cbn [space_free forallb] in Hp. apply andb_true_iff in Hp as [Ha _].
  induction s as [|c s IH]; [reflexivity|].
  cbn [trimStart]. destruct (is_space c) eqn:Ec; [|reflexivity].
  rewrite IH. cbn [includes startsWith].
  destruct (char_eqb a c) eqn:E; [|reflexivity].
  apply char_eqb_eq in E. subst c. rewrite Ec in Ha. discriminate.
Qed.

Lemma includes_trim p l :
  p <> [] -> space_free p = true -> includes p (trim l) = includes p l.
Proof.
  intros Hne Hp. unfold trim.
  destruct (trimEnd_decomposition (trimStart l)) as (b & E & Hb).
  rewrite <- (includes_trimStart p l Hne Hp). rewrite E at 2.
  symmetry. apply includes_app_blank; assumption.
Qed.

Lemma hasCondition_spec t : hasCondition t = negb (comparison_free t).
Proof.
  unfold hasCondition, comparison_free. rewrite negb_involutive.
  change (str ">") with [">"%char]. change (str "<") with ["<"%char].
  change (str "=") with ["="%char]. change (str "!=") with ["!"%char; "="%char].
  rewrite !includes_char.
  destruct (includes ["!"%char; "="%char] t) eqn:E; [|apply orb_false_r].
  rewrite (includes_pair _ _ _ E), !orb_true_r. reflexivity.
Qed.

Lemma comparison_free_trim l : comparison_free (trim l) = comparison_free l.
Proof. unfold comparison_free. rewrite !has_char_trim; reflexivity. Qed.

(** ** The first word of the debouncing variant *)

Lemma not_the_space c : is_space c = false -> char_eqb c " " = false.
Proof. ascii_cases c. Qed.

Lemma hd_cons_head c pieces : hd [] (cons_head c pieces) = c :: hd [] pieces.
Proof. destruct pieces; reflexivity. Qed.

Lemma first_piece_cons sep c r :
  char_eqb c sep = false ->
  first_piece (split sep (c :: r)) = c :: first_piece (split sep r).
Proof.
  intros H. cbn [split]. rewrite H.
  destruct (split_cons sep r) as (p & q & ->). reflexivity.
Qed.

Lemma first_piece_split_space r :
  forall c, spaces_only (c :: r) = true -> is_space c = false ->
    first_piece (split " " (c :: r)) = hd [] (tokens (c :: r)).
Proof.
  induction r as [|d r IH]; intros c Hs Hc.
  - rewrite first_piece_cons by (apply not_the_space; exact Hc).
    rewrite tokens_cons, Hc. reflexivity.
  - rewrite first_piece_cons by (apply not_the_space; exact Hc).
    rewrite tokens_cons, Hc.
    assert (Hs' : spaces_only (d :: r) = true).
    { unfold spaces_only in *. cbn [forallb] in Hs.
      apply andb_true_iff in Hs as [_ Hs]. exact Hs. }
    clear Hs. destruct (is_space d) eqn:Ed.
    + unfold spaces_only in Hs'. cbn [forallb] in Hs'.
      apply andb_true_iff in Hs' as [Hd _].
      rewrite Ed in Hd. cbn [negb orb] in Hd.
      cbn [split]. rewrite Hd. reflexivity.
    + rewrite hd_cons_head. f_equal. apply IH; assumption.
Qed.

Lemma debounced_firstWord l :
  blank l = false -> spaces_only (trim l) = true ->
  toUpperCase (first_piece (split " " (trim l))) = statementKeyword l.
Proof.
  intros Hb Hs. destruct (trim_head l Hb) as (c & r & E & Hc).
  unfold statementKeyword. rewrite <- (tokens_trim l).
  rewrite E in *. f_equal. apply first_piece_split_space; assumption.
Qed.

(** ** The rules on FILTER, on MAP and on quotes *)

Lemma immediate_filter_of_line l j :
  blank l = false -> comment l = false ->
  List.filter (has_message msg_filter_condition) (Immediate.checkLine l j)
  = if str_eqb (statementKeyword l) (str "FILTER") && comparison_free l
    then [diag Error j (len (trim l)) msg_filter_condition] else [].
Proof.
  intros Hb Hc. unfold Immediate.checkLine.
  rewrite skipped_spec, Hb, Hc. simpl orb. cbv iota. cbv zeta.
  rewrite immediate_firstWord by assumption.
  rewrite hasCondition_spec, comparison_free_trim, negb_involutive.
  repeat rewrite List.filter_app.
  generalize (statementKeyword l). intros fw.
  first_word_cases fw; split_tests; reflexivity.
Qed.

Lemma debounced_filter_of_line l j :
  blank l = false -> comment l = false -> spaces_only (trim l) = true ->
  List.filter (has_message msg_filter_condition) (Debounced.checkLine l j)
  = if str_eqb (statementKeyword l) (str "FILTER") && comparison_free l
    then [diag Error j (len l) msg_filter_condition] else [].
Proof.
  intros Hb Hc Hs. unfold Debounced.checkLine.
  rewrite skipped_spec, Hb, Hc. simpl orb. cbv iota. cbv zeta.
  rewrite debounced_firstWord by assumption.
  rewrite hasCondition_spec, comparison_free_trim, negb_involutive.
  repeat rewrite List.filter_app.
  generalize (statementKeyword l). intros fw.
  first_word_cases fw; split_tests; reflexivity.
Qed.

(** X4.  The FILTER rule.  A line that is neither blank nor a comment gets
    the Error on the missing comparison operator exactly when its statement
    keyword is FILTER, in any letter case, and none of the characters [>],
    [<] and [=] occurs anywhere in the line; the test for [!=] adds nothing
    to the test for [=].  The Error ends at the length of the trimmed line
    in the immediate variant and at the length of the raw line in the
    debouncing variant, which is considered here on lines whose white space
    consists of spaces. *)
Theorem filter_statement_rule (text : jsstring) (i : nat) (l : jsstring) :
  nth_error (split LF text) i = Some l ->
  blank l = false -> comment l = false ->
  List.filter (reports msg_filter_condition (Z.of_nat i))
    (Immediate.diagnosticsOf text)
  = (if str_eqb (statementKeyword l) (str "FILTER") && comparison_free l
     then [diag Error (Z.of_nat i) (len (trim l)) msg_filter_condition]
     else [])
  /\ (spaces_only (trim l) = true ->
      List.filter (reports msg_filter_condition (Z.of_nat i))
        (Debounced.diagnosticsOf text)
      = if str_eqb (statementKeyword l) (str "FILTER") && comparison_free l
        then [diag Error (Z.of_nat i) (len l) msg_filter_condition]
        else []).
Proof.
  intros Hi Hb Hc. split.
  - rewrite (immediate_reports _ _ _ _ Hi).
    apply immediate_filter_of_line; assumption.
  - intros Hs. rewrite (debounced_reports _ _ _ _ Hi).
    apply debounced_filter_of_line; assumption.
Qed.

Lemma filter_statement_rule_witness :
  List.filter (reports msg_filter_condition 1)
    (Immediate.diagnosticsOf (str "INDEX users" ++ [LF] ++ str "  filter age ! 25"))
  = [diag Error 1 15 msg_filter_condition]
  /\ List.filter (reports msg_filter_condition 1)
       (Debounced.diagnosticsOf (str "INDEX users" ++ [LF] ++ str "  filter age ! 25"))
     = [diag Error 1 17 msg_filter_condition].
Proof.
  destruct (filter_statement_rule
              (str "INDEX users" ++ [LF] ++ str "  filter age ! 25") 1
              (str "  filter age ! 25") eq_refl eq_refl eq_refl) as [HI HD].
  split; [exact HI | exact (HD eq_refl)].
Defined.

Lemma map_test_trim l :
  negb (includes (str "AS") (trim l)) && negb (includes (str ".") (trim l))
  = map_shapeless l.
Proof.
  unfold map_shapeless.
  rewrite (includes_trim (str "AS")), (includes_trim (str "."))
    by (try discriminate; reflexivity).
  change (str ".") with ["."%char]. rewrite includes_char. reflexivity.
Qed.

Lemma immediate_map_of_line l j :
  blank l = false -> comment l = false ->
  List.filter (has_message msg_map_shape) (Immediate.checkLine l j)
  = if str_eqb (statementKeyword l) (str "MAP") && map_shapeless l
    then [diag Warning j (len (trim l)) msg_map_shape] else [].
Proof.
  intros Hb Hc. unfold Immediate.checkLine.
  rewrite skipped_spec, Hb, Hc. simpl orb. cbv iota. cbv zeta.
  rewrite immediate_firstWord by assumption. rewrite map_test_trim.
  repeat rewrite List.filter_app.
  generalize (statementKeyword l). intros fw.
  first_word_cases fw; split_tests; reflexivity.
Qed.

Lemma debounced_map_of_line l j :
  blank l = false -> comment l = false -> spaces_only (trim l) = true ->
  List.filter (has_message msg_map_shape) (Debounced.checkLine l j)
  = if str_eqb (statementKeyword l) (str "MAP") && map_shapeless l
    then [diag Warning j (len l) msg_map_shape] else [].
Proof.
  intros Hb Hc Hs. unfold Debounced.checkLine.
  rewrite skipped_spec, Hb, Hc. simpl orb. cbv iota. cbv zeta.
  rewrite debounced_firstWord by assumption. rewrite map_test_trim.
  repeat rewrite List.filter_app.
  generalize (statementKeyword l). intros fw.
  first_word_cases fw; split_tests; reflexivity.
Qed.

(** X5.  The MAP rule.  A line that is neither blank nor a comment gets the
    Warning on the shape of a MAP statement exactly when its statement
    keyword is MAP, in any letter case, and the line contains neither a dot
    nor the two letters [AS] in upper case, as a word or inside one.  The
    Warning ends at the length of the trimmed line in the immediate variant
    and at the length of the raw line in the debouncing variant, which is
    considered here on lines whose white space consists of spaces. *)
Theorem map_statement_rule (text : jsstring) (i : nat) (l : jsstring) :
  nth_error (split LF text) i = Some l ->
  blank l = false -> comment l = false ->
  List.filter (reports msg_map_shape (Z.of_nat i)) (Immediate.diagnosticsOf text)
  = (if str_eqb (statementKeyword l) (str "MAP") && map_shapeless l
     then [diag Warning (Z.of_nat i) (len (trim l)) msg_map_shape]
     else [])
  /\ (spaces_only (trim l) = true ->
      List.filter (reports msg_map_shape (Z.of_nat i))
        (Debounced.diagnosticsOf text)
      = if str_eqb (statementKeyword l) (str "MAP") && map_shapeless l
        then [diag Warning (Z.of_nat i) (len l) msg_map_shape]
        else []).
Proof.
  intros Hi Hb Hc. split.
  - rewrite (immediate_reports _ _ _ _ Hi).
    apply immediate_map_of_line; assumption.
  - intros Hs. rewrite (debounced_reports _ _ _ _ Hi).
    apply debounced_map_of_line; assumption.
Qed.

Lemma map_statement_rule_witness :
  List.filter (reports msg_map_shape 0)
    (Immediate.diagnosticsOf (str "map name as alias "))
  = [diag Warning 0 17 msg_map_shape]
  /\ List.filter (reports msg_map_shape 0)
       (Debounced.diagnosticsOf (str "map name as alias "))
     = [diag Warning 0 18 msg_map_shape].
Proof.
  destruct (map_statement_rule (str "map name as alias ") 0
              (str "map name as alias ") eq_refl eq_refl eq_refl) as [HI HD].
  split; [exact HI | exact (HD eq_refl)].
Defined.

Lemma immediate_quotes_of_line l j :
  blank l = false -> comment l = false ->
  List.filter (has_message msg_unmatched_quotes) (Immediate.checkLine l j)
  = if Nat.odd (count_char (ascii_of_N 34) l)
    then [diag Error j (len (trim l)) msg_unmatched_quotes] else [].
Proof.
  intros Hb Hc. unfold Immediate.checkLine.
  rewrite skipped_spec, Hb, Hc. simpl orb. cbv iota. cbv zeta.
  rewrite odd_mod2, quoteCount_trim.
  repeat rewrite List.filter_app.
  generalize (toUpperCase (first_piece (split_ws (trim l)))). intros fw.
  first_word_cases fw; split_tests; reflexivity.
Qed.

(** X6.  The rule on quotes in the immediate variant.  A line that is
    neither blank nor a comment gets the Error on unmatched quotes exactly
    when it holds an odd number of double quotes, once, from column 0 to the
    length of the trimmed line, whatever the other rules report. *)
Theorem immediate_unmatched_quotes (text : jsstring) (i : nat) (l : jsstring) :
  nth_error (split LF text) i = Some l ->
  blank l = false -> comment l = false ->
  List.filter (reports msg_unmatched_quotes (Z.of_nat i))
    (Immediate.diagnosticsOf text)
  = if Nat.odd (count_char (ascii_of_N 34) l)
    then [diag Error (Z.of_nat i) (len (trim l)) msg_unmatched_quotes]
    else [].
Proof.
  intros Hi Hb Hc. rewrite (immediate_reports _ _ _ _ Hi).
  apply immediate_quotes_of_line; assumption.
Qed.

Lemma immediate_unmatched_quotes_witness :
  List.filter (reports msg_unmatched_quotes 1)
    (Immediate.diagnosticsOf
       (str "INDEX users" ++ [LF] ++ str "  FILTER name = "
        ++ [ascii_of_N 34] ++ str "bob  "))
  = [diag Error 1 18 msg_unmatched_quotes].
Proof.
  apply (immediate_unmatched_quotes
           (str "INDEX users" ++ [LF] ++ str "  FILTER name = "
            ++ [ascii_of_N 34] ++ str "bob  ") 1
           (str "  FILTER name = " ++ [ascii_of_N 34] ++ str "bob  "));
    reflexivity.
Defined.

(** ** The two validators side by side *)

Lemma trimEnd_idem s : trimEnd (trimEnd s) = trimEnd s.
Proof.
  induction s as [|c s IH]; [reflexivity|].
  rewrite (trimEnd_cons c s). destruct (trimEnd s) as [|d r] eqn:E.
  - destruct (is_space c) eqn:Ec; [reflexivity|].
    rewrite trimEnd_cons. cbn [trimEnd]. rewrite Ec. reflexivity.
  - rewrite trimEnd_cons, IH. reflexivity.
Qed.

Lemma trim_idem l : trim (trim l) = trim l.
Proof.
  unfold trim at 1. rewrite trimStart_trim. unfold trim. apply trimEnd_idem.
Qed.

Lemma forEach_from_map {A B C : Type} (f : B -> Z -> list C) (g : A -> B)
  (arr : list A) :
  forall i, forEach_from i f (map g arr) = forEach_from i (fun x j => f (g x) j) arr.
Proof.
  induction arr as [|a arr IH]; intros i; [reflexivity|].
  cbn [map forEach_from]. rewrite IH. reflexivity.
Qed.

Lemma forEach_from_ext_in {A B : Type} (f g : A -> Z -> list B) (arr : list A) :
  (forall x j, In x arr -> f x j = g x j) ->
  forall i, forEach_from i f arr = forEach_from i g arr.
Proof.
  induction arr as [|a arr IH]; intros H i; [reflexivity|].
  cbn [forEach_from]. rewrite (H a i) by (left; reflexivity).
  rewrite IH; [reflexivity|]. intros x j Hx. apply H. right. exact Hx.
Qed.

Lemma index_tests_agree l :
  blank l = false -> spaces_only (trim l) = true ->
  str_eqb (statementKeyword l) (str "INDEX") = true ->
  (arr_length (List.filter (fun part => 0 <? len part) (split_ws (trim l))) <? 2)
  || match nth_error
             (List.filter (fun part => 0 <? len part) (split_ws (trim l))) 1 with
     | Some part => str_eqb (trim part) []
     | None => true
     end
  = (arr_length (split " " (trim l)) <? 2).
Proof.
  intros Hb Hs E.
  change (List.filter (fun part => 0 <? len part) (split_ws (trim l)))
    with (List.filter nonempty (split_ws_from false (trim l))).
  rewrite tokens_of_split_ws, immediate_parts_test, tokens_trim.
  pose proof (debounced_index_test (trim l)) as D.
  rewrite debounced_firstWord, E in D by assumption. cbn [andb] in D.
  pose proof (index_without_name_spec l Hb) as I.
  unfold index_without_name in I. rewrite E in I. cbn [andb] in I.
  congruence.
Qed.

Lemma immediate_as_debounced l j :
  spaces_only (trim l) = true ->
  Immediate.checkLine l j = Debounced.checkLine (trim l) j.
Proof.
  intros Hs. unfold Immediate.checkLine, Debounced.checkLine. cbv zeta.
  rewrite trim_idem. destruct (skipped (trim l)) eqn:Hsk; [reflexivity|].
  rewrite skipped_spec in Hsk. apply orb_false_iff in Hsk as [Hb Hc].
  rewrite immediate_firstWord, debounced_firstWord by assumption.
  do 2 f_equal.
  destruct (str_eqb (statementKeyword l) (str "INDEX")) eqn:E; [|reflexivity].
  rewrite index_tests_agree by assumption.
  destruct (trim_head l Hb) as (c & r & -> & _).
  replace (len (c :: r) =? 0) with false; [reflexivity|].
  symmetry. apply Z.eqb_neq. rewrite len_cons. pose proof (len_nonneg r). lia.
Qed.

(** X7.  On a text whose lines hold no white space but spaces between their
    first and last visible characters, the immediate variant reports for
    every line what the debouncing variant reports for the trimmed line;
    when in addition no line has leading or trailing white space, the two
    variants of [doValidate] publish the same diagnostics. *)
Theorem variants_agree_on_spaced_text (text : jsstring) :
  forallb (fun l => spaces_only (trim l)) (split LF text) = true ->
  Immediate.diagnosticsOf text
  = forEach Debounced.checkLine (map trim (split LF text))
  /\ (forallb (fun l => str_eqb (trim l) l) (split LF text) = true ->
      Immediate.diagnosticsOf text = Debounced.diagnosticsOf text).
Proof.
  intros H. rewrite forallb_forall in H.
  assert (E : Immediate.diagnosticsOf text
              = forEach Debounced.checkLine (map trim (split LF text))).
  { unfold Immediate.diagnosticsOf, forEach. rewrite forEach_from_map.
    apply forEach_from_ext_in. intros l j Hl.
    apply immediate_as_debounced, H, Hl. }
  split; [exact E|]. intros T. rewrite forallb_forall in T.
  rewrite E. unfold Debounced.diagnosticsOf. f_equal.
  rewrite <- (map_id (split LF text)) at 2. apply map_ext_in.
  intros l Hl. apply str_eqb_eq, T, Hl.
Qed.

Lemma variants_agree_on_spaced_text_witness :
  Immediate.diagnosticsOf
    (str "INDEX" ++ [LF] ++ str "FILTER age  25" ++ [LF] ++ str "// done")
  = Debounced.diagnosticsOf
      (str "INDEX" ++ [LF] ++ str "FILTER age  25" ++ [LF] ++ str "// done").
Proof.
  destruct (variants_agree_on_spaced_text
              (str "INDEX" ++ [LF] ++ str "FILTER age  25" ++ [LF] ++ str "// done")
              eq_refl) as [_ H].
  exact (H eq_refl).
Defined.

(** ** Closing a document *)

Lemma clean_pending_trace (d : TextDocument) (s : Server) :
  validated (cleanPendingValidation d s) = validated s
  /\ sent (cleanPendingValidation d s) = sent s
  /\ now (cleanPendingValidation d s) = now s
  /\ (length (timers (cleanPendingValidation d s)) <= length (timers s))%nat
  /\ (timers s = [] -> timers (cleanPendingValidation d s) = []).
Proof.
  unfold cleanPendingValidation.
  destruct (pendingValidationRequests s !! uri d); simpl.
  - repeat split; try reflexivity.
    + apply List.filter_length_le.
    + intros ->. reflexivity.
  - repeat split; auto.
Qed.

Lemma debounced_close (c : TextDocument) (s : Server) :
  consistent s ->
  let s' := DebouncedSession.step s (DidClose c) in
  timers_for (uri c) s' = [] /\ consistent s'
  /\ validated s' = validated s /\ sent s' = sent s ++ [cleared (uri c)]
  /\ now s' = now s.
Proof.
  intros C. cbv zeta. rewrite debounced_step_close.
  destruct (clean_pending c _ (set_documents_consistent
                                 (delete (uri c) (documents s)) s C))
    as (T & C' & _ & V & S' & N).
  unfold cleanDiagnostics.
  set (s1 := cleanPendingValidation c _) in *.
  split; [exact T|].
  split; [destruct C' as [? ? ? ?]; constructor; assumption|].
  split; [exact V|]. split; [|exact N].
  cbn [sent sendNotification]. rewrite S'. reflexivity.
Qed.

Lemma sent_for_snoc u s n :
  List.filter (fun m => String.eqb (pd_uri m) u) (s ++ [n])
  = List.filter (fun m => String.eqb (pd_uri m) u) s
    ++ (if String.eqb (pd_uri n) u then [n] else []).
Proof. rewrite List.filter_app. reflexivity. Qed.

Lemma elapse_idle diagnosticsOf (n : nat) (s : Server) :
  timers s = [] ->
  timers (elapse diagnosticsOf n s) = []
  /\ validated (elapse diagnosticsOf n s) = validated s
  /\ sent (elapse diagnosticsOf n s) = sent s.
Proof.
  revert s. induction n as [|n IH]; intros s H; [auto|].
  cbn [elapse].
  destruct (tick_fields diagnosticsOf s) as (H1 & _ & _ & _ & H5 & H6 & _).
  unfold due_now in *. rewrite H in H1, H5, H6. simpl in H1, H5, H6.
  rewrite app_nil_r in H5, H6.
  destruct (IH _ H1) as (T & V & S'). rewrite T, V, S', H5, H6. auto.
Qed.

(** X8.  Closing a document cancels its pending validation.  In the
    debouncing variant, a change followed less than 500 ms later by the
    close of the document is never validated, however long the server then
    waits: the only notification published for the document is the empty
    list that clears its diagnostics, and no timeout stays armed for it.  In
    the immediate variant the change has been validated by then, and the
    diagnostics of the text are published and then cleared. *)
Theorem closing_cancels_the_pending_validation (events : list Event)
  (d c : TextDocument) (gap wait : nat) :
  uri c = uri d -> (gap < 500)%nat ->
  (let s := DebouncedSession.run initial events in
   let s' := DebouncedSession.run s
               [DidChangeContent d; Elapse gap; DidClose c; Elapse wait] in
   validated_for (uri d) s' = validated_for (uri d) s
   /\ sent_for (uri d) s' = sent_for (uri d) s ++ [cleared (uri d)]
   /\ timers_for (uri d) s' = [])
  /\ (let s := ImmediateSession.run initial events in
      let s' := ImmediateSession.run s
                  [DidChangeContent d; Elapse gap; DidClose c; Elapse wait] in
      validated_for (uri d) s' = validated_for (uri d) s ++ [d]
      /\ sent_for (uri d) s'
         = sent_for (uri d) s
           ++ [notification_of Immediate.diagnosticsOf d; cleared (uri d)]).
Proof.
  intros U Hgap. split; cbv zeta.
  - pose proof (debounced_run_consistent events initial initial_consistent) as C.
    set (s := DebouncedSession.run initial events) in *.
    rewrite !debounced_run_cons, debounced_run_nil, debounced_step_change,
      !debounced_step_elapse.
    set (s0 := set_documents _ s).
    assert (C0 : consistent s0) by (apply set_documents_consistent, C).
    destruct (debounced_validate d s0 C0) as (T1 & C1 & V1 & S1 & N1).
    set (s1 := DebouncedSession.validate d s0) in *.
    destruct (elapse_waiting Debounced.diagnosticsOf (uri d) gap s1 _ T1)
      as (_ & V2 & S2 & N2); [cbn [due]; lia|].
    pose proof (elapse_consistent Debounced.diagnosticsOf gap s1 C1) as C2.
    set (s2 := elapse Debounced.diagnosticsOf gap s1) in *.
    destruct (debounced_close c s2 C2) as (T3 & C3 & V3 & S3 & N3).
    set (s3 := DebouncedSession.step s2 (DidClose c)) in *.
    rewrite U in T3.
    destruct (elapse_quiet Debounced.diagnosticsOf (uri d) wait s3 T3)
      as (T4 & V4 & S4 & _).
    rewrite T4, V4, S4. unfold validated_for, sent_for in *.
    rewrite V3, S3, sent_for_snoc. cbn [cleared pd_uri].
    rewrite U, String.eqb_refl, V2, S2, V1, S1. auto.
  - pose proof (immediate_run_no_timer events initial eq_refl) as T.
    set (s := ImmediateSession.run initial events) in *.
    rewrite !immediate_run_cons, immediate_run_nil, immediate_step_change,
      !immediate_step_elapse.
    set (s0 := set_documents _ s).
    destruct (immediate_validate d s0) as (V1 & S1 & T1).
    specialize (T1 T).
    set (s1 := ImmediateSession.validate d s0) in *.
    destruct (elapse_idle Immediate.diagnosticsOf gap s1 T1) as (T2 & V2 & S2).
    set (s2 := elapse Immediate.diagnosticsOf gap s1) in *.
    set (s3 := ImmediateSession.step s2 (DidClose c)).
    assert (H3 : timers s3 = [] /\ validated s3 = validated s2
                 /\ sent s3 = sent s2 ++ [cleared (uri c)]).
    { unfold s3. cbn [ImmediateSession.step step onDidClose].
      destruct (clean_pending_trace c
                  (set_documents (delete (uri c) (documents s2)) s2))
        as (V & S' & _ & _ & T').
      unfold cleanDiagnostics, sendNotification. cbn.
      rewrite V, S'. repeat split. apply T'. exact T2. }
    destruct H3 as (T3 & V3 & S3).
    destruct (elapse_idle Immediate.diagnosticsOf wait s3 T3) as (_ & V4 & S4).
    unfold validated_for, sent_for. rewrite V4, S4, V3, S3, V2, S2, V1, S1.
    change (validated s0) with (validated s). change (sent s0) with (sent s).
    rewrite !List.filter_app. cbn [List.filter notification_of cleared pd_uri uri].
    rewrite U, !String.eqb_refl, <- app_assoc. auto.
Qed.

Lemma closing_cancels_the_pending_validation_witness :
  let d := {| uri := "file:///q.echo"; getText := str "INDEX" |} in
  let c := {| uri := "file:///q.echo"; getText := [] |} in
  let burst := [DidChangeContent d; Elapse 499; DidClose c; Elapse 1000] in
  sent_for "file:///q.echo" (DebouncedSession.run initial burst)
  = [cleared "file:///q.echo"]
  /\ validated_for "file:///q.echo" (ImmediateSession.run initial burst) = [d].
Proof.
  cbv zeta.
  destruct (closing_cancels_the_pending_validation []
              {| uri := "file:///q.echo"; getText := str "INDEX" |}
              {| uri := "file:///q.echo"; getText := [] |}
              499 1000 eq_refl ltac:(lia))
    as ((_ & H1 & _) & (H2 & _)).
  split; [exact H1 | exact H2].
Defined.

(** ** Counting validation passes and notifications *)

Lemma filter_partition_length {A : Type} (p : A -> bool) (l : list A) :
  (length (List.filter p l) + length (List.filter (fun x => negb (p x)) l)
   = length l)%nat.
Proof.
  induction l as [|x l IH]; [reflexivity|].
  simpl. destruct (p x); simpl; lia.
Qed.

Lemma elapse_account diagnosticsOf (n : nat) (s : Server) :
  let s' := elapse diagnosticsOf n s in
  (length (validated s') + length (timers s')
   = length (validated s) + length (timers s))%nat
  /\ (length (sent s') + length (validated s)
      = length (sent s) + length (validated s'))%nat.
Proof.
  revert s. induction n as [|n IH]; intros s; cbv zeta; [auto|].
  cbn [elapse]. destruct (IH (tick diagnosticsOf s)) as [A B].
  destruct (tick_fields diagnosticsOf s) as (H1 & _ & _ & _ & H5 & H6 & _).
  pose proof (filter_partition_length (is_due (now s + 1)) (timers s)) as P.
  unfold due_now in *.
  rewrite H1, H5, H6, ?length_app, ?length_map in *. lia.
Qed.

Lemma count_cons (p : Event -> bool) e events :
  length (List.filter p (e :: events))
  = ((if p e then 1 else 0) + length (List.filter p events))%nat.
Proof. simpl. destruct (p e); reflexivity. Qed.

Lemma debounced_account (events : list Event) :
  forall s,
    let s' := DebouncedSession.run s events in
    (length (validated s') + length (timers s')
     <= length (validated s) + length (timers s) + changes events)%nat
    /\ (length (sent s') + length (validated s)
        = length (sent s) + length (validated s') + closes events)%nat.
Proof.
  unfold changes, closes.
  induction events as [|e events IH]; intros s; cbv zeta.
  - rewrite debounced_run_nil. simpl. lia.
  - rewrite debounced_run_cons, !count_cons.
    destruct (IH (DebouncedSession.step s e)) as [A B].
    assert (H : (length (validated (DebouncedSession.step s e))
                 + length (timers (DebouncedSession.step s e))
                 <= length (validated s) + length (timers s)
                    + (if is_change e then 1 else 0))%nat
                /\ (length (sent (DebouncedSession.step s e))
                    + length (validated s)
                    = length (sent s)
                      + length (validated (DebouncedSession.step s e))
                      + (if is_close e then 1 else 0))%nat).
    { destruct e as [d | d | n]; cbn [is_change is_close].
      - rewrite debounced_step_change. unfold DebouncedSession.validate.
        destruct (clean_pending_trace d
                    (set_documents (<[uri d:=d]> (documents s)) s))
          as (V & S' & _ & L & _).
        cbn [timers set_documents] in L.
        cbn. rewrite V, S', length_app. cbn. lia.
      - rewrite debounced_step_close.
        destruct (clean_pending_trace d
                    (set_documents (delete (uri d) (documents s)) s))
          as (V & S' & _ & L & _).
        cbn [timers set_documents] in L.
        cbn. rewrite V, S', length_app. cbn. lia.
      - rewrite debounced_step_elapse.
        destruct (elapse_account Debounced.diagnosticsOf n s) as [A' B'].
        lia. }
    lia.
Qed.

Lemma immediate_step_close s d :
  ImmediateSession.step s (DidClose d)
  = cleanDiagnostics d
      (cleanPendingValidation d
         (set_documents (delete (uri d) (documents s)) s)).
Proof. reflexivity. Qed.

Lemma immediate_account (events : list Event) :
  forall s, timers s = [] ->
    let s' := ImmediateSession.run s events in
    length (validated s') = (length (validated s) + changes events)%nat
    /\ length (sent s')
       = (length (sent s) + changes events + closes events)%nat.
Proof.
  unfold changes, closes.
  induction events as [|e events IH]; intros s T; cbv zeta.
  - rewrite immediate_run_nil. simpl. lia.
  - rewrite immediate_run_cons, !count_cons.
    destruct (IH (ImmediateSession.step s e) (immediate_step_no_timer s e T))
      as [A B].
    rewrite A, B. clear A B IH.
    destruct e as [d | d | n]; cbn [is_change is_close].
    + rewrite immediate_step_change.
      destruct (immediate_validate d
                  (set_documents (<[uri d:=d]> (documents s)) s))
        as (V & S' & _).
      rewrite V, S', !length_app. cbn. lia.
    + rewrite immediate_step_close.
      destruct (clean_pending_trace d
                  (set_documents (delete (uri d) (documents s)) s))
        as (V & S' & _).
      unfold cleanDiagnostics. cbn [validated sent sendNotification].
      rewrite V, S', length_app. cbn. lia.
    + rewrite immediate_step_elapse.
      destruct (elapse_idle Immediate.diagnosticsOf n s T) as (_ & V & S').
      rewrite V, S'. lia.
Qed.

(** X9.  The server publishes only when a listener is called.  The events
    of a run are the calls of the listeners [onDidChangeContent] and
    [onDidClose] that the constructor registers, and waits.  In every run of
    the debouncing session the validation passes performed and the timeouts
    still armed together never outnumber the calls of the change listener,
    and the notifications published are one per validation pass plus one per
    call of the close listener; in the immediate session there is exactly
    one validation pass per call of the change listener.  In particular
    nothing is published as long as no listener is called. *)
Theorem publications_are_accounted_for (events : list Event) :
  (let s := DebouncedSession.run initial events in
   (length (validated s) + length (timers s) <= changes events)%nat
   /\ length (sent s) = (length (validated s) + closes events)%nat)
  /\ (let s := ImmediateSession.run initial events in
      length (validated s) = changes events
      /\ length (sent s) = (changes events + closes events)%nat).
Proof.
  split; cbv zeta.
  - destruct (debounced_account events initial) as [A B].
    cbn [initial validated timers sent length] in A, B. lia.
  - destruct (immediate_account events initial eq_refl) as [A B].
    cbn [initial validated sent length] in A, B. lia.
Qed.

(** ** Documents do not interfere *)

Lemma forget_lookup (fired : list Timer) :
  forall (m : gmap string nat) u r,
    forget m fired !! u = Some r ->
    m !! u = Some r /\ ~ In u (map (fun tm => uri (timer_doc tm)) fired).
Proof.
  induction fired as [|tm fired IH]; intros m u r H; [auto|].
  cbn [forget fold_left] in H. apply IH in H as [H Hn].
  apply lookup_delete_Some in H as [Hne H].
  split; [exact H|]. cbn [map In]. intros [E | E]; [congruence | auto].
Qed.

Lemma tick_registered_armed diagnosticsOf (s : Server) :
  registered_armed s -> registered_armed (tick diagnosticsOf s).
Proof.
  intros R u r H.
  destruct (tick_fields diagnosticsOf s) as (H1 & _ & _ & _ & _ & _ & H7).
  rewrite H7 in H. apply forget_lookup in H as [H Hn].
  destruct (R u r H) as (tm & Htm & Hid & Hu).
  exists tm. split; [|auto]. rewrite H1. apply filter_In. split; [exact Htm|].
  destruct (is_due (now s + 1) tm) eqn:D; [|reflexivity].
  exfalso. apply Hn. apply in_map_iff. exists tm. split; [exact Hu|].
  unfold due_now. apply filter_In. auto.
Qed.

Lemma elapse_registered_armed diagnosticsOf (n : nat) (s : Server) :
  registered_armed s -> registered_armed (elapse diagnosticsOf n s).
Proof.
  revert s. induction n as [|n IH]; intros s R; [exact R|].
  cbn [elapse]. apply IH, tick_registered_armed, R.
Qed.

Lemma clean_pending_frame (d : TextDocument) (s : Server) (tm : Timer) :
  consistent s -> registered_armed s ->
  In tm (timers s) -> uri (timer_doc tm) <> uri d ->
  In tm (timers (cleanPendingValidation d s)).
Proof.
  intros [_ Hnd _ _] R Htm Hu. unfold cleanPendingValidation.
  destruct (pendingValidationRequests s !! uri d) as [r|] eqn:E; [|exact Htm].
  cbn. apply filter_In. split; [exact Htm|].
  apply negb_true_iff, Nat.eqb_neq. intros Hid.
  destruct (R _ _ E) as (tm' & Htm' & Hid' & Hu').
  assert (tm' = tm).
  { apply (same_handle_same_timer (timers s)); auto. congruence. }
  subst tm'. contradiction.
Qed.

Lemma filter_filter_implied {A : Type} (p q : A -> bool) (l : list A) :
  (forall x, In x l -> p x = true -> q x = true) ->
  List.filter p (List.filter q l) = List.filter p l.
Proof.
  induction l as [|x l IH]; intros H; [reflexivity|].
  cbn [List.filter]. destruct (p x) eqn:P.
  - rewrite (H x) by (simpl; auto). cbn [List.filter]. rewrite P.
    f_equal. apply IH. intros y Hy. apply H. right. exact Hy.
  - destruct (q x); cbn [List.filter]; rewrite ?P; apply IH;
      intros y Hy; apply H; right; exact Hy.
Qed.

Lemma clean_pending_other (d : TextDocument) (s : Server) (u : string) :
  consistent s -> registered_armed s -> u <> uri d ->
  timers_for u (cleanPendingValidation d s) = timers_for u s.
Proof.
  intros C R Hu. pose proof C as [_ Hnd _ _].
  unfold timers_for, cleanPendingValidation.
  destruct (pendingValidationRequests s !! uri d) as [r|] eqn:E; [|reflexivity].
  cbn. apply filter_filter_implied. intros tm Htm Hp.
  apply String.eqb_eq in Hp. apply negb_true_iff, Nat.eqb_neq. intros Hid.
  destruct (R _ _ E) as (tm' & Htm' & Hid' & Hu').
  assert (tm' = tm).
  { apply (same_handle_same_timer (timers s)); auto. congruence. }
  subst tm'. congruence.
Qed.

Lemma clean_pending_registered_armed (d : TextDocument) (s : Server) :
  consistent s -> registered_armed s ->
  registered_armed (cleanPendingValidation d s).
Proof.
  intros C R u r H.
  assert (H' : pendingValidationRequests s !! u = Some r /\ u <> uri d
               \/ cleanPendingValidation d s = s).
  { unfold cleanPendingValidation in *.
    destruct (pendingValidationRequests s !! uri d) as [r0|]; [|auto].
    cbn in H. apply lookup_delete_Some in H as [Hne H]. left. auto. }
  destruct H' as [[H' Hne] | E].
  - destruct (R u r H') as (tm & Htm & Hid & Hu).
    exists tm. split; [|auto]. apply clean_pending_frame; auto. congruence.
  - rewrite E in *. apply R. exact H.
Qed.

Lemma debounced_validate_other (d : TextDocument) (s : Server) (u : string) :
  consistent s -> registered_armed s ->
  registered_armed (DebouncedSession.validate d s)
  /\ (u <> uri d ->
      timers_for u (DebouncedSession.validate d s) = timers_for u s).
Proof.
  intros C R.
  pose proof (clean_pending_registered_armed d s C R) as R1.
  pose proof (clean_pending_other d s u C R) as F1.
  unfold DebouncedSession.validate.
  set (s1 := cleanPendingValidation d s) in *.
  cbv zeta. unfold setTimeout, set_pending, timers_for in *. cbn. split.
  - intros v r H. cbn in H.
    destruct (String.eqb_spec v (uri d)) as [-> | Hne].
    + rewrite lookup_insert_eq in H. injection H as <-.
      eexists. split; [apply in_or_app; right; left; reflexivity|].
      split; reflexivity.
    + rewrite lookup_insert_ne in H by congruence.
      destruct (R1 v r H) as (tm & Htm & Hid & Hu).
      exists tm. split; [apply in_or_app; left; exact Htm | auto].
  - intros Hu. rewrite List.filter_app, F1 by exact Hu. cbn.
    destruct (String.eqb_spec (uri d) u); [congruence|]. apply app_nil_r.
Qed.

Lemma initial_registered_armed : registered_armed initial.
Proof. intros u r H. cbn in H. rewrite lookup_empty in H. discriminate. Qed.

Lemma debounced_step_registered_armed (s : Server) (e : Event) :
  consistent s -> registered_armed s ->
  registered_armed (DebouncedSession.step s e).
Proof.
  intros C R. destruct e as [d | d | n].
  - rewrite debounced_step_change.
    apply (debounced_validate_other d _ (uri d)).
    + apply set_documents_consistent, C.
    + exact R.
  - rewrite debounced_step_close.
    apply (clean_pending_registered_armed d
             (set_documents (delete (uri d) (documents s)) s)).
    + apply set_documents_consistent, C.
    + exact R.
  - rewrite debounced_step_elapse. apply elapse_registered_armed, R.
Qed.

Lemma debounced_run_registered_armed (events : list Event) :
  forall s, consistent s -> registered_armed s ->
    registered_armed (DebouncedSession.run s events).
Proof.
  induction events as [|e events IH]; intros s C R; [exact R|].
  rewrite debounced_run_cons. apply IH.
  - apply debounced_step_consistent, C.
  - apply debounced_step_registered_armed; assumption.
Qed.

(** A notification about another document leaves the timeouts, the
    validation passes and the publications of [u] as they are. *)
Lemma debounced_step_other (s : Server) (e : Event) (u v : string) :
  consistent s -> registered_armed s ->
  event_uri e = Some v -> u <> v ->
  let s' := DebouncedSession.step s e in
  timers_for u s' = timers_for u s /\ validated_for u s' = validated_for u s
  /\ sent_for u s' = sent_for u s /\ now s' = now s.
Proof.
  intros C R He Hu. cbv zeta. destruct e as [d | d | n]; cbn in He;
    [injection He as <- | injection He as <- | discriminate].
  - rewrite debounced_step_change.
    set (s0 := set_documents (<[uri d:=d]> (documents s)) s).
    assert (C0 : consistent s0) by (apply set_documents_consistent, C).
    destruct (debounced_validate d s0 C0) as (_ & _ & V & S' & N).
    destruct (debounced_validate_other d s0 u C0 R) as [_ T].
    unfold validated_for, sent_for. rewrite V, S', N, (T Hu). auto.
  - set (s0 := set_documents (delete (uri d) (documents s)) s).
    assert (C0 : consistent s0) by (apply set_documents_consistent, C).
    destruct (debounced_close d s C) as (_ & _ & V & S' & N).
    pose proof (clean_pending_other d s0 u C0 R Hu) as T.
    rewrite debounced_step_close in *. fold s0 in V, S', N |- *.
    unfold validated_for, sent_for. rewrite V, S', N, sent_for_snoc.
    cbn [cleared pd_uri].
    destruct (String.eqb_spec (uri d) u); [congruence|].
    rewrite app_nil_r. split; [exact T | auto].
Qed.

(** X10.  Debouncing is per document.  A change or close notification
    about another document, arriving while the validation of a change is
    pending, neither cancels nor postpones it: the text is validated, and
    its diagnostics are published, once 500 ms have passed since its own
    change, and not before. *)
Theorem other_documents_do_not_postpone_validation (events : list Event)
  (a : TextDocument) (e : Event) (v : string) (gap rest : nat) :
  event_uri e = Some v -> v <> uri a -> (gap < 500)%nat ->
  let s := DebouncedSession.run initial events in
  let s' := DebouncedSession.run s [DidChangeContent a; Elapse gap; e; Elapse rest] in
  ((500 <= gap + rest)%nat ->
   validated_for (uri a) s' = validated_for (uri a) s ++ [a]
   /\ sent_for (uri a) s'
      = sent_for (uri a) s ++ [notification_of Debounced.diagnosticsOf a])
  /\ ((gap + rest < 500)%nat ->
      validated_for (uri a) s' = validated_for (uri a) s
      /\ sent_for (uri a) s' = sent_for (uri a) s).
Proof.
  intros He Hv Hgap. cbv zeta.
  pose proof (debounced_run_consistent events initial initial_consistent) as C.
  pose proof (debounced_run_registered_armed events initial initial_consistent
                initial_registered_armed) as R.
  set (s := DebouncedSession.run initial events) in *.
  rewrite !debounced_run_cons, debounced_run_nil, debounced_step_change,
    !debounced_step_elapse.
  set (s0 := set_documents _ s).
  assert (C0 : consistent s0) by (apply set_documents_consistent, C).
  destruct (debounced_validate a s0 C0) as (T1 & C1 & V1 & S1 & N1).
  destruct (debounced_validate_other a s0 (uri a) C0 R) as [R1 _].
  set (s1 := DebouncedSession.validate a s0) in *.
  destruct (elapse_waiting Debounced.diagnosticsOf (uri a) gap s1 _ T1)
    as (T2 & V2 & S2 & N2); [cbn [due]; lia|].
  pose proof (elapse_consistent Debounced.diagnosticsOf gap s1 C1) as C2.
  pose proof (elapse_registered_armed Debounced.diagnosticsOf gap s1 R1) as R2.
  set (s2 := elapse Debounced.diagnosticsOf gap s1) in *.
  destruct (debounced_step_other s2 e (uri a) v C2 R2 He (not_eq_sym Hv))
    as (T3 & V3 & S3 & N3).
  set (s3 := DebouncedSession.step s2 e) in *.
  rewrite T2 in T3.
  assert (E0 : validated_for (uri a) s3 = validated_for (uri a) s
               /\ sent_for (uri a) s3 = sent_for (uri a) s).
  { rewrite V3, S3, V2, S2. unfold validated_for, sent_for.
    rewrite V1, S1. auto. }
  destruct E0 as [EV ES]. split; intros Hrest.
  - destruct (elapse_fires Debounced.diagnosticsOf (uri a) rest s3 _ T3)
      as (_ & V4 & S4); [cbn [due]; lia | cbn [due]; lia |].
    rewrite V4, S4, EV, ES. auto.
  - destruct (elapse_waiting Debounced.diagnosticsOf (uri a) rest s3 _ T3)
      as (_ & V4 & S4 & _); [cbn [due]; lia|].
    rewrite V4, S4, EV, ES. auto.
Qed.

Lemma other_documents_do_not_postpone_validation_witness :
  let a := {| uri := "file:///a.echo"; getText := str "INDEX" |} in
  let b := {| uri := "file:///b.echo"; getText := str "MAP x" |} in
  validated_for "file:///a.echo"
    (DebouncedSession.run initial
       [DidChangeContent a; Elapse 300; DidChangeContent b; Elapse 200])
  = [a]
  /\ validated_for "file:///a.echo"
       (DebouncedSession.run initial
          [DidChangeContent a; Elapse 300; DidChangeContent b; Elapse 199])
     = [].
Proof.
  cbv zeta.
  destruct (other_documents_do_not_postpone_validation []
              {| uri := "file:///a.echo"; getText := str "INDEX" |}
              (DidChangeContent {| uri := "file:///b.echo"; getText := str "MAP x" |})
              "file:///b.echo" 300 200 eq_refl ltac:(discriminate) ltac:(lia))
    as [H _].
  destruct (other_documents_do_not_postpone_validation []
              {| uri := "file:///a.echo"; getText := str "INDEX" |}
              (DidChangeContent {| uri := "file:///b.echo"; getText := str "MAP x" |})
              "file:///b.echo" 300 199 eq_refl ltac:(discriminate) ltac:(lia))
    as [_ H'].
  split; [exact (proj1 (H ltac:(lia))) | exact (proj1 (H' ltac:(lia)))].
Defined.

(** ** The variant without checks *)

Lemma unchecked_step_sent (s : Server) (e : Event) :
  Forall (fun n => pd_diagnostics n = []) (sent s) ->
  Forall (fun n => pd_diagnostics n = []) (sent (UncheckedSession.step s e)).
Proof.
  intros H. destruct e as [d | d | n].
  - unfold UncheckedSession.step, step, onDidChangeContent,
      UncheckedSession.validate.
    destruct (clean_pending_trace d
                (set_documents (<[uri d:=d]> (documents s)) s))
      as (_ & S' & _).
    cbn. rewrite S'. exact H.
  - unfold UncheckedSession.step, step, onDidClose, cleanDiagnostics.
    destruct (clean_pending_trace d
                (set_documents (delete (uri d) (documents s)) s))
      as (_ & S' & _).
    cbn. rewrite S'. apply Forall_app. split; [exact H|].
    constructor; [reflexivity | constructor].
  - unfold UncheckedSession.step, step. revert s H.
    induction n as [|n IH]; intros s H; [exact H|].
    cbn [elapse]. apply IH.
    destruct (tick_fields Unchecked.diagnosticsOf s)
      as (_ & _ & _ & _ & _ & H6 & _).
    rewrite H6. apply Forall_app. split; [exact H|].
    apply List.Forall_forall. intros x Hx.
    apply in_map_iff in Hx as (tm & <- & _). reflexivity.
Qed.

(** X11.  The variant of src/unnamed/part_002 never reports anything:
    whatever the documents contain and whatever the order of the change and
    close notifications and the time between them, every notification it
    publishes carries an empty list of diagnostics. *)
Theorem unchecked_variant_reports_nothing (events : list Event) :
  Forall (fun n => pd_diagnostics n = [])
    (sent (UncheckedSession.run initial events)).
Proof.
  assert (G : forall s, Forall (fun n => pd_diagnostics n = []) (sent s) ->
              Forall (fun n => pd_diagnostics n = [])
                (sent (UncheckedSession.run s events))).
  { induction events as [|e events IH]; intros s H; [exact H|].
    apply (IH (UncheckedSession.step s e)), unchecked_step_sent, H. }
  apply G. constructor.
Qed.

(** ** Formatting, line by line *)

Lemma join_split (text : jsstring) : join [LF] (split LF text) = text.
Proof.
  induction text as [|c text IH]; [reflexivity|].
  cbn [split]. destruct (char_eqb c LF) eqn:E.
  - apply char_eqb_eq in E. subst c.
    destruct (split_cons LF text) as (p & r & Hs). rewrite Hs in *.
    change (join [LF] ([] :: p :: r)) with (LF :: join [LF] (p :: r)).
    rewrite IH. reflexivity.
  - destruct (split_cons LF text) as (p & r & Hs). rewrite Hs in *.
    destruct r as [|q r].
    + cbn [join] in *. rewrite IH. reflexivity.
    + change (join [LF] ((c :: p) :: q :: r))
        with (c :: (p ++ LF :: join [LF] (q :: r))).
      change (join [LF] (p :: q :: r)) with (p ++ LF :: join [LF] (q :: r)) in IH.
      rewrite IH. reflexivity.
Qed.

Lemma formatText_lines (text : jsstring) :
  split LF (formatText text) = map formatLine (split LF text).
Proof.
  unfold formatText. apply split_join.
  - destruct (split_cons LF text) as (p & r & ->). discriminate.
  - apply List.Forall_forall. intros l Hl.
    apply in_map_iff in Hl as (l0 & <- & _). apply formatLine_no_LF.
Qed.

(** X12.  Formatting works line by line: the lines of the formatted text
    are the formatted lines of the text, in the same order, so that lines
    are neither merged nor split and their number does not change; cutting
    a text at its line feeds and joining the pieces with line feeds, as
    [format] does, gives the text back. *)
Theorem format_keeps_the_lines (text : jsstring) :
  split LF (formatText text) = map formatLine (split LF text)
  /\ length (split LF (formatText text)) = length (split LF text)
  /\ join [LF] (split LF text) = text.
Proof.
  split; [apply formatText_lines|]. split; [|apply join_split].
  rewrite formatText_lines. apply length_map.
Qed.

(** ** Formatting and the visible characters *)

Lemma visible_app a b : visible (a ++ b) = visible a ++ visible b.
Proof. apply List.filter_app. Qed.

Lemma visible_blank b : forallb is_space b = true -> visible b = [].
Proof.
  intros H. apply filter_all_false. intros c Hc.
  rewrite forallb_forall in H. rewrite (H c Hc). reflexivity.
Qed.

Lemma visible_trimStart s : visible (trimStart s) = visible s.
Proof.
  induction s as [|c s IH]; [reflexivity|].
  cbn [trimStart]. destruct (is_space c) eqn:E; [|reflexivity].
  rewrite IH. unfold visible. cbn [List.filter]. rewrite E. reflexivity.
Qed.

Lemma visible_trimEnd s : visible (trimEnd s) = visible s.
Proof.
  destruct (trimEnd_decomposition s) as (b & E & Hb).
  rewrite E at 2. rewrite visible_app, (visible_blank b Hb), app_nil_r.
  reflexivity.
Qed.

Lemma visible_trim s : visible (trim s) = visible s.
Proof. unfold trim. rewrite visible_trimEnd. apply visible_trimStart. Qed.

Lemma visible_cons_space c s : is_space c = true -> visible (c :: s) = visible s.
Proof. intros E. unfold visible. cbn [List.filter]. rewrite E. reflexivity. Qed.

Lemma visible_cons_nonspace c s :
  is_space c = false -> visible (c :: s) = c :: visible s.
Proof. intros E. unfold visible. cbn [List.filter]. rewrite E. reflexivity. Qed.

Lemma visible_collapse s : forall insp, visible (collapse_from insp s) = visible s.
Proof.
  induction s as [|c s IH]; intros insp; [reflexivity|].
  destruct (is_space c) eqn:E.
  - rewrite collapse_space, (visible_cons_space c) by exact E.
    destruct insp; [apply IH|].
    rewrite visible_cons_space by reflexivity. apply IH.
  - rewrite collapse_nonspace, !visible_cons_nonspace by exact E.
    f_equal. apply IH.
Qed.

Lemma visible_spaceAfterBrackets s : visible (spaceAfterBrackets s) = visible s.
Proof.
  induction s as [|c s IH]; [reflexivity|].
  cbn [spaceAfterBrackets]. destruct (is_bracket c) eqn:B.
  - pose proof (bracket_not_space c B) as E.
    rewrite !(visible_cons_nonspace c) by exact E.
    rewrite visible_cons_space by reflexivity. f_equal. apply IH.
  - destruct (is_space c) eqn:E.
    + rewrite !(visible_cons_space c) by exact E. apply IH.
    + rewrite !(visible_cons_nonspace c) by exact E. f_equal. apply IH.
Qed.

Lemma upper_upcase_word w : toUpperCase (upcase_word w) = toUpperCase w.
Proof.
  unfold upcase_word. destruct (is_keyword w); [|reflexivity].
  apply toUpperCase_idem.
Qed.

Lemma upper_uppercaseKeywords s : toUpperCase (uppercaseKeywords s) = toUpperCase s.
Proof.
  induction s as [|c t Hc IH | c w rest Hc Hw Hr IH] using run_ind.
  - reflexivity.
  - rewrite uppercaseKeywords_nonword by exact Hc.
    rewrite !toUpperCase_cons, IH. reflexivity.
  - rewrite uppercaseKeywords_run by assumption.
    change (c :: w ++ rest) with ((c :: w) ++ rest).
    rewrite !toUpperCase_app, upper_upcase_word, IH. reflexivity.
Qed.

Lemma visible_upper_units c :
  visible (upper_units c) = if is_space c then [] else upper_units c.
Proof. ascii_cases c. Qed.

Lemma visible_upper s : visible (toUpperCase s) = toUpperCase (visible s).
Proof.
  induction s as [|c s IH]; [reflexivity|].
  rewrite toUpperCase_cons, visible_app, visible_upper_units, IH.
  destruct (is_space c) eqn:E.
  - rewrite visible_cons_space by exact E. reflexivity.
  - rewrite visible_cons_nonspace by exact E. reflexivity.
Qed.

Lemma visible_formatLine line :
  visible (formatLine line) = visible (uppercaseKeywords line).
Proof.
  unfold formatLine, collapseSpaces.
  rewrite visible_trim, visible_collapse, visible_spaceAfterBrackets.
  reflexivity.
Qed.

Lemma upper_visible_formatLine line :
  toUpperCase (visible (formatLine line)) = toUpperCase (visible line).
Proof.
  rewrite visible_formatLine, <- !visible_upper, upper_uppercaseKeywords.
  reflexivity.
Qed.

Lemma upper_visible_join ls :
  toUpperCase (visible (join [LF] ls))
  = concat (map (fun l => toUpperCase (visible l)) ls).
Proof.
  induction ls as [|x ls IH]; [reflexivity|].
  destruct ls as [|y ls].
  - cbn [join map concat]. rewrite app_nil_r. reflexivity.
  - change (join [LF] (x :: y :: ls)) with (x ++ LF :: join [LF] (y :: ls)).
    rewrite visible_app, visible_cons_space, toUpperCase_app, IH by reflexivity.
    reflexivity.
Qed.

(** X13.  Formatting touches white space and letter case only.  The
    visible characters of a formatted line are those of the line after the
    keyword pass, which changes nothing but the case of letters: up to
    letter case, the formatted line and the formatted text hold the same
    visible characters as the original, in the same order. *)
Theorem format_keeps_the_visible_characters (line text : jsstring) :
  visible (formatLine line) = visible (uppercaseKeywords line)
  /\ toUpperCase (uppercaseKeywords line) = toUpperCase line
  /\ toUpperCase (visible (formatLine line)) = toUpperCase (visible line)
  /\ toUpperCase (visible (formatText text)) = toUpperCase (visible text).
Proof.
  split; [apply visible_formatLine|].
  split; [apply upper_uppercaseKeywords|].
  split; [apply upper_visible_formatLine|].
  rewrite <- (join_split text) at 2. unfold formatText.
  rewrite !upper_visible_join, map_map. f_equal.
  apply map_ext. intros l. apply upper_visible_formatLine.
Qed.

(** ** The shape of a formatted line *)

Lemma adjacent_cons ok c d r :
  adjacent ok (c :: d :: r) = ok c d && adjacent ok (d :: r).
Proof. reflexivity. Qed.

Lemma adjacent_tail ok c s : adjacent ok (c :: s) = true -> adjacent ok s = true.
Proof.
  destruct s as [|d r]; [reflexivity|]. rewrite adjacent_cons.
  intros H. apply andb_true_iff in H as [_ H]. exact H.
Qed.

Lemma adjacent_free ok c s :
  (forall d, ok c d = true) -> adjacent ok (c :: s) = adjacent ok s.
Proof.
  intros H. destruct s as [|d r]; [reflexivity|].
  rewrite adjacent_cons, H. reflexivity.
Qed.

Lemma adjacent_app_l ok a b : adjacent ok (a ++ b) = true -> adjacent ok a = true.
Proof.
  induction a as [|c a IH]; [reflexivity|].
  destruct a as [|d r]; [reflexivity|].
  change ((c :: d :: r) ++ b) with (c :: d :: (r ++ b)).
  rewrite !adjacent_cons. intros H. apply andb_true_iff in H as [H1 H2].
  rewrite H1. apply IH. exact H2.
Qed.

Lemma adjacent_app_r ok a b : adjacent ok (a ++ b) = true -> adjacent ok b = true.
Proof.
  induction a as [|c a IH]; [auto|].
  intros H. apply IH. apply (adjacent_tail ok c). exact H.
Qed.

Lemma trimStart_decomposition s :
  exists b, s = b ++ trimStart s /\ forallb is_space b = true.
Proof.
  induction s as [|c s (b & E & Hb)]; [exists []; auto|].
  cbn [trimStart]. destruct (is_space c) eqn:Ec.
  - exists (c :: b). cbn [app forallb]. rewrite Ec, Hb, <- E. auto.
  - exists []. auto.
Qed.

Lemma adjacent_trim ok s : adjacent ok s = true -> adjacent ok (trim s) = true.
Proof.
  intros H. unfold trim.
  destruct (trimStart_decomposition s) as (b & E & _).
  destruct (trimEnd_decomposition (trimStart s)) as (b' & E' & _).
  rewrite E in H. apply adjacent_app_r in H.
  rewrite E' in H. apply adjacent_app_l in H. exact H.
Qed.

Lemma spaces_only_app a b : spaces_only (a ++ b) = spaces_only a && spaces_only b.
Proof. apply forallb_app. Qed.

Lemma spaces_only_trim s : spaces_only s = true -> spaces_only (trim s) = true.
Proof.
  intros H. unfold trim.
  destruct (trimStart_decomposition s) as (b & E & _).
  destruct (trimEnd_decomposition (trimStart s)) as (b' & E' & _).
  rewrite E, spaces_only_app in H. apply andb_true_iff in H as [_ H].
  rewrite E', spaces_only_app in H. apply andb_true_iff in H as [H _].
  exact H.
Qed.

Lemma spaces_only_cons c s :
  spaces_only (c :: s) = (negb (is_space c) || char_eqb c " ") && spaces_only s.
Proof. reflexivity. Qed.

Lemma spaces_only_collapse s :
  forall insp, spaces_only (collapse_from insp s) = true.
Proof.
  induction s as [|c s IH]; intros insp; [reflexivity|].
  destruct (is_space c) eqn:E.
  - rewrite collapse_space by exact E. destruct insp; [apply IH|].
    rewrite spaces_only_cons, IH. reflexivity.
  - rewrite collapse_nonspace by exact E.
    rewrite spaces_only_cons, E, IH. reflexivity.
Qed.

Lemma single_spaced_collapse s :
  forall insp,
    single_spaced (collapse_from insp s) = true
    /\ (insp = true ->
        is_space (hd "x"%char (collapse_from insp s)) = false).
Proof.
  unfold single_spaced.
  induction s as [|c s IH]; intros insp; [split; reflexivity|].
  destruct (is_space c) eqn:E.
  - rewrite collapse_space by exact E. destruct insp; [apply IH|].
    split; [|discriminate].
    destruct (IH true) as [A H]. specialize (H eq_refl).
    destruct (collapse_from true s) as [|d r]; [reflexivity|].
    rewrite adjacent_cons, A. cbn [hd] in H. rewrite H. reflexivity.
  - rewrite collapse_nonspace by exact E. split; [|intros _; exact E].
    destruct (IH false) as [A _].
    destruct (collapse_from false s) as [|d r]; [reflexivity|].
    rewrite adjacent_cons, A, E. reflexivity.
Qed.

Lemma spaced_after_brackets s :
  adjacent (fun c d => negb (is_bracket c) || is_space d) (spaceAfterBrackets s)
  = true.
Proof.
  induction s as [|c s IH]; [reflexivity|].
  cbn [spaceAfterBrackets]. destruct (is_bracket c) eqn:B.
  - rewrite adjacent_cons, orb_true_r. cbn [andb].
    rewrite adjacent_free; [exact IH | reflexivity].
  - rewrite adjacent_free; [exact IH|]. intros d. rewrite B. reflexivity.
Qed.

Lemma spaced_collapse s :
  adjacent (fun c d => negb (is_bracket c) || is_space d) s = true ->
  forall insp,
    adjacent (fun c d => negb (is_bracket c) || is_space d)
      (collapse_from insp s) = true.
Proof.
  induction s as [|c s IH]; intros H insp; [reflexivity|].
  pose proof (adjacent_tail _ _ _ H) as Hs.
  destruct (is_space c) eqn:E.
  - rewrite collapse_space by exact E. destruct insp; [apply IH, Hs|].
    rewrite adjacent_free; [apply IH, Hs | reflexivity].
  - rewrite collapse_nonspace by exact E.
    destruct (is_bracket c) eqn:B.
    + destruct s as [|d r]; [reflexivity|].
      rewrite adjacent_cons, B in H. cbn [negb orb] in H.
      apply andb_true_iff in H as [Hd _].
      specialize (IH Hs false). rewrite collapse_space in IH |- * by exact Hd.
      rewrite adjacent_cons, IH, B. reflexivity.
    + rewrite adjacent_free; [apply IH, Hs|]. intros d. rewrite B. reflexivity.
Qed.

Lemma brackets_spaced_of s :
  spaces_only s = true ->
  adjacent (fun c d => negb (is_bracket c) || is_space d) s = true ->
  brackets_spaced s = true.
Proof.
  unfold brackets_spaced. induction s as [|c s IH]; intros Hs H; [reflexivity|].
  destruct s as [|d r]; [reflexivity|].
  rewrite spaces_only_cons in Hs. apply andb_true_iff in Hs as [_ Hs].
  rewrite adjacent_cons in H |- *. apply andb_true_iff in H as [H1 H2].
  rewrite (IH Hs H2), andb_true_r.
  destruct (is_bracket c); [|reflexivity]. cbn [negb orb] in H1 |- *.
  rewrite spaces_only_cons, H1 in Hs. cbn [negb orb] in Hs.
  apply andb_true_iff in Hs as [Hd _]. exact Hd.
Qed.

(** X14.  The shape of a formatted line: it has no leading and no trailing
    white space, its only white-space character is the space, it never holds
    two spaces in a row, and each of [, ( ) { }] in it is followed by a
    space unless it is the last character of the line. *)
Theorem formatted_lines_are_tidy (line : jsstring) :
  trim (formatLine line) = formatLine line
  /\ spaces_only (formatLine line) = true
  /\ single_spaced (formatLine line) = true
  /\ brackets_spaced (formatLine line) = true.
Proof.
  assert (S1 : spaces_only (formatLine line) = true).
  { apply spaces_only_trim, spaces_only_collapse. }
  split; [apply trim_idem|]. split; [exact S1|]. split.
  - apply adjacent_trim, single_spaced_collapse.
  - apply brackets_spaced_of; [exact S1|].
    apply adjacent_trim, spaced_collapse, spaced_after_brackets.
Qed.

(** ** Keywords in a formatted line *)

Lemma last_tail_nonword c t :
  is_word_opt (last (c :: t)) = false -> is_word_opt (last t) = false.
Proof. destruct t; [reflexivity | auto]. Qed.

Lemma last_app_nonempty {A : Type} (a b : list A) :
  b <> [] -> last (a ++ b) = last b.
Proof.
  intros Hb. induction a as [|x a IH]; [reflexivity|].
  cbn [app]. destruct (a ++ b) as [|y r] eqn:E.
  - destruct a; [cbn in E; congruence | discriminate].
  - exact IH.
Qed.

Lemma all_word_last c w :
  is_word c = true -> all_word w = true -> is_word_opt (last (c :: w)) = true.
Proof.
  revert c. induction w as [|d w IH]; intros c Hc Hw; [exact Hc|].
  cbn [all_word forallb] in Hw. apply andb_true_iff in Hw as [Hd Hw].
  change (last (c :: d :: w)) with (last (d :: w)). apply IH; assumption.
Qed.

Lemma uppercaseKeywords_app s pre :
  is_word_opt (last pre) = false ->
  uppercaseKeywords (pre ++ s) = uppercaseKeywords pre ++ uppercaseKeywords s.
Proof.
  induction pre as [|c t Hc IH | c w rest Hc Hw Hr IH] using run_ind; intros H.
  - reflexivity.
  - cbn [app]. rewrite !uppercaseKeywords_nonword by exact Hc.
    rewrite IH by (apply (last_tail_nonword c), H). reflexivity.
  - destruct rest as [|d rest'].
    + rewrite app_nil_r in H. rewrite all_word_last in H by assumption.
      discriminate.
    + replace ((c :: w ++ d :: rest') ++ s) with (c :: w ++ (d :: rest') ++ s)
        by (cbn [app]; rewrite <- app_assoc; reflexivity).
      rewrite !uppercaseKeywords_run by assumption.
      rewrite IH, app_assoc; [reflexivity|].
      change (c :: w ++ d :: rest') with ((c :: w) ++ d :: rest') in H.
      rewrite last_app_nonempty in H by discriminate. exact H.
Qed.

Lemma uppercaseKeywords_whole_word pre x post :
  is_word_opt (last pre) = false -> all_word x = true -> x <> [] ->
  starts_nonword post = true ->
  uppercaseKeywords (pre ++ x ++ post)
  = uppercaseKeywords pre ++ upcase_word x ++ uppercaseKeywords post.
Proof.
  intros Hpre Hx Hne Hpost. rewrite uppercaseKeywords_app by exact Hpre.
  destruct x as [|c w]; [contradiction|].
  cbn [all_word forallb] in Hx. apply andb_true_iff in Hx as [Hc Hw].
  change ((c :: w) ++ post) with (c :: w ++ post).
  rewrite uppercaseKeywords_run by assumption. reflexivity.
Qed.

Lemma uppercaseKeywords_formatLine line :
  uppercaseKeywords (formatLine line) = formatLine line.
Proof.
  unfold formatLine, collapseSpaces.
  rewrite uppercase_trim, uppercase_collapse, uppercase_spaceAfterBrackets,
    uppercaseKeywords_idem.
  reflexivity.
Qed.

Lemma fixed_keywords_are_upper s p x :
  uppercaseKeywords s = s -> whole_word s p x -> is_keyword x = true ->
  toUpperCase x = x.
Proof.
  intros F (pre & post & E & _ & Hpre & Hpost) K.
  destruct (is_keyword_word x K) as [Hw Hne].
  rewrite E, uppercaseKeywords_whole_word in F by assumption.
  apply app_same_length in F as [_ F]; [|apply uppercaseKeywords_length].
  apply app_same_length in F as [F _]; [|apply upcase_word_length].
  unfold upcase_word in F. rewrite K in F. exact F.
Qed.

(** X15.  In a formatted line every keyword is in upper case: a word of
    the line that is one of the seven keywords in some letter case is that
    keyword in upper case, so that the matches of the keyword pattern in the
    line are, literally, among INDEX, FILTER, MAP, AS, SQL, JOIN and NOT;
    the keyword pass leaves a formatted line unchanged. *)
Theorem formatted_keywords_are_upper_case (line : jsstring) :
  uppercaseKeywords (formatLine line) = formatLine line
  /\ (forall p x,
        whole_word (formatLine line) p x -> is_keyword x = true ->
        toUpperCase x = x /\ In x keywords)
  /\ forallb (arr_includes keywords) (matchAll keywordPattern (formatLine line))
     = true.
Proof.
  pose proof (uppercaseKeywords_formatLine line) as F.
  assert (G : forall p x,
             whole_word (formatLine line) p x -> is_keyword x = true ->
             toUpperCase x = x /\ arr_includes keywords x = true).
  { intros p x W K. pose proof (fixed_keywords_are_upper _ p x F W K) as U.
    split; [exact U|]. unfold is_keyword in K. rewrite U in K. exact K. }
  split; [exact F|]. split.
  - intros p x W K. destruct (G p x W K) as [U I]. split; [exact U|].
    unfold arr_includes in I. apply existsb_exists in I as (k & Hk & E).
    apply str_eqb_eq in E. subst x. exact Hk.
  - apply forallb_forall. intros x Hx.
    rewrite (matchAll_occurrences _ _ keywordPattern_non_overlapping) in Hx.
    apply in_map_iff in Hx as ([p y] & <- & Hy).
    apply keyword_occurrences in Hy as [W K]. apply (G p y W K).
Qed.

(** ** The symbols of a document *)

Lemma substring_middle pre x post :
  substring (pre ++ x ++ post) (len pre) (len pre + len x) = x.
Proof.
  unfold substring, len.
  replace (Z.of_nat (length pre) + Z.of_nat (length x) - Z.of_nat (length pre))
    with (Z.of_nat (length x)) by lia.
  rewrite !Nat2Z.id, skipn_length_app. apply firstn_length_app.
Qed.

Lemma first_occurrence_shape l p x :
  whole_word l p x ->
  0 <= indexOf l x /\ indexOf l x + len x <= len l
  /\ substring l (indexOf l x) (indexOf l x + len x) = x.
Proof.
  intros W. destruct (indexOf_first l p x W) as (pre0 & post0 & E & I & _).
  rewrite I. split; [apply len_nonneg|]. split.
  - rewrite E, !len_app. pose proof (len_nonneg post0). lia.
  - rewrite E. apply substring_middle.
Qed.

Lemma lineSymbols_shape docUri l i sym :
  In sym (lineSymbols docUri l i) ->
  location_uri sym = docUri
  /\ line (start (location_range sym)) = i
  /\ line (end_ (location_range sym)) = i
  /\ 0 <= character (start (location_range sym))
  /\ character (end_ (location_range sym))
     = character (start (location_range sym)) + len (name sym)
  /\ character (end_ (location_range sym)) <= len l
  /\ substring l (character (start (location_range sym)))
       (character (end_ (location_range sym))) = name sym
  /\ ((symbolKind sym = 14 /\ is_keyword (name sym) = true)
      \/ (symbolKind sym = 7 /\ In (name sym) fieldPaths)).
Proof.
  unfold lineSymbols. intros H. apply in_app_or in H as [H | H];
    apply in_map_iff in H as (x & <- & Hx).
  - rewrite (matchAll_occurrences _ _ keywordPattern_non_overlapping) in Hx.
    apply in_map_iff in Hx as ([p y] & <- & Hy).
    apply keyword_occurrences in Hy as [W K].
    destruct (first_occurrence_shape l p y W) as (A & B & S').
    cbn. repeat split; auto.
  - rewrite (matchAll_occurrences _ _ fieldPattern_non_overlapping) in Hx.
    apply in_map_iff in Hx as ([p y] & <- & Hy).
    apply field_occurrences in Hy as [W K].
    destruct (first_occurrence_shape l p y W) as (A & B & S').
    cbn. repeat split; auto.
Qed.

Lemma split_pieces_without sep s :
  Forall (fun l => has_char sep l = false) (split sep s).
Proof.
  induction s as [|c s IH]; [repeat constructor|].
  cbn [split]. destruct (char_eqb c sep) eqn:E.
  - constructor; [reflexivity | exact IH].
  - destruct (split_cons sep s) as (p & r & Hs). rewrite Hs in *.
    inversion IH as [|? ? Hp Hr]; subst. constructor; [|exact Hr].
    rewrite has_char_cons, E. exact Hp.
Qed.

Lemma lineSymbols_line docUri l i sym :
  In sym (lineSymbols docUri l i) -> symbol_line sym = i.
Proof. intros H. apply (lineSymbols_shape _ _ _ _ H). Qed.

Lemma symbols_of_line (docUri : string) (lines : list jsstring) (i : nat) l :
  nth_error lines i = Some l ->
  List.filter (fun sym => symbol_line sym =? Z.of_nat i)
    (forEach (lineSymbols docUri) lines)
  = symbolsByOccurrence docUri l (Z.of_nat i).
Proof.
  intros H. unfold forEach.
  rewrite (List.filter_ext _
             (fun sym => true && (symbol_line sym =? 0 + Z.of_nat i)))
    by (intros sym; rewrite Z.add_0_l; reflexivity).
  rewrite (forEach_from_select (lineSymbols docUri) symbol_line
             (fun _ => true) (lineSymbols_line docUri) lines 0 i l H).
  rewrite filter_all_true by reflexivity.
  rewrite Z.add_0_l. apply lineSymbols_by_occurrence.
Qed.

(** C8.  For an open document [findDocumentSymbols] reports, for every
    line of the text (the pieces between its line feeds), one entry for
    every position at which one of the seven keywords (in any letter case)
    stands as a whole word, then one entry for every position at which one
    of the four field paths stands as a whole word, and nothing else, line
    after line; a keyword inside a longer word, as in [INDEXED], is not
    reported.  The name of an entry is the matched text; its columns start
    at the first place where that text occurs in the line, which is at or
    before the match, so that the two [AS] of [AS x AS] get the same span.
    Keyword entries have kind 14 and field entries kind 7: as symbol kinds
    these are [Constant] and [Property], not the [Keyword] and [Variable] of
    the comments of the source; the kind [Variable] is 13 and no symbol kind
    is called [Keyword]. *)
Theorem document_symbols (docs : gmap string TextDocument) (u : string) :
  match docs !! u with
  | None => findDocumentSymbols docs u = []
  | Some document =>
      let lines := split LF (getText document) in
      let symbols := findDocumentSymbols docs u in
      join [LF] lines = getText document
      /\ Forall (fun l => has_char LF l = false) lines
      /\ (forall (i : nat) l,
            nth_error lines i = Some l ->
            List.filter (fun sym => symbol_line sym =? Z.of_nat i) symbols
            = symbolsByOccurrence (uri document) l (Z.of_nat i))
      /\ (forall sym,
            In sym symbols ->
            exists (i : nat) l,
              nth_error lines i = Some l /\ symbol_line sym = Z.of_nat i)
      /\ nondecreasing (map symbol_line symbols) = true
  end
  /\ (forall line p x,
        In (p, x) (occurrences keywordPattern line)
        <-> whole_word line p x /\ is_keyword x = true)
  /\ (forall line p x,
        In (p, x) (occurrences fieldPattern line)
        <-> whole_word line p x /\ In x fieldPaths)
  /\ (forall line,
        List.NoDup (map fst (occurrences keywordPattern line))
        /\ List.NoDup (map fst (occurrences fieldPattern line)))
  /\ (forall line p x,
        whole_word line p x ->
        exists pre0 post0,
          line = pre0 ++ x ++ post0 /\ indexOf line x = len pre0 /\ len pre0 <= p
          /\ forall pre' post', line = pre' ++ x ++ post' -> len pre0 <= len pre')
  /\ (forall docUri line i x,
        keywordSymbol docUri line i x
        = {| name := x; symbolKind := 14; location_uri := docUri;
             location_range :=
               {| start := {| line := i; character := indexOf line x |};
                  end_ := {| line := i; character := indexOf line x + len x |} |} |}
        /\ fieldSymbol docUri line i x
           = {| name := x; symbolKind := 7; location_uri := docUri;
                location_range :=
                  {| start := {| line := i; character := indexOf line x |};
                     end_ := {| line := i; character := indexOf line x + len x |} |} |})
  /\ (kind_name 14 = Some "Constant"%string
      /\ kind_name 7 = Some "Property"%string
      /\ kind_named "Variable" = Some 13
      /\ kind_named "Keyword" = None)
  /\ map (fun s => (name s, character (start (location_range s)),
                    character (end_ (location_range s))))
       (lineSymbols "" (str "AS x AS") 0)
     = [(str "AS", 0, 2); (str "AS", 0, 2)]
  /\ lineSymbols "" (str "INDEXED users") 0 = []
  /\ map (fun s => (name s, kind_name (symbolKind s), symbol_line s,
                    character (start (location_range s)),
                    character (end_ (location_range s))))
       (findDocumentSymbols
          (<["file:///q.echo"%string :=
               {| uri := "file:///q.echo";
                  getText := str "index a" ++ [LF]
                             ++ str "MAP host.hostname AS h" |}]>
             (∅ : gmap string TextDocument))
          "file:///q.echo")
     = [(str "index", Some "Constant"%string, 0, 0, 5);
        (str "MAP", Some "Constant"%string, 1, 0, 3);
        (str "AS", Some "Constant"%string, 1, 18, 20);
        (str "host.hostname", Some "Property"%string, 1, 4, 17)].
Proof.
  split.
  { unfold findDocumentSymbols.
    destruct (docs !! u) as [document|]; [|reflexivity]. cbv zeta.
    split; [apply join_split|].
    split; [apply split_pieces_without|].
    split; [intros i l H; apply symbols_of_line; exact H|].
    split.
    - intros sym H. unfold forEach in H.
      apply in_forEach_from in H as (k & l & Hk & H).
      exists k, l. split; [exact Hk|]. rewrite Z.add_0_l in H.
      apply (lineSymbols_line _ _ _ _ H).
    - apply forEach_from_nondecreasing. intros l j y Hy.
      apply (lineSymbols_line _ _ _ _ Hy). }
  split; [exact keyword_occurrences|].
  split; [exact field_occurrences|].
  split.
  { intros line. split; apply occurrences_from_positions. }
  split; [exact indexOf_first|].
  split; [intros; split; reflexivity|].
  split; [repeat split; reflexivity|].
  split; [reflexivity|].
  split; [reflexivity|].
  vm_compute. reflexivity.
Qed.

(** X16.  The symbols of an open document are well formed and follow the
    lines.  Every entry lies on one line of the document, carries the URI of
    the document, and its columns delimit, within that line, a piece of text
    equal to its name: the start column is never negative, since the text
    that was matched does occur in the line.  An entry of kind 14 is named
    by one of the seven keywords in some letter case, an entry of kind 7 by
    one of the four field paths.  The line numbers of the list never
    decrease. *)
Theorem symbols_are_well_formed (docs : gmap string TextDocument) (u : string)
  (document : TextDocument) (sym : SymbolInformation) :
  docs !! u = Some document ->
  In sym (findDocumentSymbols docs u) ->
  nondecreasing (map symbol_line (findDocumentSymbols docs u)) = true
  /\ exists (i : nat) l,
       nth_error (split LF (getText document)) i = Some l
       /\ location_uri sym = uri document
       /\ line (start (location_range sym)) = Z.of_nat i
       /\ line (end_ (location_range sym)) = Z.of_nat i
       /\ 0 <= character (start (location_range sym))
       /\ character (end_ (location_range sym))
          = character (start (location_range sym)) + len (name sym)
       /\ character (end_ (location_range sym)) <= len l
       /\ substring l (character (start (location_range sym)))
            (character (end_ (location_range sym))) = name sym
       /\ ((symbolKind sym = 14 /\ is_keyword (name sym) = true)
           \/ (symbolKind sym = 7 /\ In (name sym) fieldPaths)).
Proof.
  intros Hd. unfold findDocumentSymbols. rewrite Hd. intros H. split.
  - apply forEach_from_nondecreasing. intros l j y Hy.
    apply (lineSymbols_shape _ _ _ _ Hy).
  - apply in_forEach_from in H as (k & l & Hk & H).
    exists k, l. split; [exact Hk|]. rewrite Z.add_0_l in H.
    apply (lineSymbols_shape _ _ _ _ H).
Qed.

Lemma symbols_are_well_formed_witness :
  let document := {| uri := "file:///q.echo";
                     getText := str "index BASE" ++ [LF] ++ str "MAP x AS host.hostname" |} in
  let sym := {| name := str "AS"; symbolKind := 14;
                location_uri := "file:///q.echo";
                location_range :=
                  {| start := {| line := 1; character := 6 |};
                     end_ := {| line := 1; character := 8 |} |} |} in
  exists (i : nat) l,
    nth_error (split LF (getText document)) i = Some l
    /\ line (start (location_range sym)) = Z.of_nat i
    /\ substring l (character (start (location_range sym)))
         (character (end_ (location_range sym))) = name sym.
Proof.
  intros document sym.
  pose (docs := <["file:///q.echo"%string := document]>
                  (∅ : gmap string TextDocument)).
  assert (Hd : docs !! "file:///q.echo"%string = Some document)
    by (vm_compute; reflexivity).
  assert (Hs : In sym (findDocumentSymbols docs "file:///q.echo"))
    by (vm_compute; auto).
  destruct (symbols_are_well_formed docs "file:///q.echo" document sym Hd Hs)
    as (_ & i & l & H1 & _ & H2 & _ & _ & _ & _ & H3 & _).
  exists i, l. auto.
Defined.

(** ** Resolving a completion item *)

(** X17.  Resolving an item of the completion list keeps its label and its
    kind and replaces its detail and its documentation by the text of its
    kind: the seven keywords all resolve to the detail [Echo Query Keyword],
    the four field paths to [Field Path], so that the detail and the
    documentation the list gave for the item are lost.  On any item, of any
    kind or of none, resolving keeps the label and the kind, and resolving
    twice is resolving once. *)
Theorem resolve_replaces_detail_and_documentation
  (docs : gmap string TextDocument) (u : string) (position : Position)
  (item : CompletionItem) :
  In item (items (completion docs u position)) ->
  let resolved := resolveCompletion (returned item) in
  item_label resolved = label item
  /\ item_kind resolved = KindOf (kind item)
  /\ item_detail resolved
     = Some (match kind item with
             | Keyword => str "Echo Query Keyword"
             | Field => str "Field Path"
             end)
  /\ item_documentation resolved
     = Some (match kind item with
             | Keyword => str "Echo Query language keyword for query construction"
             | Field => str "Field path for data access"
             end)
  /\ item_detail resolved <> Some (detail item)
  /\ item_documentation resolved <> Some (documentation item)
  /\ (forall any, resolveCompletion (resolveCompletion any) = resolveCompletion any)
  /\ (forall any, item_label (resolveCompletion any) = item_label any
                  /\ item_kind (resolveCompletion any) = item_kind any).
Proof.
  intros H. cbv zeta.
  assert (G1 : forall any,
             resolveCompletion (resolveCompletion any) = resolveCompletion any).
  { intros [l [[|]| |] d o]; reflexivity. }
  assert (G2 : forall any,
             item_label (resolveCompletion any) = item_label any
             /\ item_kind (resolveCompletion any) = item_kind any).
  { intros [l [[|]| |] d o]; split; reflexivity. }
  unfold completion in H. destruct (docs !! u); [|contradiction].
  cbn [items] in H. unfold keywordItems, fieldItems, fieldPaths in H.
  cbn [map app In] in H.
  repeat (destruct H as [<- | H];
          [ split; [reflexivity|]; split; [reflexivity|];
            split; [reflexivity|]; split; [reflexivity|];
            split; [vm_compute; intro; discriminate|];
            split; [vm_compute; intro; discriminate|];
            split; [exact G1 | exact G2] |]).
  contradiction.
Qed.

Lemma resolve_replaces_detail_and_documentation_witness :
  let item := {| label := str "INDEX"; kind := Keyword;
                 detail := str "INDEX statement";
                 documentation := str "Specify the index to query from" |} in
  resolveCompletion (returned item)
  = {| item_label := str "INDEX"; item_kind := KindOf Keyword;
       item_detail := Some (str "Echo Query Keyword");
       item_documentation :=
         Some (str "Echo Query language keyword for query construction") |}.
Proof.
  intros item.
  pose (document := {| uri := "file:///q.echo"; getText := [] |}).
  pose (docs := <["file:///q.echo"%string := document]>
                  (∅ : gmap string TextDocument)).
  assert (H : In item (items (completion docs "file:///q.echo"
                                {| line := 0; character := 0 |})))
    by (vm_compute; auto).
  destruct (resolve_replaces_detail_and_documentation docs "file:///q.echo"
              {| line := 0; character := 0 |} item H)
    as (H1 & H2 & H3 & H4 & _).
  destruct (resolveCompletion (returned item)) as [l k d o].
  cbn in H1, H2, H3, H4. subst. reflexivity.
Defined.

(** ** The markers of the editor *)

Lemma diagnostic_in_text (text : jsstring) (d : Diagnostic) :
  In d (Debounced.diagnosticsOf text) \/ In d (Immediate.diagnosticsOf text) ->
  exists i : nat,
    (i < length (split LF text))%nat /\ well_formed (Z.of_nat i) d.
Proof.
  unfold Debounced.diagnosticsOf, Immediate.diagnosticsOf, forEach.
  intros [H | H]; apply in_forEach_from in H as (i & l & Hi & H);
    exists i; rewrite Z.add_0_l in H;
    (split; [apply nth_error_Some; congruence|]).
  - apply (debounced_checkLine_shape _ _ _ H).
  - apply (immediate_checkLine_shape _ _ _ H).
Qed.

Lemma send_markers m s : Client.markers (Client.send m s) = Client.markers s.
Proof. unfold Client.send. destruct (Client.ws s); reflexivity. Qed.

Lemma sendDocumentChange_markers s :
  Client.markers (Client.sendDocumentChange s) = Client.markers s.
Proof.
  unfold Client.sendDocumentChange.
  destruct (negb (Client.initialized s) || _); [reflexivity|].
  apply send_markers.
Qed.

(** X18.  What the editor shows for the diagnostics of the server.  When a
    [textDocument/publishDiagnostics] message arrives, the markers of the
    model become the images of its diagnostics, in order.  For a diagnostic
    that either validator computes for a text, the marker lies on one line,
    whose 1-based number is a line of the text, starts at column 1, does not
    end before it starts, carries the message of the diagnostic, and is an
    error marker for an Error and a warning marker for a Warning. *)
Theorem markers_of_the_diagnostics (text : jsstring) (d : Diagnostic) :
  In d (Debounced.diagnosticsOf text) \/ In d (Immediate.diagnosticsOf text) ->
  let m := Client.toMarker d in
  Client.startLineNumber m = Client.endLineNumber m
  /\ 1 <= Client.startLineNumber m <= arr_length (split LF text)
  /\ Client.startColumn m = 1
  /\ Client.startColumn m <= Client.endColumn m
  /\ Client.marker_message m = message d
  /\ ((severity d = Error /\ Client.marker_severity m = Client.Error)
      \/ (severity d = Warning /\ Client.marker_severity m = Client.Warning))
  /\ (forall s msg ms,
        Client.publishes msg = true -> Client.markers s = Some ms ->
        Client.markers (Client.onmessage msg s)
        = Some (map Client.toMarker (Client.msg_diagnostics msg))).
Proof.
  intros H. cbv zeta.
  destruct (diagnostic_in_text text d H)
    as (i & Hi & L1 & L2 & C0 & C1 & _ & Hsev).
  unfold Client.toMarker at 1 2 3 4 5 6 7, arr_length.
  cbn [Client.startLineNumber Client.endLineNumber Client.startColumn
       Client.endColumn Client.marker_message Client.marker_severity].
  rewrite L1, L2, C0.
  split; [reflexivity|]. split; [lia|]. split; [reflexivity|].
  split; [lia|]. split; [reflexivity|]. split.
  - destruct Hsev as [[E _] | [E _]]; [right | left];
      (split; [exact E|]); unfold Client.toMarker;
      cbn [Client.marker_severity]; rewrite E; reflexivity.
  - intros s msg ms Hp Hm. unfold Client.onmessage. cbv zeta. rewrite Hp.
    set (s1 := if negb (Client.initialized s) && Client.answers_initialize msg
               then _ else s).
    assert (E : Client.markers s1 = Some ms).
    { unfold s1. destruct (negb (Client.initialized s) && _); [|exact Hm].
      rewrite sendDocumentChange_markers, send_markers. exact Hm. }
    rewrite E. reflexivity.
Qed.

Lemma markers_of_the_diagnostics_witness :
  let m := Client.toMarker (diag Warning 1 7 msg_map_shape) in
  Client.startLineNumber m = Client.endLineNumber m
  /\ 1 <= Client.startLineNumber m <= 2
  /\ Client.startColumn m = 1
  /\ Client.startColumn m <= Client.endColumn m.
Proof.
  assert (H : In (diag Warning 1 7 msg_map_shape)
                (Debounced.diagnosticsOf (str "INDEX users" ++ [LF] ++ str "  MAP x"))
              \/ In (diag Warning 1 7 msg_map_shape)
                   (Immediate.diagnosticsOf
                      (str "INDEX users" ++ [LF] ++ str "  MAP x")))
    by (left; vm_compute; auto).
  destruct (markers_of_the_diagnostics _ _ H) as (H1 & H2 & H3 & H4 & _).
  split; [exact H1|]. split; [exact H2|]. split; [exact H3 | exact H4].
Defined.

(** ** The connection of the client *)

Lemma client_run_cons s e es :
  Client.run s (e :: es) = Client.run (Client.step s e) es.
Proof. reflexivity. Qed.

Lemma client_run_app s es es' :
  Client.run s (es ++ es') = Client.run (Client.run s es) es'.
Proof. apply fold_left_app. Qed.

(** What [connectToServer] leaves alone. *)
Lemma connect_frame s :
  let s' := Client.connectToServer s in
  Client.initialized s' = Client.initialized s
  /\ Client.nextRequestId s' = Client.nextRequestId s
  /\ Client.reconnectAttempts s' = Client.reconnectAttempts s
  /\ Client.reconnects s' = Client.reconnects s
  /\ Client.clock s' = Client.clock s
  /\ Client.outbox s' = Client.outbox s.
Proof.
  unfold Client.connectToServer.
  destruct (Client.MAX_RECONNECT_ATTEMPTS <=? Client.reconnectAttempts s);
    repeat split; reflexivity.
Qed.

Lemma timeouts_frame {A : Type} (fired : list A) :
  forall s,
    let s' := fold_left (fun s' _ => Client.connectToServer s') fired s in
    Client.initialized s' = Client.initialized s
    /\ Client.nextRequestId s' = Client.nextRequestId s
    /\ Client.reconnectAttempts s' = Client.reconnectAttempts s
    /\ Client.reconnects s' = Client.reconnects s
    /\ Client.clock s' = Client.clock s
    /\ Client.outbox s' = Client.outbox s.
Proof.
  induction fired as [|x fired IH]; intros s; cbv zeta; [repeat split; reflexivity|].
  cbn [fold_left].
  destruct (IH (Client.connectToServer s)) as (H1 & H2 & H3 & H4 & H5 & H6).
  destruct (connect_frame s) as (G1 & G2 & G3 & G4 & G5 & G6).
  cbv zeta in *. rewrite H1, H2, H3, H4, H5, H6.
  repeat split; assumption.
Qed.

Lemma client_tick_frame s :
  let s' := Client.tick s in
  Client.initialized s' = Client.initialized s
  /\ Client.nextRequestId s' = Client.nextRequestId s
  /\ Client.reconnectAttempts s' = Client.reconnectAttempts s
  /\ Client.outbox s' = Client.outbox s.
Proof.
  unfold Client.tick. cbv zeta.
  match goal with
  | |- context [fold_left ?f ?l ?s0] =>
      destruct (timeouts_frame l s0) as (H1 & H2 & H3 & _ & _ & H6)
  end.
  rewrite H1, H2, H3, H6. repeat split; reflexivity.
Qed.

Lemma client_wait_frame n :
  forall s,
    let s' := Client.wait n s in
    Client.initialized s' = Client.initialized s
    /\ Client.nextRequestId s' = Client.nextRequestId s
    /\ Client.reconnectAttempts s' = Client.reconnectAttempts s
    /\ Client.outbox s' = Client.outbox s.
Proof.
  induction n as [|n IH]; intros s; cbv zeta; [repeat split; reflexivity|].
  cbn [Client.wait].
  destruct (IH (Client.tick s)) as (H1 & H2 & H3 & H4).
  destruct (client_tick_frame s) as (G1 & G2 & G3 & G4).
  cbv zeta in *. rewrite H1, H2, H3, H4. repeat split; assumption.
Qed.

(** What a message sent adds to the outbox. *)
Lemma send_frame m s :
  let s' := Client.send m s in
  Client.initialized s' = Client.initialized s
  /\ Client.nextRequestId s' = Client.nextRequestId s
  /\ Client.reconnectAttempts s' = Client.reconnectAttempts s
  /\ Client.sockets s' = Client.sockets s
  /\ Client.reconnects s' = Client.reconnects s
  /\ Client.ws s' = Client.ws s
  /\ (Client.outbox s' = Client.outbox s
      \/ exists k, Client.outbox s' = Client.outbox s ++ [(k, m)]).
Proof.
  unfold Client.send. destruct (Client.ws s) as [k|] eqn:W; cbv zeta; cbn.
  - repeat split; try reflexivity; try assumption.
    right. exists k. reflexivity.
  - repeat split; try reflexivity; try assumption. left. reflexivity.
Qed.

Lemma sendDocumentChange_frame s :
  let s' := Client.sendDocumentChange s in
  Client.initialized s' = Client.initialized s
  /\ Client.nextRequestId s' = Client.nextRequestId s
  /\ Client.reconnectAttempts s' = Client.reconnectAttempts s
  /\ Client.sockets s' = Client.sockets s
  /\ Client.reconnects s' = Client.reconnects s
  /\ Client.ws s' = Client.ws s
  /\ (Client.outbox s' = Client.outbox s
      \/ Client.initialized s = true
         /\ exists k v t,
              Client.outbox s'
              = Client.outbox s ++ [(k, Client.DidChangeNotification Client.documentUri v t)]).
Proof.
  unfold Client.sendDocumentChange.
  destruct (Client.initialized s) eqn:I; cbn [negb orb].
  - destruct (Client.ws s) as [k|] eqn:W; [|repeat split; auto].
    destruct (send_frame
                (Client.DidChangeNotification Client.documentUri
                   (Client.clock s) (Client.value s)) s)
      as (H1 & H2 & H3 & H4 & H5 & H6 & H7).
    cbv zeta in *. rewrite H1, H2, H3, H4, H5, H6.
    repeat split; auto. destruct H7 as [H7 | [k' H7]]; [auto|].
    right. split; [reflexivity|]. eauto.
  - repeat split; auto.
Qed.

Lemma initialize_ids_app a b :
  Client.initialize_ids (a ++ b)
  = Client.initialize_ids a ++ Client.initialize_ids b.
Proof.
  induction a as [|[k m] a IH]; [reflexivity|].
  cbn [app Client.initialize_ids]. destruct m; rewrite IH; reflexivity.
Qed.

Lemma increasing_snoc zs n :
  Client.increasing zs = true -> Forall (fun z => z < n) zs ->
  Client.increasing (zs ++ [n]) = true.
Proof.
  induction zs as [|a zs IH]; intros H F; [reflexivity|].
  inversion F as [|? ? Ha F']; subst.
  destruct zs as [|b zs].
  - cbn. apply andb_true_iff. split; [apply Z.ltb_lt; exact Ha | reflexivity].
  - change (Client.increasing ((a :: b :: zs) ++ [n]))
      with ((a <? b) && Client.increasing ((b :: zs) ++ [n])).
    change (Client.increasing (a :: b :: zs))
      with ((a <? b) && Client.increasing (b :: zs)) in H.
    apply andb_true_iff in H as [H1 H2]. rewrite H1. apply IH; assumption.
Qed.

Lemma didChanges_app a b :
  Client.didChanges (a ++ b) = Client.didChanges a ++ Client.didChanges b.
Proof. apply List.filter_app. Qed.

(** What the handler of a message does to the connection. *)
Lemma onmessage_frame msg s :
  let s' := Client.onmessage msg s in
  Client.nextRequestId s' = Client.nextRequestId s
  /\ Client.reconnectAttempts s' = Client.reconnectAttempts s
  /\ Client.sockets s' = Client.sockets s
  /\ Client.reconnects s' = Client.reconnects s
  /\ Client.initialize_ids (Client.outbox s')
     = Client.initialize_ids (Client.outbox s)
  /\ (Client.initialized s = false -> Client.answers_initialize msg = false ->
      Client.initialized s' = false /\ Client.outbox s' = Client.outbox s).
Proof.
  unfold Client.onmessage. cbv zeta.
  set (s0 := {| Client.initialized := true;
                Client.nextRequestId := Client.nextRequestId s |}).
  set (s1 := if negb (Client.initialized s) && Client.answers_initialize msg
             then Client.sendDocumentChange (Client.send Client.InitializedNotification s0)
             else s).
  assert (H1 : Client.nextRequestId s1 = Client.nextRequestId s
               /\ Client.reconnectAttempts s1 = Client.reconnectAttempts s
               /\ Client.sockets s1 = Client.sockets s
               /\ Client.reconnects s1 = Client.reconnects s
               /\ Client.initialize_ids (Client.outbox s1)
                  = Client.initialize_ids (Client.outbox s)
               /\ (Client.initialized s = false ->
                   Client.answers_initialize msg = false ->
                   Client.initialized s1 = false
                   /\ Client.outbox s1 = Client.outbox s)).
  { unfold s1.
    destruct (negb (Client.initialized s) && Client.answers_initialize msg) eqn:E.
    - destruct (send_frame Client.InitializedNotification s0)
        as (_ & A2 & A3 & A4 & A5 & _ & A7).
      destruct (sendDocumentChange_frame
                  (Client.send Client.InitializedNotification s0))
        as (_ & B2 & B3 & B4 & B5 & _ & B7).
      cbv zeta in *. rewrite B2, B3, B4, B5, A2, A3, A4, A5.
      split; [reflexivity|]. split; [reflexivity|]. split; [reflexivity|].
      split; [reflexivity|]. split.
      + destruct B7 as [-> | (_ & k & v & t & ->)];
          destruct A7 as [-> | (k' & ->)];
          rewrite ?initialize_ids_app; cbn; rewrite ?app_nil_r; reflexivity.
      + intros I A. rewrite I, A in E. discriminate.
    - repeat split; auto. }
  clearbody s1. clear s0.
  destruct (Client.publishes msg); [|exact H1].
  destruct (Client.markers s1); [|exact H1].
  exact H1.
Qed.

(** What a step does to the request ids. *)
Lemma client_step_ids s e :
  Client.nextRequestId (Client.step s e)
  = Client.nextRequestId s + (if Client.is_open e then 1 else 0)
  /\ Client.initialize_ids (Client.outbox (Client.step s e))
     = Client.initialize_ids (Client.outbox s)
       ++ (if Client.is_open e
           then match Client.ws s with
                | Some _ => [Client.nextRequestId s]
                | None => []
                end
           else []).
Proof.
  destruct e as [| | |msg|content|n]; cbn [Client.step Client.is_open];
    rewrite ?Z.add_0_r, ?app_nil_r.
  - unfold Client.onopen, Client.send. cbn.
    destruct (Client.ws s); cbn; [|rewrite app_nil_r; auto].
    rewrite initialize_ids_app. auto.
  - auto.
  - auto.
  - destruct (onmessage_frame msg s) as (A1 & _ & _ & _ & A5 & _). auto.
  - unfold Client.onDidChangeModelContent.
    match goal with
    | |- context [Client.sendDocumentChange ?s0] =>
        destruct (sendDocumentChange_frame s0) as (_ & B2 & _ & _ & _ & _ & B7)
    end.
    cbv zeta in *. rewrite B2. split; [reflexivity|].
    destruct B7 as [-> | (_ & k & v & t & ->)]; [reflexivity|].
    rewrite initialize_ids_app. cbn. apply app_nil_r.
  - destruct (client_wait_frame n s) as (_ & A2 & _ & A4).
    cbv zeta in *. rewrite A2, A4. auto.
Qed.

Lemma opens_snoc events e :
  Client.opens (events ++ [e])
  = (Client.opens events + (if Client.is_open e then 1 else 0))%nat.
Proof.
  unfold Client.opens. rewrite List.filter_app, length_app. cbn.
  destruct (Client.is_open e); reflexivity.
Qed.

Lemma client_ids (t0 : Z) (events : list Client.Event) :
  let s := Client.run (Client.start t0) events in
  Client.nextRequestId s = 1 + Z.of_nat (Client.opens events)
  /\ Client.increasing (Client.initialize_ids (Client.outbox s)) = true
  /\ Forall (fun id => 1 <= id <= Z.of_nat (Client.opens events))
       (Client.initialize_ids (Client.outbox s)).
Proof.
  cbv zeta. induction events as [|e events IH] using rev_ind.
  - cbn. repeat split; constructor.
  - rewrite client_run_app, opens_snoc.
    set (s := Client.run (Client.start t0) events) in *.
    destruct IH as (N & I & F).
    change (Client.run s [e]) with (Client.step s e).
    destruct (client_step_ids s e) as [N' O']. rewrite N', O', N.
    destruct (Client.is_open e).
    + split; [lia|]. destruct (Client.ws s).
      * split.
        -- apply increasing_snoc; [exact I|].
           eapply List.Forall_impl; [|exact F]. cbv beta. intros; lia.
        -- apply Forall_app. split.
           ++ eapply List.Forall_impl; [|exact F]. cbv beta. intros; lia.
           ++ constructor; [lia | constructor].
      * rewrite app_nil_r. split; [exact I|].
        eapply List.Forall_impl; [|exact F]. cbv beta. intros; lia.
    + rewrite app_nil_r, Nat.add_0_r, Z.add_0_r. auto.
Qed.

(** X19.  Request ids are used once.  The initialize request that the
    client sends when a socket opens for the nth time carries the id n:
    the counter [nextRequestId] goes up by one at every opening and at no
    other moment, so that the ids of the requests sent increase strictly and
    only the request of the first opening carries the id 1. *)
Theorem request_ids_are_used_once (t0 : Z) (events : list Client.Event) :
  let s := Client.run (Client.start t0) events in
  Client.nextRequestId s = 1 + Z.of_nat (Client.opens events)
  /\ Client.increasing (Client.initialize_ids (Client.outbox s)) = true
  /\ Forall (fun id => 1 <= id <= Z.of_nat (Client.opens events))
       (Client.initialize_ids (Client.outbox s))
  /\ (forall socket,
        Client.ws s = Some socket ->
        Client.outbox (Client.step s Client.Open)
        = Client.outbox s
          ++ [(socket,
               Client.InitializeRequest (1 + Z.of_nat (Client.opens events)))]).
Proof.
  cbv zeta. destruct (client_ids t0 events) as (N & I & F).
  split; [exact N|]. split; [exact I|]. split; [exact F|].
  set (s := Client.run (Client.start t0) events) in *. clearbody s.
  intros socket W. cbn [Client.step]. unfold Client.onopen, Client.send.
  cbn [Client.ws Client.outbox Client.nextRequestId].
  rewrite W. cbn [Client.outbox]. rewrite N. reflexivity.
Qed.

(** As long as no message is taken for the answer to the first request, a
    client that is not initialized stays so and sends no change. *)
Lemma client_step_uninitialized s e :
  Client.initialized s = false -> Client.taken_for_answer e = false ->
  Client.initialized (Client.step s e) = false
  /\ Client.didChanges (Client.outbox (Client.step s e))
     = Client.didChanges (Client.outbox s).
Proof.
  intros I T. destruct e as [| | |msg|content|n]; cbn [Client.step].
  - unfold Client.onopen.
    match goal with
    | |- context [Client.send ?m ?s0] =>
        destruct (send_frame m s0) as (A1 & _ & _ & _ & _ & _ & A7)
    end.
    cbv zeta in *. rewrite A1. split; [exact I|].
    destruct A7 as [-> | (k & ->)]; [reflexivity|].
    rewrite didChanges_app. cbn. apply app_nil_r.
  - auto.
  - auto.
  - destruct (onmessage_frame msg s) as (_ & _ & _ & _ & _ & A6).
    destruct (A6 I T) as [A B]. rewrite A, B. auto.
  - unfold Client.onDidChangeModelContent, Client.sendDocumentChange.
    cbn [Client.initialized]. rewrite I. cbn. auto.
  - destruct (client_wait_frame n s) as (A1 & _ & _ & A4).
    cbv zeta in *. rewrite A1, A4. auto.
Qed.

Lemma client_run_uninitialized events :
  forall s,
    Client.initialized s = false ->
    forallb (fun e => negb (Client.taken_for_answer e)) events = true ->
    Client.initialized (Client.run s events) = false
    /\ Client.didChanges (Client.outbox (Client.run s events))
       = Client.didChanges (Client.outbox s).
Proof.
  induction events as [|e events IH]; intros s I H; [auto|].
  cbn [forallb] in H. apply andb_true_iff in H as [He H].
  apply negb_true_iff in He.
  destruct (client_step_uninitialized s e I He) as [I' D'].
  rewrite client_run_cons. destruct (IH _ I' H) as [I'' D''].
  rewrite I'', D'', D'. auto.
Qed.

(** The requests sent from a state on carry ids from its [nextRequestId]
    on. *)
Lemma client_run_later_ids events :
  forall s,
    Client.nextRequestId s <= Client.nextRequestId (Client.run s events)
    /\ exists later,
         Client.initialize_ids (Client.outbox (Client.run s events))
         = Client.initialize_ids (Client.outbox s) ++ later
         /\ Forall (fun id => Client.nextRequestId s <= id) later.
Proof.
  induction events as [|e events IH]; intros s.
  - split; [cbn; lia|]. exists []. rewrite app_nil_r. split; [reflexivity|].
    constructor.
  - rewrite client_run_cons.
    destruct (IH (Client.step s e)) as (N & later & E & F).
    destruct (client_step_ids s e) as [N' O'].
    assert (M : Client.nextRequestId s <= Client.nextRequestId (Client.step s e))
      by (rewrite N'; destruct (Client.is_open e); lia).
    split; [lia|]. rewrite E, O', <- app_assoc. eexists. split; [reflexivity|].
    apply Forall_app. split.
    + destruct (Client.is_open e); [|constructor].
      destruct (Client.ws s); constructor; [lia | constructor].
    + eapply List.Forall_impl; [|exact F]. cbv beta. intros; lia.
Qed.

(** X20.  A reconnection never resumes the synchronisation of the text.
    Once a socket has closed, the client is not initialized, and it stays so
    until a message with the id 1 arrives: whatever happens meanwhile (new
    sockets opening, other messages, edits, time passing), it sends no
    [textDocument/didChange] notification, so that the edits made from then
    on do not reach the server.  The initialize requests sent after the
    close carry ids above the number of openings before it: once a socket
    had opened, none of them carries the id 1. *)
Theorem reconnection_does_not_resume_synchronisation (t0 : Z)
  (before after : list Client.Event) :
  forallb (fun e => negb (Client.taken_for_answer e)) after = true ->
  let closed := Client.run (Client.start t0) (before ++ [Client.Close]) in
  let s := Client.run closed after in
  Client.initialized closed = false
  /\ Client.initialized s = false
  /\ Client.didChanges (Client.outbox s) = Client.didChanges (Client.outbox closed)
  /\ exists later,
       Client.initialize_ids (Client.outbox s)
       = Client.initialize_ids (Client.outbox closed) ++ later
       /\ Forall (fun id => 1 + Z.of_nat (Client.opens before) <= id) later.
Proof.
  intros H. cbv zeta.
  assert (I : Client.initialized
                (Client.run (Client.start t0) (before ++ [Client.Close]))
              = false).
  { rewrite client_run_app. reflexivity. }
  split; [exact I|].
  destruct (client_run_uninitialized after _ I H) as [I' D'].
  split; [exact I'|]. split; [exact D'|].
  destruct (client_run_later_ids after
              (Client.run (Client.start t0) (before ++ [Client.Close])))
    as (_ & later & E & F).
  exists later. split; [exact E|].
  destruct (client_ids t0 (before ++ [Client.Close])) as (N & _).
  cbv zeta in N. rewrite N, opens_snoc in F. cbn [Client.is_open] in F.
  rewrite Nat.add_0_r in F. exact F.
Qed.

Lemma reconnection_does_not_resume_synchronisation_witness :
  let answer id :=
    Client.Message {| Client.msg_id := Some id; Client.msg_method := None;
                      Client.msg_diagnostics := [] |} in
  let before := [Client.Open; answer 1; Client.ContentChanged (str "INDEX a")] in
  let after := [Client.Wait 1000; Client.Open; answer 2;
                Client.ContentChanged (str "INDEX b")] in
  length (Client.didChanges
            (Client.outbox
               (Client.run (Client.start 0) (before ++ [Client.Close]))))
  = 2%nat
  /\ Client.didChanges
       (Client.outbox
          (Client.run
             (Client.run (Client.start 0) (before ++ [Client.Close])) after))
     = Client.didChanges
         (Client.outbox
            (Client.run (Client.start 0) (before ++ [Client.Close]))).
Proof.
  intros answer before after.
  destruct (reconnection_does_not_resume_synchronisation 0 before after eq_refl)
    as (_ & _ & H & _).
  split; [reflexivity | exact H].
Defined.

(** ** Reconnecting *)

(** The bound kept while no socket opens: with [k] expired timeouts still
    to run. *)
Lemma connect_bound s (k : Z) :
  0 <= k ->
  Z.of_nat (Client.sockets s) + Z.of_nat (length (Client.reconnects s)) + (k + 1)
  <= 1 + Client.reconnectAttempts s ->
  (Client.sockets s <= 5)%nat ->
  let s' := Client.connectToServer s in
  Z.of_nat (Client.sockets s') + Z.of_nat (length (Client.reconnects s')) + k
  <= 1 + Client.reconnectAttempts s'
  /\ (Client.sockets s' <= 5)%nat.
Proof.
  intros Hk H B. unfold Client.connectToServer, Client.MAX_RECONNECT_ATTEMPTS.
  destruct (5 <=? Client.reconnectAttempts s) eqn:E; cbv zeta; cbn.
  - split; lia.
  - apply Z.leb_gt in E. split; lia.
Qed.

Lemma timeouts_bound {A : Type} (fired : list A) :
  forall s,
    Z.of_nat (Client.sockets s) + Z.of_nat (length (Client.reconnects s))
    + Z.of_nat (length fired)
    <= 1 + Client.reconnectAttempts s ->
    (Client.sockets s <= 5)%nat ->
    let s' := fold_left (fun s' _ => Client.connectToServer s') fired s in
    Z.of_nat (Client.sockets s') + Z.of_nat (length (Client.reconnects s'))
    <= 1 + Client.reconnectAttempts s'
    /\ (Client.sockets s' <= 5)%nat.
Proof.
  induction fired as [|x fired IH]; intros s H B; cbv zeta.
  - cbn in *. split; [lia | exact B].
  - cbn [fold_left].
    destruct (connect_bound s (Z.of_nat (length fired))) as [H' B'];
      [lia | cbn [length] in H; lia | exact B |].
    apply IH; assumption.
Qed.

Lemma client_tick_bound s :
  Z.of_nat (Client.sockets s) + Z.of_nat (length (Client.reconnects s))
  <= 1 + Client.reconnectAttempts s ->
  (Client.sockets s <= 5)%nat ->
  Z.of_nat (Client.sockets (Client.tick s))
  + Z.of_nat (length (Client.reconnects (Client.tick s)))
  <= 1 + Client.reconnectAttempts (Client.tick s)
  /\ (Client.sockets (Client.tick s) <= 5)%nat.
Proof.
  intros H B. unfold Client.tick. cbv zeta.
  apply timeouts_bound; cbn [Client.sockets Client.reconnects
                               Client.reconnectAttempts]; [|exact B].
  pose proof (filter_partition_length
                (fun due => due <=? Client.clock s + 1) (Client.reconnects s)).
  lia.
Qed.

Lemma client_wait_bound n :
  forall s,
    Z.of_nat (Client.sockets s) + Z.of_nat (length (Client.reconnects s))
    <= 1 + Client.reconnectAttempts s ->
    (Client.sockets s <= 5)%nat ->
    Z.of_nat (Client.sockets (Client.wait n s))
    + Z.of_nat (length (Client.reconnects (Client.wait n s)))
    <= 1 + Client.reconnectAttempts (Client.wait n s)
    /\ (Client.sockets (Client.wait n s) <= 5)%nat.
Proof.
  induction n as [|n IH]; intros s H B; [auto|].
  cbn [Client.wait]. destruct (client_tick_bound s H B) as [H' B'].
  apply IH; assumption.
Qed.

Lemma client_step_bound s e :
  Client.is_open e = false ->
  Z.of_nat (Client.sockets s) + Z.of_nat (length (Client.reconnects s))
  <= 1 + Client.reconnectAttempts s ->
  (Client.sockets s <= 5)%nat ->
  Z.of_nat (Client.sockets (Client.step s e))
  + Z.of_nat (length (Client.reconnects (Client.step s e)))
  <= 1 + Client.reconnectAttempts (Client.step s e)
  /\ (Client.sockets (Client.step s e) <= 5)%nat.
Proof.
  intros O H B. destruct e as [| | |msg|content|n]; cbn [Client.step].
  - discriminate.
  - auto.
  - unfold Client.onclose. cbn. rewrite length_app. cbn. split; [lia | exact B].
  - destruct (onmessage_frame msg s) as (_ & A2 & A3 & A4 & _).
    cbv zeta in *. rewrite A2, A3, A4. auto.
  - unfold Client.onDidChangeModelContent.
    match goal with
    | |- context [Client.sendDocumentChange ?s0] =>
        destruct (sendDocumentChange_frame s0) as (_ & _ & B3 & B4 & B5 & _)
    end.
    cbv zeta in *. rewrite B3, B4, B5. cbn. auto.
  - apply client_wait_bound; assumption.
Qed.

(** X21.  The client gives up after five attempts.  As long as no socket
    opens, the client creates at most five sockets, the first one included,
    whatever the order of the close events, the messages, the edits and the
    waits; once five sockets have closed in a row, [connectToServer] does
    nothing.  The bound is reached: five sockets that each close, one
    second apart, leave the client without a socket and with no timeout
    armed. *)
Theorem the_client_gives_up_after_five_attempts (t0 : Z)
  (events : list Client.Event) :
  forallb (fun e => negb (Client.is_open e)) events = true ->
  let s := Client.run (Client.start t0) events in
  (Client.sockets s <= 5)%nat
  /\ (5 <= Client.reconnectAttempts s -> Client.connectToServer s = s)
  /\ (let failing := [Client.Close; Client.Wait 1000; Client.Close;
                      Client.Wait 1000; Client.Close; Client.Wait 1000;
                      Client.Close; Client.Wait 1000; Client.Close;
                      Client.Wait 1000] in
      let s5 := Client.run (Client.start 0) failing in
      Client.sockets s5 = 5%nat /\ Client.ws s5 = None
      /\ Client.reconnects s5 = []
      /\ Client.ws (Client.run s5 [Client.Wait 3000]) = None
      /\ Client.sockets (Client.run s5 [Client.Close; Client.Wait 1000]) = 5%nat).
Proof.
  intros H. cbv zeta. split; [|split].
  - assert (G : forall s,
               Z.of_nat (Client.sockets s)
               + Z.of_nat (length (Client.reconnects s))
               <= 1 + Client.reconnectAttempts s ->
               (Client.sockets s <= 5)%nat ->
               (Client.sockets (Client.run s events) <= 5)%nat).
    { induction events as [|e events IH]; intros s A B; [exact B|].
      cbn [forallb] in H. apply andb_true_iff in H as [He H].
      apply negb_true_iff in He. rewrite client_run_cons.
      destruct (client_step_bound s e He A B) as [A' B'].
      apply IH; assumption. }
    apply G; cbn; lia.
  - intros A. unfold Client.connectToServer, Client.MAX_RECONNECT_ATTEMPTS.
    apply Z.leb_le in A. rewrite A. reflexivity.
  - vm_compute. repeat split; reflexivity.
Qed.

Lemma the_client_gives_up_after_five_attempts_witness :
  (Client.sockets
     (Client.run (Client.start 0)
        [Client.Close; Client.Close; Client.Close; Client.Wait 2000;
         Client.ContentChanged (str "x"); Client.Close; Client.Close;
         Client.Close; Client.Wait 5000]) <= 5)%nat.
Proof.
  destruct (the_client_gives_up_after_five_attempts 0
              [Client.Close; Client.Close; Client.Close; Client.Wait 2000;
               Client.ContentChanged (str "x"); Client.Close; Client.Close;
               Client.Close; Client.Wait 5000] eq_refl) as [H _].
  exact H.
Defined.

Lemma client_wait_add a b s :
  Client.wait (a + b) s = Client.wait b (Client.wait a s).
Proof.
  revert s. induction a as [|a IH]; intros s; [reflexivity|].
  cbn [Nat.add Client.wait]. apply IH.
Qed.

Lemma client_tick_pending s due :
  Client.reconnects s = [due] -> Client.clock s + 1 < due ->
  Client.ws (Client.tick s) = Client.ws s
  /\ Client.sockets (Client.tick s) = Client.sockets s
  /\ Client.reconnects (Client.tick s) = [due]
  /\ Client.clock (Client.tick s) = Client.clock s + 1
  /\ Client.reconnectAttempts (Client.tick s) = Client.reconnectAttempts s.
Proof.
  intros R H. unfold Client.tick. cbv zeta. rewrite R. cbn [List.filter].
  replace (due <=? Client.clock s + 1) with false
    by (symmetry; apply Z.leb_gt; exact H).
  cbn. auto.
Qed.

Lemma client_wait_pending n :
  forall s due,
    Client.reconnects s = [due] -> Client.clock s + Z.of_nat n < due ->
    Client.ws (Client.wait n s) = Client.ws s
    /\ Client.sockets (Client.wait n s) = Client.sockets s
    /\ Client.reconnects (Client.wait n s) = [due]
    /\ Client.clock (Client.wait n s) = Client.clock s + Z.of_nat n
    /\ Client.reconnectAttempts (Client.wait n s) = Client.reconnectAttempts s.
Proof.
  induction n as [|n IH]; intros s due R H.
  - cbn [Client.wait]. rewrite Z.add_0_r. auto.
  - cbn [Client.wait].
    destruct (client_tick_pending s due R) as (A1 & A2 & A3 & A4 & A5); [lia|].
    destruct (IH (Client.tick s) due A3) as (B1 & B2 & B3 & B4 & B5); [lia|].
    rewrite B1, B2, B3, B4, B5, A1, A2, A4, A5. repeat split; try reflexivity.
    lia.
Qed.

Lemma client_tick_fires s due :
  Client.reconnects s = [due] -> due <= Client.clock s + 1 ->
  Client.reconnects (Client.tick s) = []
  /\ Client.ws (Client.tick s)
     = (if 5 <=? Client.reconnectAttempts s then Client.ws s
        else Some (Client.sockets s))
  /\ Client.sockets (Client.tick s)
     = (if 5 <=? Client.reconnectAttempts s then Client.sockets s
        else S (Client.sockets s)).
Proof.
  intros R H. unfold Client.tick. cbv zeta. rewrite R. cbn [List.filter].
  replace (due <=? Client.clock s + 1) with true
    by (symmetry; apply Z.leb_le; exact H).
  cbn [negb fold_left]. unfold Client.connectToServer,
    Client.MAX_RECONNECT_ATTEMPTS. cbn [Client.reconnectAttempts].
  destruct (5 <=? Client.reconnectAttempts s); cbn; auto.
Qed.

Lemma client_wait_idle n :
  forall s,
    Client.reconnects s = [] ->
    Client.reconnects (Client.wait n s) = []
    /\ Client.ws (Client.wait n s) = Client.ws s
    /\ Client.sockets (Client.wait n s) = Client.sockets s.
Proof.
  induction n as [|n IH]; intros s R; [auto|].
  cbn [Client.wait].
  assert (T : Client.reconnects (Client.tick s) = []
              /\ Client.ws (Client.tick s) = Client.ws s
              /\ Client.sockets (Client.tick s) = Client.sockets s).
  { unfold Client.tick. cbv zeta. rewrite R. cbn. auto. }
  destruct T as (T1 & T2 & T3). destruct (IH _ T1) as (A1 & A2 & A3).
  rewrite A1, A2, A3, T2, T3. auto.
Qed.

(** X22.  A reconnection is attempted one second after the close, not
    before and only once.  When a socket closes while no timeout is armed,
    the client has no socket during the next 999 ms; at 1000 ms, and from
    then on, it holds one new socket if fewer than five sockets have closed
    in a row, and otherwise it still has none. *)
Theorem a_reconnection_is_attempted_after_one_second (s : Client.State)
  (n : nat) :
  Client.reconnects s = [] ->
  let later := Client.run s [Client.Close; Client.Wait n] in
  ((n < 1000)%nat ->
   Client.ws later = None /\ Client.sockets later = Client.sockets s)
  /\ ((1000 <= n)%nat -> Client.reconnectAttempts s + 1 < 5 ->
      Client.ws later = Some (Client.sockets s)
      /\ Client.sockets later = S (Client.sockets s))
  /\ ((1000 <= n)%nat -> 5 <= Client.reconnectAttempts s + 1 ->
      Client.ws later = None /\ Client.sockets later = Client.sockets s).
Proof.
  intros R. cbv zeta.
  change (Client.run s [Client.Close; Client.Wait n])
    with (Client.wait n (Client.onclose s)).
  set (c := Client.onclose s).
  assert (Rc : Client.reconnects c = [Client.clock c + 1000]).
  { unfold c, Client.onclose, Client.RECONNECT_INTERVAL. cbn. rewrite R.
    reflexivity. }
  assert (Fired : (1000 <= n)%nat ->
            Client.ws (Client.wait n c)
            = (if 5 <=? Client.reconnectAttempts c then None
               else Some (Client.sockets s))
            /\ Client.sockets (Client.wait n c)
               = (if 5 <=? Client.reconnectAttempts c then Client.sockets s
                  else S (Client.sockets s))).
  { intros Hn. replace n with (999 + (1 + (n - 1000)))%nat by lia.
    rewrite client_wait_add, client_wait_add.
    destruct (client_wait_pending 999 c _ Rc) as (A1 & A2 & A3 & A4 & A5);
      [lia|].
    set (w := Client.wait 999 c) in *.
    change (Client.wait 1 w) with (Client.tick w).
    destruct (client_tick_fires w _ A3) as (B1 & B2 & B3); [lia|].
    destruct (client_wait_idle (n - 1000) _ B1) as (_ & C2 & C3).
    rewrite C2, C3, B2, B3, A1, A2, A5. auto. }
  split; [|split].
  - intros Hn.
    destruct (client_wait_pending n c _ Rc) as (A1 & A2 & _); [lia|].
    rewrite A1, A2. auto.
  - intros Hn Ha. destruct (Fired Hn) as [F1 F2]. rewrite F1, F2.
    replace (5 <=? Client.reconnectAttempts c) with false; [auto|].
    symmetry. apply Z.leb_gt. exact Ha.
  - intros Hn Ha. destruct (Fired Hn) as [F1 F2]. rewrite F1, F2.
    replace (5 <=? Client.reconnectAttempts c) with true; [auto|].
    symmetry. apply Z.leb_le. exact Ha.
Qed.

Lemma a_reconnection_is_attempted_after_one_second_witness :
  Client.ws (Client.run (Client.start 0) [Client.Close; Client.Wait 999]) = None
  /\ Client.ws (Client.run (Client.start 0) [Client.Close; Client.Wait 1000])
     = Some 1%nat.
Proof.
  destruct (a_reconnection_is_attempted_after_one_second (Client.start 0) 999
              eq_refl) as (H1 & _).
  destruct (a_reconnection_is_attempted_after_one_second (Client.start 0) 1000
              eq_refl) as (_ & H2 & _).
  split; [exact (proj1 (H1 ltac:(lia)))|].
  exact (proj1 (H2 ltac:(lia) ltac:(vm_compute; reflexivity))).
Defined.

(** ** The keywords across the handlers *)

Lemma debounced_unknown_of_line l j :
  blank l = false -> comment l = false -> spaces_only (trim l) = true ->
  List.filter (has_message msg_unknown_keyword) (Debounced.checkLine l j)
  = if arr_includes validStartKeywords (statementKeyword l) then []
    else [diag Error j (len (statementKeyword l)) msg_unknown_keyword].
Proof.
  intros Hb Hc Hs. unfold Debounced.checkLine.
  rewrite skipped_spec, Hb, Hc. simpl orb. cbv iota. cbv zeta.
  rewrite debounced_firstWord by assumption.
  repeat rewrite List.filter_app.
  destruct (arr_includes validStartKeywords (statementKeyword l));
    simpl negb; cbv iota;
    repeat match goal with
           | |- context [if ?b then _ else _] =>
               lazymatch b with context [l] => destruct b end
           end; reflexivity.
Qed.

Lemma keyword_items_at_line_start item :
  In item keywordItems ->
  arr_includes validStartKeywords (label item)
  = negb (str_eqb (label item) (str "NOT"))
  /\ keywordHover (label item) <> None
  /\ is_keyword (label item) = true.
Proof.
  unfold keywordItems. cbn [In]. intros H.
  repeat (destruct H as [<- | H];
          [split; [reflexivity|]; split; [discriminate | reflexivity]|]).
  contradiction.
Qed.

(** X23.  The keywords that completion offers and the validator.  Each of
    the seven keyword items of the completion list is a keyword for hover
    and for the formatter, but only six of them may start a line: on a line
    that is neither blank nor a comment and whose statement keyword is the
    label of the item, the validator reports the unknown-keyword Error
    exactly when the item is NOT.  The debouncing variant is considered on
    lines whose white space consists of spaces. *)
Theorem completion_offers_a_keyword_the_validator_rejects (text : jsstring)
  (i : nat) (l : jsstring) (item : CompletionItem) :
  nth_error (split LF text) i = Some l ->
  blank l = false -> comment l = false ->
  In item keywordItems -> statementKeyword l = label item ->
  keywordHover (label item) <> None
  /\ is_keyword (label item) = true
  /\ List.filter (reports msg_unknown_keyword (Z.of_nat i))
       (Immediate.diagnosticsOf text)
     = (if str_eqb (label item) (str "NOT")
        then [diag Error (Z.of_nat i) 3 msg_unknown_keyword] else [])
  /\ (spaces_only (trim l) = true ->
      List.filter (reports msg_unknown_keyword (Z.of_nat i))
        (Debounced.diagnosticsOf text)
      = if str_eqb (label item) (str "NOT")
        then [diag Error (Z.of_nat i) 3 msg_unknown_keyword] else []).
Proof.
  intros Hi Hb Hc Hitem Hkw.
  destruct (keyword_items_at_line_start item Hitem) as (A & B & C).
  split; [exact B|]. split; [exact C|].
  assert (E : (if arr_includes validStartKeywords (statementKeyword l) then []
               else [diag Error (Z.of_nat i) (len (statementKeyword l))
                       msg_unknown_keyword])
              = if str_eqb (label item) (str "NOT")
                then [diag Error (Z.of_nat i) 3 msg_unknown_keyword] else []).
  { rewrite Hkw, A. destruct (str_eqb (label item) (str "NOT")) eqn:N;
      [|reflexivity].
    apply str_eqb_eq in N. rewrite N. reflexivity. }
  split.
  - rewrite (immediate_reports _ _ _ _ Hi), immediate_unknown_of_line by assumption.
    exact E.
  - intros Hs.
    rewrite (debounced_reports _ _ _ _ Hi), debounced_unknown_of_line by assumption.
    exact E.
Qed.

Lemma completion_offers_a_keyword_the_validator_rejects_witness :
  List.filter (reports msg_unknown_keyword 1)
    (Immediate.diagnosticsOf (str "INDEX users" ++ [LF] ++ str "not age > 3"))
  = [diag Error 1 3 msg_unknown_keyword]
  /\ List.filter (reports msg_unknown_keyword 1)
       (Debounced.diagnosticsOf (str "INDEX users" ++ [LF] ++ str "not age > 3"))
     = [diag Error 1 3 msg_unknown_keyword].
Proof.
  assert (Hitem : In {| label := str "NOT"; kind := Keyword;
                        detail := str "NOT operator";
                        documentation := str "Negate a condition" |}
                    keywordItems)
    by (vm_compute; auto 10).
  destruct (completion_offers_a_keyword_the_validator_rejects
              (str "INDEX users" ++ [LF] ++ str "not age > 3") 1
              (str "not age > 3") _ eq_refl eq_refl eq_refl Hitem eq_refl)
    as (_ & _ & HI & HD).
  split; [exact HI | exact (HD eq_refl)].
Defined.

(** ** Comment lines outside the validator *)

Lemma execAll_position (m : matcher) (s : jsstring) :
  forall pos pos' prev k,
    map snd (execAll_from m pos prev k s)
    = map snd (execAll_from m pos' prev k s).
Proof.
  induction s as [|c s IH]; intros pos pos' prev k; [reflexivity|].
  cbn [execAll_from]. destruct k as [|k]; [|apply IH].
  destruct (m prev (c :: s)) as [[|n]|]; cbn [map snd]; try apply IH.
  f_equal. apply IH.
Qed.

Lemma bounded_alternation_prev ci alts p1 p2 s :
  is_word_opt p1 = is_word_opt p2 ->
  bounded_alternation ci alts p1 s = bounded_alternation ci alts p2 s.
Proof.
  intros H. unfold bounded_alternation, word_boundary. rewrite H.
  destruct (xorb _ _); [|reflexivity].
  induction alts as [|alt alts IH]; [reflexivity|].
  cbn [first_alternative]. rewrite IH.
  replace (try_alternative ci p1 s alt) with (try_alternative ci p2 s alt);
    [reflexivity|].
  unfold try_alternative, word_boundary, prev_after.
  destruct (last (firstn (length alt) s)); [reflexivity|].
  rewrite H. reflexivity.
Qed.

Lemma matchAll_commented ci alts l :
  matchAll (bounded_alternation ci alts) (str "//" ++ l)
  = matchAll (bounded_alternation ci alts) l.
Proof.
  unfold matchAll, execAll.
  change (str "//" ++ l) with ("/"%char :: "/"%char :: l).
  cbn [execAll_from].
  change (bounded_alternation ci alts None ("/"%char :: "/"%char :: l))
    with (@None nat).
  change (bounded_alternation ci alts (Some "/"%char) ("/"%char :: l))
    with (@None nat).
  cbv iota.
  rewrite (execAll_position _ l (0 + 1 + 1) 0).
  destruct l as [|c l]; [reflexivity|].
  cbn [execAll_from].
  rewrite (bounded_alternation_prev ci alts (Some "/"%char) None (c :: l))
    by reflexivity.
  reflexivity.
Qed.

Lemma names_of_lineSymbols docUri l i :
  map name (lineSymbols docUri l i)
  = matchAll keywordPattern l ++ matchAll fieldPattern l.
Proof.
  unfold lineSymbols. rewrite map_app, !map_map. cbn [name keywordSymbol fieldSymbol].
  rewrite !map_id. reflexivity.
Qed.

Lemma comment_mark l : comment (str "//" ++ l) = true.
Proof.
  unfold comment, trim.
  change (trimStart (str "//" ++ l)) with ("/"%char :: "/"%char :: l).
  rewrite (trimEnd_cons "/" ("/"%char :: l)), (trimEnd_cons "/" l).
  destruct (trimEnd l); reflexivity.
Qed.

(** X24.  Only the validator knows about comments.  Putting the comment
    mark in front of a line removes its diagnostics but not its symbols: the
    document symbols of the commented line have the same names, in the same
    order, as those of the line, and the keyword pass of the formatter puts
    its keywords in upper case all the same. *)
Theorem comments_are_known_to_the_validator_only (docUri : string)
  (l : jsstring) (i : Z) :
  map name (lineSymbols docUri (str "//" ++ l) i)
  = map name (lineSymbols docUri l i)
  /\ uppercaseKeywords (str "//" ++ l) = str "//" ++ uppercaseKeywords l
  /\ Debounced.checkLine (str "//" ++ l) i = []
  /\ Immediate.checkLine (str "//" ++ l) i = [].
Proof.
  split; [|split; [|split]].
  - rewrite !names_of_lineSymbols. unfold keywordPattern, fieldPattern.
    rewrite !matchAll_commented. reflexivity.
  - change (str "//" ++ l) with ("/"%char :: "/"%char :: l).
    rewrite !uppercaseKeywords_nonword by reflexivity. reflexivity.
  - apply debounced_checkLine_skipped. rewrite comment_mark. apply orb_true_r.
  - apply immediate_checkLine_skipped. rewrite comment_mark. apply orb_true_r.
Qed.

(** ** Diagnostics are eventually up to date *)

Lemma last_snoc_some {A : Type} (l : list A) (x : A) : last (l ++ [x]) = Some x.
Proof. rewrite last_app_nonempty by discriminate. reflexivity. Qed.

Lemma debounced_validate_documents d s :
  documents (DebouncedSession.validate d s) = documents s.
Proof.
  unfold DebouncedSession.validate. cbv zeta. cbn.
  apply clean_pending_documents.
Qed.

Lemma debounced_step_documents s e :
  documents (DebouncedSession.step s e)
  = match e with
    | DidChangeContent d => <[uri d := d]> (documents s)
    | DidClose d => delete (uri d) (documents s)
    | Elapse _ => documents s
    end.
Proof.
  destruct e as [d | d | n].
  - rewrite debounced_step_change, debounced_validate_documents. reflexivity.
  - rewrite debounced_step_close. unfold cleanDiagnostics. cbn.
    rewrite clean_pending_documents. reflexivity.
  - rewrite debounced_step_elapse.
    apply (elapse_timers_documents Debounced.diagnosticsOf n s).
Qed.

Lemma concerns_about u e : event_uri e = Some u -> concerns u e = true.
Proof. unfold concerns. intros ->. apply String.eqb_refl. Qed.

Lemma concerns_other u v e :
  event_uri e = Some v -> u <> v -> concerns u e = false.
Proof.
  unfold concerns. intros -> H. apply String.eqb_neq. congruence.
Qed.

Lemma concerns_elapse u e : event_uri e = None -> concerns u e = false.
Proof. unfold concerns. intros ->. reflexivity. Qed.

Lemma debounced_elapse_settles (u : string) (t : bool) (n : nat) (s : Server) :
  settled Debounced.diagnosticsOf u t s \/ scheduled u s ->
  let s' := elapse Debounced.diagnosticsOf n s in
  (settled Debounced.diagnosticsOf u t s' \/ scheduled u s')
  /\ ((500 <= n)%nat -> settled Debounced.diagnosticsOf u t s').
Proof.
  intros H. cbv zeta.
  destruct (elapse_timers_documents Debounced.diagnosticsOf n s) as [D _].
  destruct H as [[T L] | (tm & d & T & Hd & Hdoc & Hu & Hdue)].
  - destruct (elapse_quiet Debounced.diagnosticsOf u n s T) as (T' & _ & S' & _).
    assert (G : settled Debounced.diagnosticsOf u t
                  (elapse Debounced.diagnosticsOf n s)).
    { split; [exact T'|]. rewrite D, S'. exact L. }
    auto.
  - destruct (Z_lt_le_dec (now s + Z.of_nat n) (due tm)) as [Early | Late].
    + destruct (elapse_waiting Debounced.diagnosticsOf u n s tm T Early)
        as (T' & _ & _ & N').
      split; [|intros; lia].
      right. exists tm, d. rewrite D, N'. repeat split; auto; lia.
    + destruct (elapse_fires Debounced.diagnosticsOf u n s tm T)
        as (T' & _ & S'); [lia | lia |].
      assert (G : settled Debounced.diagnosticsOf u t
                    (elapse Debounced.diagnosticsOf n s)).
      { split; [exact T'|]. rewrite D, Hd, S', last_snoc_some, Hdoc.
        reflexivity. }
      auto.
Qed.

Lemma debounced_step_settles (u : string) (t : bool) (s : Server) (e : Event) :
  consistent s -> registered_armed s ->
  settled Debounced.diagnosticsOf u t s \/ scheduled u s ->
  settled Debounced.diagnosticsOf u (t || concerns u e)
    (DebouncedSession.step s e)
  \/ scheduled u (DebouncedSession.step s e).
Proof.
  intros C R H.
  destruct (event_uri e) as [v|] eqn:Ev.
  - destruct (String.eqb_spec u v) as [<- | Hne].
    + (* an event about [u] *)
      rewrite (concerns_about u e Ev), orb_true_r.
      destruct e as [d | d | n]; cbn in Ev; try discriminate;
        injection Ev as Ev.
      * right. rewrite debounced_step_change.
        set (s0 := set_documents (<[uri d:=d]> (documents s)) s).
        assert (C0 : consistent s0) by (apply set_documents_consistent, C).
        destruct (debounced_validate d s0 C0) as (T & _ & _ & _ & N).
        rewrite Ev in T.
        eexists. exists d. split; [exact T|].
        rewrite debounced_validate_documents, N. cbn [documents s0 set_documents].
        rewrite <- Ev, lookup_insert_eq. cbn [timer_doc due now].
        repeat split; auto; lia.
      * left. destruct (debounced_close d s C) as (T & _ & _ & S' & _).
        rewrite Ev in T. split; [exact T|].
        rewrite debounced_step_documents, <- Ev, lookup_delete_eq.
        unfold sent_for. rewrite S', sent_for_snoc.
        cbn [cleared pd_uri]. rewrite String.eqb_refl. apply last_snoc_some.
    + (* an event about another document *)
      rewrite (concerns_other u v e Ev Hne), orb_false_r.
      destruct (debounced_step_other s e u v C R Ev Hne) as (T & _ & S' & N).
      assert (D : documents (DebouncedSession.step s e) !! u = documents s !! u).
      { rewrite debounced_step_documents.
        destruct e as [d | d | n]; cbn in Ev; try discriminate;
          injection Ev as Ev; subst v.
        - apply lookup_insert_ne. congruence.
        - apply lookup_delete_ne. congruence. }
      destruct H as [[T0 L] | (tm & d & T0 & Hd & Hdoc & Hu & Hdue)].
      * left. split; [rewrite T; exact T0|]. rewrite D, S'. exact L.
      * right. exists tm, d. rewrite T, D, N. repeat split; auto; lia.
  - rewrite (concerns_elapse u e Ev), orb_false_r.
    destruct e as [d | d | n]; cbn in Ev; try discriminate.
    rewrite debounced_step_elapse.
    apply (debounced_elapse_settles u t n s H).
Qed.

Lemma debounced_run_settles (u : string) (events : list Event) :
  forall s t,
    consistent s -> registered_armed s ->
    settled Debounced.diagnosticsOf u t s \/ scheduled u s ->
    settled Debounced.diagnosticsOf u (t || concerned u events)
      (DebouncedSession.run s events)
    \/ scheduled u (DebouncedSession.run s events).
Proof.
  induction events as [|e events IH]; intros s t C R H.
  - cbn [concerned existsb]. rewrite orb_false_r. exact H.
  - rewrite debounced_run_cons. unfold concerned. cbn [existsb].
    rewrite orb_assoc. apply IH.
    + apply debounced_step_consistent, C.
    + apply debounced_step_registered_armed; assumption.
    + apply debounced_step_settles; assumption.
Qed.

Lemma immediate_step_settles (u : string) (t : bool) (s : Server) (e : Event) :
  timers s = [] ->
  settled Immediate.diagnosticsOf u t s ->
  settled Immediate.diagnosticsOf u (t || concerns u e)
    (ImmediateSession.step s e).
Proof.
  intros T0 [_ L].
  pose proof (immediate_step_no_timer s e T0) as T1.
  split; [unfold timers_for; rewrite T1; reflexivity|].
  destruct e as [d | d | n].
  - rewrite immediate_step_change.
    set (s0 := set_documents (<[uri d:=d]> (documents s)) s).
    destruct (immediate_validate d s0) as (_ & S' & _).
    assert (D : documents (ImmediateSession.validate d s0)
                = <[uri d:=d]> (documents s)).
    { unfold ImmediateSession.validate, ImmediateSession.doValidate, doValidate.
      cbn. apply clean_pending_documents. }
    rewrite D. unfold sent_for in *. rewrite S', sent_for_snoc.
    cbn [notification_of pd_uri s0 sent set_documents].
    destruct (String.eqb_spec (uri d) u) as [<- | Hne].
    + rewrite lookup_insert_eq. apply last_snoc_some.
    + rewrite lookup_insert_ne, app_nil_r by exact Hne.
      rewrite (concerns_other u (uri d)), orb_false_r by (auto; congruence).
      exact L.
  - rewrite immediate_step_close.
    destruct (clean_pending_trace d
                (set_documents (delete (uri d) (documents s)) s))
      as (_ & S' & _).
    unfold cleanDiagnostics, sent_for in *.
    cbn [documents sent sendNotification].
    rewrite clean_pending_documents, S'. cbn [documents sent set_documents].
    rewrite sent_for_snoc. cbn [pd_uri].
    destruct (String.eqb_spec (uri d) u) as [<- | Hne].
    + rewrite lookup_delete_eq, (concerns_about (uri d)), orb_true_r
        by reflexivity.
      apply last_snoc_some.
    + rewrite lookup_delete_ne, app_nil_r by exact Hne.
      rewrite (concerns_other u (uri d)), orb_false_r by (auto; congruence).
      exact L.
  - rewrite immediate_step_elapse.
    destruct (elapse_idle Immediate.diagnosticsOf n s T0) as (_ & _ & S').
    destruct (elapse_timers_documents Immediate.diagnosticsOf n s) as [D _].
    unfold sent_for in *. rewrite D, S'.
    rewrite (concerns_elapse u (Elapse n)), orb_false_r by reflexivity.
    exact L.
Qed.

(** X25.  The diagnostics are eventually up to date.  The events are the
    calls of the two listeners of the server and waits.  After any sequence
    of them, once 500 ms have passed without a call, the debouncing server
    has no validation pending for a URI, and the last notification it
    published for that URI carries the diagnostics of the text it holds for
    it.  When it holds no document for the URI, the last notification
    published is the empty list that clears the diagnostics if a listener
    was ever called for the URI, and nothing was published for the URI if
    none was.  The immediate server is in that situation after every
    event. *)
Theorem diagnostics_are_eventually_up_to_date (events : list Event)
  (u : string) (rest : nat) :
  (500 <= rest)%nat ->
  settled Debounced.diagnosticsOf u (concerned u events)
    (DebouncedSession.run initial (events ++ [Elapse rest]))
  /\ settled Immediate.diagnosticsOf u (concerned u events)
       (ImmediateSession.run initial events).
Proof.
  intros Hrest. split.
  - unfold DebouncedSession.run, run. rewrite fold_left_app.
    change (fold_left (step Debounced.diagnosticsOf DebouncedSession.validate)
              events initial)
      with (DebouncedSession.run initial events).
    cbn [fold_left step].
    apply debounced_elapse_settles; [|exact Hrest].
    apply (debounced_run_settles u events initial false).
    + exact initial_consistent.
    + exact initial_registered_armed.
    + left. split; [reflexivity|]. cbn. rewrite lookup_empty. reflexivity.
  - assert (G : forall s t,
               timers s = [] -> settled Immediate.diagnosticsOf u t s ->
               settled Immediate.diagnosticsOf u (t || concerned u events)
                 (ImmediateSession.run s events)).
    { induction events as [|e events IH]; intros s t T H.
      - cbn [concerned existsb]. rewrite orb_false_r. exact H.
      - rewrite immediate_run_cons. unfold concerned. cbn [existsb].
        rewrite orb_assoc. apply IH.
        + apply immediate_step_no_timer, T.
        + apply immediate_step_settles; assumption. }
    apply (G initial false); [reflexivity|].
    split; [reflexivity|]. cbn. rewrite lookup_empty. reflexivity.
Qed.

Lemma diagnostics_are_eventually_up_to_date_witness :
  let d1 := {| uri := "file:///q.echo"; getText := str "INDEX" |} in
  let d2 := {| uri := "file:///q.echo"; getText := str "INDEX users" |} in
  let d3 := {| uri := "file:///r.echo"; getText := str "MAP x" |} in
  let events := [DidChangeContent d1; Elapse 600; DidChangeContent d2;
                 DidChangeContent d3; DidClose d3] in
  settled Debounced.diagnosticsOf "file:///q.echo" true
    (DebouncedSession.run initial (events ++ [Elapse 500]))
  /\ settled Immediate.diagnosticsOf "file:///r.echo" true
       (ImmediateSession.run initial events).
Proof.
  intros d1 d2 d3 events.
  split.
  - apply (diagnostics_are_eventually_up_to_date events "file:///q.echo" 500).
    lia.
  - apply (diagnostics_are_eventually_up_to_date events "file:///r.echo" 500).
    lia.
Defined.

(** ** Validating a formatted text *)

(** X26.  On a formatted text the two validators agree: whatever the text,
    the diagnostics that the immediate variant and the debouncing variant of
    [doValidate] compute for the text that [format] produces are the same
    list, since a formatted line has no white space but single spaces
    between its first and its last character. *)
Theorem validators_agree_on_formatted_text (text : jsstring) :
  Immediate.diagnosticsOf (formatText text)
  = Debounced.diagnosticsOf (formatText text).
Proof.
  unfold Immediate.diagnosticsOf, Debounced.diagnosticsOf, forEach.
  apply forEach_from_ext_in. intros l j Hl.
  rewrite formatText_lines in Hl. apply in_map_iff in Hl as (l0 & <- & _).
  rewrite immediate_as_debounced.
  - replace (trim (formatLine l0)) with (formatLine l0); [reflexivity|].
    unfold formatLine. rewrite trim_idem. reflexivity.
  - apply spaces_only_trim, spaces_only_trim, spaces_only_collapse.
Qed.

(** ** Ranges and the length of the line *)


Lemma first_piece_split_length sep s : len (first_piece (split sep s)) <= len s.
Proof.
  induction s as [|c s IH]; [cbn; lia|].
  cbn [split]. destruct (char_eqb c sep).
  - cbn [first_piece hd]. rewrite len_cons. pose proof (len_nonneg s).
    unfold len at 1. cbn. lia.
  - destruct (split_cons sep s) as (p & r & E). rewrite E in *.
    cbn [first_piece hd] in *. rewrite !len_cons. lia.
Qed.













(** ** Formatting and the rule on quotes *)

Lemma blank_visible s : blank s = str_eqb (toUpperCase (visible s)) [].
Proof.
  unfold blank. induction s as [|c s IH]; [reflexivity|].
  cbn [forallb]. destruct (is_space c) eqn:E.
  - rewrite visible_cons_space by exact E. exact IH.
  - rewrite visible_cons_nonspace, toUpperCase_cons by exact E.
    unfold upper_units. destruct (code c =? 223)%N; reflexivity.
Qed.

Lemma blank_formatLine l : blank (formatLine l) = blank l.
Proof. rewrite !blank_visible, upper_visible_formatLine. reflexivity. Qed.

Lemma count_char_visible q s :
  is_space q = false -> count_char q (visible s) = count_char q s.
Proof.
  intros Hq. unfold count_char, visible.
  induction s as [|c s IH]; [reflexivity|].
  cbn [List.filter]. destruct (is_space c) eqn:Sp; cbn [negb List.filter].
  - destruct (char_eqb q c) eqn:E; [|exact IH].
    apply char_eqb_eq in E. congruence.
  - destruct (char_eqb q c); cbn [length]; rewrite IH; reflexivity.
Qed.

Lemma count_quotes_upper_units c :
  count_char (ascii_of_N 34) (upper_units c)
  = count_char (ascii_of_N 34) [c].
Proof. ascii_cases c. Qed.

Lemma count_char_app q a b :
  count_char q (a ++ b) = (count_char q a + count_char q b)%nat.
Proof. unfold count_char. rewrite List.filter_app, length_app. reflexivity. Qed.

Lemma count_quotes_upper s :
  count_char (ascii_of_N 34) (toUpperCase s) = count_char (ascii_of_N 34) s.
Proof.
  induction s as [|c s IH]; [reflexivity|].
  rewrite toUpperCase_cons, count_char_app, count_quotes_upper_units, IH.
  change (c :: s) with ([c] ++ s). rewrite count_char_app. reflexivity.
Qed.

Lemma count_quotes_formatLine l :
  count_char (ascii_of_N 34) (formatLine l) = count_char (ascii_of_N 34) l.
Proof.
  rewrite <- (count_char_visible _ (formatLine l)) by reflexivity.
  rewrite <- count_quotes_upper, upper_visible_formatLine, count_quotes_upper.
  apply count_char_visible. reflexivity.
Qed.

Lemma slash_not_space c : is_space c = true -> char_eqb "/" c = false.
Proof.
  intros H. destruct (char_eqb "/" c) eqn:E; [|reflexivity].
  apply char_eqb_eq in E. subst c. discriminate H.
Qed.

Lemma slash_not_word c : is_word c = true -> char_eqb "/" c = false.
Proof.
  intros H. destruct (char_eqb "/" c) eqn:E; [|reflexivity].
  apply char_eqb_eq in E. subst c. discriminate H.
Qed.

Lemma startsWith_slashes a s :
  startsWith (str "//") (a :: s)
  = char_eqb "/" a && match s with b :: _ => char_eqb "/" b | [] => false end.
Proof.
  change (str "//") with ["/"%char; "/"%char]. cbn [startsWith].
  destruct s as [|b s]; [reflexivity|]. cbn [startsWith].
  rewrite andb_true_r. reflexivity.
Qed.

Lemma startsWith_trimEnd_slashes s :
  startsWith (str "//") (trimEnd s) = startsWith (str "//") s.
Proof.
  destruct s as [|a [|b r]]; [reflexivity| |].
  - cbn [trimEnd]. destruct (is_space a); [|reflexivity].
    rewrite startsWith_slashes, andb_false_r. reflexivity.
  - rewrite (trimEnd_cons a), (trimEnd_cons b).
    destruct (trimEnd r); [|rewrite !startsWith_slashes; reflexivity].
    destruct (is_space b) eqn:Eb; [|rewrite !startsWith_slashes; reflexivity].
    rewrite (startsWith_slashes a (b :: r)), (slash_not_space b Eb), andb_false_r.
    destruct (is_space a); [reflexivity|].
    rewrite startsWith_slashes, andb_false_r. reflexivity.
Qed.

(** The first character after the three replacements of [format]. *)
Lemma formatted_head c r :
  exists c' rest,
    collapseSpaces (spaceAfterBrackets (uppercaseKeywords (c :: r))) = c' :: rest
    /\ char_eqb "/" c' = char_eqb "/" c.
Proof.
  destruct (is_word c) eqn:W.
  - destruct (word_span (c :: r)) as (w & rest & E & Hw & Hr).
    destruct w as [|c0 w].
    { cbn [app] in E. subst rest. unfold starts_nonword in Hr.
      cbn [hd_error is_word_opt] in Hr. rewrite W in Hr. discriminate Hr. }
    cbn [app] in E. injection E as <- Er. subst r.
    assert (Hw' : all_word w = true).
    { unfold all_word in *. cbn [forallb] in Hw.
      apply andb_true_iff in Hw. apply Hw. }
    destruct (upcase_word_shape c w W Hw') as (c' & w' & Eu & Wc' & _).
    pose proof (uppercaseKeywords_whole_word [] (c :: w) rest
                  eq_refl Hw ltac:(discriminate) Hr) as U.
    cbn [app] in U. rewrite U, Eu.
    change (uppercaseKeywords []) with (@nil ascii). cbn [app].
    unfold collapseSpaces. cbn [spaceAfterBrackets].
    destruct (is_bracket c'); cbn [collapse_from];
      rewrite (word_not_space c' Wc'); eexists _, _;
      (split; [reflexivity|]);
      rewrite (slash_not_word c' Wc'), (slash_not_word c W); reflexivity.
  - rewrite uppercaseKeywords_nonword by exact W.
    unfold collapseSpaces. cbn [spaceAfterBrackets].
    destruct (is_bracket c); cbn [collapse_from];
      destruct (is_space c) eqn:Sp; eexists _, _;
      (split; [reflexivity|]);
      try reflexivity; rewrite (slash_not_space c Sp); reflexivity.
Qed.

Lemma formatted_slash r :
  collapseSpaces (spaceAfterBrackets (uppercaseKeywords ("/"%char :: r)))
  = "/"%char :: collapseSpaces (spaceAfterBrackets (uppercaseKeywords r)).
Proof. rewrite uppercaseKeywords_nonword by reflexivity. reflexivity. Qed.

Lemma startsWith_formatted s :
  startsWith (str "//")
    (collapseSpaces (spaceAfterBrackets (uppercaseKeywords s)))
  = startsWith (str "//") s.
Proof.
  destruct s as [|a r]; [reflexivity|].
  destruct (char_eqb "/" a) eqn:Ea.
  - apply char_eqb_eq in Ea. subst a.
    rewrite formatted_slash, !startsWith_slashes.
    destruct r as [|b r]; [reflexivity|].
    destruct (formatted_head b r) as (c' & X & E & Hc). rewrite E, Hc.
    reflexivity.
  - destruct (formatted_head a r) as (c' & X & E & Hc).
    rewrite E, !startsWith_slashes, Hc, Ea. reflexivity.
Qed.

Lemma comment_formatLine l : comment (formatLine l) = comment l.
Proof.
  unfold comment.
  replace (trim (formatLine l)) with (formatLine l)
    by (unfold formatLine; rewrite trim_idem; reflexivity).
  unfold formatLine, trim. rewrite !startsWith_trimEnd_slashes.
  unfold collapseSpaces.
  rewrite trimStart_collapse, <- spaceAfterBrackets_trimStart,
    <- uppercase_trimStart.
  apply startsWith_formatted.
Qed.

Lemma quote_lines_forEach {A : Type} (f : A -> Z -> list Diagnostic)
  (lines : list A) :
  forall i,
    quote_lines (forEach_from i f lines)
    = forEach_from i (fun l j => quote_lines (f l j)) lines.
Proof.
  induction lines as [|l lines IH]; intros i; [reflexivity|].
  cbn [forEach_from]. rewrite <- IH. unfold quote_lines.
  rewrite List.filter_app, map_app. reflexivity.
Qed.

Lemma debounced_quote_lines l j :
  quote_lines (Debounced.checkLine l j)
  = if blank l || comment l then []
    else if Nat.odd (count_char (ascii_of_N 34) l) then [j] else [].
Proof.
  unfold quote_lines. destruct (blank l || comment l) eqn:Sk.
  - rewrite debounced_checkLine_skipped by exact Sk. reflexivity.
  - apply orb_false_iff in Sk as [B C].
    rewrite debounced_quotes_of_line by assumption.
    destruct (Nat.odd _); reflexivity.
Qed.

Lemma immediate_quote_lines l j :
  quote_lines (Immediate.checkLine l j)
  = if blank l || comment l then []
    else if Nat.odd (count_char (ascii_of_N 34) l) then [j] else [].
Proof.
  unfold quote_lines. destruct (blank l || comment l) eqn:Sk.
  - rewrite immediate_checkLine_skipped by exact Sk. reflexivity.
  - apply orb_false_iff in Sk as [B C].
    rewrite immediate_quotes_of_line by assumption.
    destruct (Nat.odd _); reflexivity.
Qed.

(** X28.  Formatting does not change the verdict of the rule on quotes.
    The formatted line is blank, or a comment, exactly when the line is, and
    holds the same number of double quotes; so both validators report
    unmatched quotes on the same lines of the formatted text as on the lines
    of the text, and the two validators report them on the same lines. *)
Theorem formatting_keeps_the_quote_verdict (line text : jsstring) :
  blank (formatLine line) = blank line
  /\ comment (formatLine line) = comment line
  /\ count_char (ascii_of_N 34) (formatLine line)
     = count_char (ascii_of_N 34) line
  /\ quote_lines (Debounced.diagnosticsOf (formatText text))
     = quote_lines (Debounced.diagnosticsOf text)
  /\ quote_lines (Immediate.diagnosticsOf (formatText text))
     = quote_lines (Immediate.diagnosticsOf text)
  /\ quote_lines (Debounced.diagnosticsOf text)
     = quote_lines (Immediate.diagnosticsOf text).
Proof.
  split; [apply blank_formatLine|].
  split; [apply comment_formatLine|].
  split; [apply count_quotes_formatLine|].
  unfold Debounced.diagnosticsOf, Immediate.diagnosticsOf, forEach.
  rewrite formatText_lines, !forEach_from_map, !quote_lines_forEach.
  split; [|split]; apply forEach_from_ext; intros l j;
    rewrite ?debounced_quote_lines, ?immediate_quote_lines,
      ?blank_formatLine, ?comment_formatLine, ?count_quotes_formatLine;
    reflexivity.
Qed.

(** ** The markers and the connection *)

Lemma connectToServer_markers s :
  Client.markers (Client.connectToServer s) = Client.markers s.
Proof.
  unfold Client.connectToServer.
  destruct (Client.MAX_RECONNECT_ATTEMPTS <=? _); reflexivity.
Qed.

Lemma reconnections_markers {A : Type} (due : list A) :
  forall s,
    Client.markers (fold_left (fun s' _ => Client.connectToServer s') due s)
    = Client.markers s.
Proof.
  induction due as [|t due IH]; intros s; [reflexivity|].
  cbn [fold_left]. rewrite IH. apply connectToServer_markers.
Qed.

Lemma wait_markers ms :
  forall s, Client.markers (Client.wait ms s) = Client.markers s.
Proof.
  induction ms as [|k IH]; intros s; [reflexivity|].
  cbn [Client.wait]. rewrite IH. unfold Client.tick. cbv zeta.
  rewrite reconnections_markers. reflexivity.
Qed.

Lemma step_markers s e :
  Client.markers (Client.step s e)
  = match e with
    | Client.Message msg =>
        if Client.publishes msg then
          match Client.markers s with
          | Some _ => Some (map Client.toMarker (Client.msg_diagnostics msg))
          | None => None
          end
        else Client.markers s
    | _ => Client.markers s
    end.
Proof.
  destruct e as [| | | msg | content | ms]; cbn [Client.step].
  - unfold Client.onopen. rewrite send_markers. reflexivity.
  - reflexivity.
  - reflexivity.
  - unfold Client.onmessage. cbv zeta.
    set (s1 := if negb (Client.initialized s) && Client.answers_initialize msg
               then _ else s).
    assert (E : Client.markers s1 = Client.markers s).
    { subst s1. destruct (negb (Client.initialized s) && _); [|reflexivity].
      rewrite sendDocumentChange_markers, send_markers. reflexivity. }
    clearbody s1. destruct (Client.publishes msg); [|exact E].
    rewrite <- E. destruct (Client.markers s1) eqn:M; [reflexivity | exact M].
  - unfold Client.onDidChangeModelContent.
    rewrite sendDocumentChange_markers. reflexivity.
  - apply wait_markers.
Qed.

Lemma run_markers_without_publication events :
  existsb Client.is_publication events = false ->
  forall s, Client.markers (Client.run s events) = Client.markers s.
Proof.
  unfold Client.run.
  induction events as [|e events IH]; intros H s; [reflexivity|].
  cbn [existsb] in H. apply orb_false_iff in H as [He H].
  cbn [fold_left]. rewrite (IH H), step_markers.
  destruct e; try reflexivity. cbn [Client.is_publication] in He.
  rewrite He. reflexivity.
Qed.

Lemma run_markers_present events :
  forall s ms,
    Client.markers s = Some ms ->
    exists ms', Client.markers (Client.run s events) = Some ms'.
Proof.
  unfold Client.run.
  induction events as [|e events IH]; intros s ms H; [exists ms; exact H|].
  cbn [fold_left].
  assert (exists m1, Client.markers (Client.step s e) = Some m1) as (m1 & H1).
  { rewrite step_markers, H.
    destruct e; try (eexists; reflexivity).
    destruct (Client.publishes message0); eexists; reflexivity. }
  apply (IH _ _ H1).
Qed.

(** X29.  The markers outlive the connection.  Only a publication changes
    the markers of the editor: a run of events without one (edits, socket
    errors, the closing of the socket, reconnections, other messages) leaves
    them as they are, and after a publication the editor shows the markers of
    that publication until the next one, connected or not. *)
Theorem markers_outlive_the_connection (s : Client.State)
  (before after : list Client.Event) (msg : Client.ServerMessage)
  (ms : list Client.Marker) :
  Client.markers s = Some ms ->
  Client.publishes msg = true ->
  existsb Client.is_publication after = false ->
  Client.markers (Client.run s after) = Some ms
  /\ Client.markers (Client.run s (before ++ Client.Message msg :: after))
     = Some (map Client.toMarker (Client.msg_diagnostics msg)).
Proof.
  intros Hs Hp Ha. split.
  - rewrite run_markers_without_publication by exact Ha. exact Hs.
  - unfold Client.run. rewrite fold_left_app. cbn [fold_left].
    fold (Client.run s before).
    destruct (run_markers_present before s ms Hs) as (ms' & Hb).
    set (s1 := Client.run s before) in *. clearbody s1.
    fold (Client.run (Client.step s1 (Client.Message msg)) after).
    rewrite run_markers_without_publication by exact Ha.
    rewrite step_markers, Hp, Hb. reflexivity.
Qed.

Lemma markers_outlive_the_connection_witness :
  let answer :=
    Client.Message {| Client.msg_id := Some 1; Client.msg_method := None;
                      Client.msg_diagnostics := [] |} in
  let publication :=
    {| Client.msg_id := None;
       Client.msg_method := Some (str "textDocument/publishDiagnostics");
       Client.msg_diagnostics := Immediate.diagnosticsOf (str "INDEX") |} in
  let after := [Client.ContentChanged (str "INDEX users"); Client.Close;
                Client.Wait 1000; Client.Open] in
  Client.markers
    (Client.run (Client.start 0)
       ([Client.Open; answer] ++ Client.Message publication :: after))
  = Some (map Client.toMarker (Immediate.diagnosticsOf (str "INDEX"))).
Proof.
  intros answer publication after.
  destruct (markers_outlive_the_connection (Client.start 0)
              [Client.Open; answer] after publication [] eq_refl eq_refl
              eq_refl) as [_ H].
  exact H.
Defined.
